(** * Music Beats Dodge: audio-driven obstacle spawning

    A shallow embedding of the game's core (audio.py, obstacles.py,
    player.py, game.py, the [spawn_logic] of one_file_version.py and the
    song choice of launcher.py), the properties of its specification, and
    further properties of the code.

    Modelling conventions.
    - Python [int] is [Z].  A finite float is a rational number, so Python
      floats and [np.float32] numbers are values of [Q].  Where what the
      code does hangs on a rounding, each operation is rounded as IEEE 754
      rounds it ([fl64], [fl32]): the product that [samples_per_window]
      truncates, the arrival times compared in the 0.6 s slice test, and
      the float32 analyzer of [Module Float32].  Elsewhere the arithmetic
      is exact, and a statement about an energy, a baseline, a ratio or an
      x position holds of the program up to rounding.  Infinities and NaN
      are not modelled.
    - NumPy arrays and Python lists are [list]s, updated in place with
      stdpp's [<[i:=v]>].
    - An exception is a value [Raise e] of the [result] type.
    - The process-wide NumPy random source is an explicit record of raw
      draws handed to each tick. *)

From stdpp Require Import base list.
From Stdlib Require Import ZArith QArith Qround Qabs Qminmax Qpower Lia Lqa.

Open Scope Z_scope.

(** ** Constants

    [config.py] holds the constants of the modular version; their values
    are those of the [Config] block of [one_file_version.py]. *)
Module Config.
Definition SCREEN_W : Z := 800.
Definition SCREEN_H : Z := 600.
Definition FPS : Z := 60.
Definition LANES : Z := 10.
Definition LANE_HEIGHT : Q := inject_Z SCREEN_H / inject_Z LANES.
Definition PLAYER_X : Z := 100.
Definition OBSTACLE_SPEED : Z := 300.
Definition SPAWN_AHEAD_PIXELS : Z := 900.
Definition WINDOW_MS : Z := 100.
Definition ENERGY_BASELINE_BUFFER : nat := 50.

Definition LOW_TH : Q := 105 # 100.
Definition MEDIUM_TH : Q := 15 # 10.
Definition HIGH_TH : Q := 22 # 10.

Definition LOW_SIZES : list Z := [1; 1; 2].
Definition MEDIUM_SIZES : list Z := [2; 3].
Definition HIGH_SIZES : list Z := [4; 5; 6].

Definition MIN_SPAWN_INTERVAL_MS : Z := 150.
Definition HEAVY_COOLDOWN_MS : Z := 600.
End Config.
Import Config.

(** ** Python and NumPy primitives *)

Inductive PyError : Type :=
  | ValueError
  | ZeroDivisionError
  | IndexError.

Inductive result (A : Type) : Type :=
  | Ok (a : A)
  | Raise (e : PyError).
Arguments Ok {A} a.
Arguments Raise {A} e.

#[global] Instance result_ret : MRet result := fun A a => Ok a.

#[global] Instance result_bind : MBind result := fun A B k r =>
  match r with
  | Ok a => k a
  | Raise e => Raise e
  end.

(** The added constant [1e-9]. *)
Definition eps : Q := 1 # 1000000000.

(** [int(q)]: truncation toward zero. *)
Definition py_int (q : Q) : Z := Z.quot (Qnum q) (Zpos (Qden q)).

(** [math.ceil(q)]. *)
Definition py_ceil (q : Q) : Z := Qceiling q.

(** [clamp(v, a, b) = max(a, min(b, v))]. *)
Definition clamp (v a b : Z) : Z := Z.max a (Z.min b v).

(** [range(a, b)] over integers. *)
Definition py_range (a b : Z) : list Z :=
  map (fun k => a + Z.of_nat k) (seq 0 (Z.to_nat (b - a))).

(** A slice bound as Python normalises it: a negative bound counts from the
    end, and the outcome is clipped to [0, len]. *)
Definition slice_bound (len i : Z) : Z :=
  if i <? 0 then Z.max 0 (i + len) else Z.min i len.

(** [l[start:stop]]. *)
Definition py_slice {A : Type} (l : list A) (start stop : Z) : list A :=
  let len := Z.of_nat (length l) in
  let a := slice_bound len start in
  let b := slice_bound len stop in
  firstn (Z.to_nat (b - a)) (skipn (Z.to_nat a) l).

(** [np.sum]. *)
Definition np_sum (l : list Q) : Q := fold_right Qplus 0%Q l.

(** [np.max]: a reduction with no identity, it raises on an empty array. *)
Definition np_max (l : list Q) : result Q :=
  match l with
  | [] => Raise ValueError
  | h :: t => Ok (fold_left Qmax t h)
  end.

(** Boolean comparisons of floats. *)
Definition Qltb (a b : Q) : bool := negb (Qle_bool b a).
Definition Qgeb (a b : Q) : bool := Qle_bool b a.
Definition Qgtb (a b : Q) : bool := negb (Qle_bool a b).

(** [a / b] on Python floats. *)
Definition py_div (a b : Q) : result Q :=
  if Qeq_bool b 0 then Raise ZeroDivisionError else Ok (a / b)%Q.

(** ** IEEE 754 rounding

    A finite float is a rational number, and an operation on floats returns
    its exact result rounded to the nearest float, ties to even.  A result
    beyond the largest float, an infinity in the program, is not
    modelled. *)

(** [q] rounded to the nearest integer, ties to even. *)
Definition round_half_even (q : Q) : Z :=
  let f := Qfloor q in
  match (q - inject_Z f ?= 1 # 2)%Q with
  | Lt => f
  | Gt => f + 1
  | Eq => if Z.even f then f else f + 1
  end.

(** [floor(log2 q)], for [0 < q]. *)
Definition binade (q : Q) : Z :=
  let l := Z.log2 (Qnum q) - Z.log2 (Zpos (Qden q)) in
  if Qle_bool (2 ^ l) q then l else l - 1.

(** The float nearest to [0 < q] in a binary format of [prec] significant
    bits whose smallest positive number is [2 ^ emin]: a multiple of the
    unit in the last place of the binade of [q]. *)
Definition round_pos (prec emin : Z) (q : Q) : Q :=
  let e := Z.max emin (binade q - prec + 1) in
  Qred (inject_Z (round_half_even (q / 2 ^ e)) * 2 ^ e).

Definition fl_round (prec emin : Z) (q : Q) : Q :=
  match (0 ?= q)%Q with
  | Lt => round_pos prec emin q
  | Gt => Qred (- round_pos prec emin (- q))
  | Eq => 0%Q
  end.

(** Rounding to a Python float (binary64) and to a [np.float32]. *)
Definition fl64 : Q -> Q := fl_round 53 (-1074).
Definition fl32 : Q -> Q := fl_round 24 (-149).

(** ** audio.py *)

(** What the decoder (pydub's [AudioSegment]) hands to the analyzer. *)
Record AudioSegment : Type := {
  frame_rate : Z;
  channels : Z;
  array_of_samples : list Z
}.

Record AudioAnalyzer : Type := {
  sample_rate : Z;
  samples : list Q;
  ms_per_window : Z;
  samples_per_window : Z;
  num_windows : Z;
  energy : list Q;
  baseline : list Q
}.

(** The rows of [a.reshape((-1, c))], [n] of them. *)
Fixpoint reshape_rows (n c : nat) (l : list Q) : list (list Q) :=
  match n with
  | O => []
  | S n' => firstn c l :: reshape_rows n' c (skipn c l)
  end.

(** [a.reshape((-1, c)).mean(axis=1)]. *)
Definition mono_mix (c : Z) (l : list Q) : result (list Q) :=
  let len := Z.of_nat (length l) in
  if negb (len mod c =? 0) then Raise ValueError
  else Ok (map (fun row => np_sum row / inject_Z c)%Q
               (reshape_rows (Z.to_nat (len / c)) (Z.to_nat c) l)).

(** Energy of the window [samples[start:end]]. *)
Definition window_energy (samples : list Q) (spw : Z) (i : nat) : Q :=
  let start := Z.of_nat i * spw in
  let stop := start + spw in
  let window := py_slice samples start stop in
  (np_sum (map (fun s => s * s) window)
   / (inject_Z (Z.of_nat (length window)) + eps))%Q.

(** [_compute_energy]: fills the zero array [energy] in place. *)
Definition _compute_energy (samples : list Q) (spw : Z) (num_windows : Z)
    (energy : list Q) : list Q :=
  fold_left (fun en i => <[i := window_energy samples spw i]> en)
            (seq 0 (Z.to_nat num_windows)) energy.

(** The state of the loop of [_compute_running_baseline]. *)
Record BaselineLoop : Type := {
  bl_out : list Q;
  bl_cum : Q;
  bl_dq : list Q
}.

Definition baseline_step (N : nat) (st : BaselineLoop) (ie : nat * Q)
    : BaselineLoop :=
  let '(i, e) := ie in
  let dq := bl_dq st ++ [e] in
  let cum := (bl_cum st + e)%Q in
  let '(cum, dq) :=
    if (N <? length dq)%nat then
      match dq with
      | h :: t => ((cum - h)%Q, t)
      | [] => (cum, dq)
      end
    else (cum, dq) in
  {| bl_out := <[i := (cum / inject_Z (Z.of_nat (length dq)))%Q]> (bl_out st);
     bl_cum := cum;
     bl_dq := dq |}.

(** [enumerate(l)]. *)
Definition enumerate {A : Type} (l : list A) : list (nat * A) :=
  combine (seq 0 (length l)) l.

(** [_compute_running_baseline], for a buffer of [N] windows. *)
Definition baseline_start (n : nat) : BaselineLoop :=
  {| bl_out := replicate n 0%Q; bl_cum := 0%Q; bl_dq := [] |}.

Definition running_baseline (N : nat) (energy : list Q) : list Q :=
  let st := fold_left (baseline_step N) (enumerate energy)
                      (baseline_start (length energy)) in
  map (fun b => b + eps)%Q (bl_out st).

Definition _compute_running_baseline (energy : list Q) : list Q :=
  running_baseline ENERGY_BASELINE_BUFFER energy.

(** The samples as floats, mixed down to one channel when there are
    several. *)
Definition mono_samples (audio : AudioSegment) : result (list Q) :=
  if channels audio >? 1
  then mono_mix (channels audio) (map inject_Z (array_of_samples audio))
  else Ok (map inject_Z (array_of_samples audio)).

(** [int(self.sample_rate * (window_ms / 1000.0))]: the quotient and the
    product are floats, each rounded, and [int] truncates the product. *)
Definition spw_of (audio : AudioSegment) (window_ms : Z) : Z :=
  py_int (fl64 (fl64 (inject_Z (frame_rate audio))
                * fl64 (fl64 (inject_Z window_ms) / 1000)))%Q.

(** [AudioAnalyzer.__init__], from the decoded audio. *)
Definition AudioAnalyzer_init (audio : AudioSegment) (window_ms : Z)
    : result AudioAnalyzer :=
  samples1 ← mono_samples audio;
  m ← np_max (map Qabs samples1);
  let maxv := if Qeq_bool m 0 then 1%Q else m in
  let samples := map (fun s => s / maxv)%Q samples1 in
  let spw := spw_of audio window_ms in
  q ← py_div (inject_Z (Z.of_nat (length samples))) (inject_Z spw);
  let nw := Z.max 1 (py_ceil q) in
  let energy := _compute_energy samples spw nw
                  (replicate (Z.to_nat nw) 0%Q) in
  Ok {| sample_rate := frame_rate audio;
        samples := samples;
        ms_per_window := window_ms;
        samples_per_window := spw;
        num_windows := nw;
        energy := energy;
        baseline := _compute_running_baseline energy |}.

(** [get_window_index_for_ms]. *)
Definition get_window_index_for_ms (a : AudioAnalyzer) (ms_since_start : Z)
    : result Z :=
  q ← py_div (inject_Z ms_since_start) (inject_Z (ms_per_window a));
  Ok (clamp (py_int q) 0 (num_windows a - 1)).

(** [l[i]] for an integer index: a negative index counts from the end. *)
Definition py_getitem {A : Type} (l : list A) (i : Z) : result A :=
  let len := Z.of_nat (length l) in
  let j := if i <? 0 then i + len else i in
  if (0 <=? j) && (j <? len) then
    match l !! Z.to_nat j with
    | Some v => Ok v
    | None => Raise IndexError
    end
  else Raise IndexError.

(** [l[i] = v] on a Python list. *)
Definition py_setitem {A : Type} (l : list A) (i : Z) (v : A)
    : result (list A) :=
  let len := Z.of_nat (length l) in
  let j := if i <? 0 then i + len else i in
  if (0 <=? j) && (j <? len) then Ok (<[Z.to_nat j := v]> l)
  else Raise IndexError.

(** A [for] loop whose body may raise. *)
Fixpoint for_each {A S : Type} (body : S -> A -> result S) (l : list A)
    (s : S) : result S :=
  match l with
  | [] => Ok s
  | a :: l' => s' ← body s a; for_each body l' s'
  end.

(** [get_energy_for_ms]. *)
Definition get_energy_for_ms (a : AudioAnalyzer) (ms : Z) : result Q :=
  idx ← get_window_index_for_ms a ms;
  py_getitem (energy a) idx.

(** [get_baseline_for_ms]. *)
Definition get_baseline_for_ms (a : AudioAnalyzer) (ms : Z) : result Q :=
  idx ← get_window_index_for_ms a ms;
  py_getitem (baseline a) idx.

(** ** audio.py in float32

    The arrays of the analyzer are [np.float32], and under the promotion
    rules of NumPy 2 a Python [float] or [int] combined with a [np.float32]
    gives a [np.float32]: every operation of the constructor is then a
    float32 operation, its exact result rounded by [fl32].  The 16-bit
    samples are float32 numbers as they are. *)
Module Float32.

(** A sum of fewer than 8 entries, and the tail of a block: one running
    sum. *)
Definition sum_loop (res : Q) (l : list Q) : Q :=
  fold_left (fun r v => fl32 (r + v)) l res.

(** The eight running sums of a block: entry [i] goes to sum [i mod 8]. *)
Fixpoint sum_lanes (rows : nat) (r : list Q) (l : list Q) : list Q :=
  match rows with
  | O => r
  | S rows' =>
      sum_lanes rows' (zip_with (fun a b => fl32 (a + b)) r (firstn 8 l))
                (skipn 8 l)
  end.

(** A block of 8 to 128 entries. *)
Definition sum_block (l : list Q) : Q :=
  let n := length l in
  let r := sum_lanes (n / 8 - 1) (firstn 8 l) (skipn 8 l) in
  let r i := default 0%Q (r !! i) in
  let res :=
    fl32 (fl32 (fl32 (r 0%nat + r 1%nat) + fl32 (r 2%nat + r 3%nat))
          + fl32 (fl32 (r 4%nat + r 5%nat) + fl32 (r 6%nat + r 7%nat))) in
  sum_loop res (skipn (n - n mod 8) l).

(** NumPy's pairwise summation: more than 128 entries are split in two, the
    first part a multiple of 8 long. *)
Fixpoint pairwise_sum (fuel : nat) (l : list Q) : Q :=
  let n := length l in
  if (n <? 8)%nat then sum_loop 0 l
  else if (n <=? 128)%nat then sum_block l
  else
    match fuel with
    | O => sum_block l
    | S fuel' =>
        let n2 := (n / 2 - (n / 2) mod 8)%nat in
        fl32 (pairwise_sum fuel' (firstn n2 l)
              + pairwise_sum fuel' (skipn n2 l))
    end.

(** [np.sum] of a float32 array. *)
Definition np_sum (l : list Q) : Q := pairwise_sum (length l) l.

(** [a.reshape((-1, c)).mean(axis=1)]: the sum of a row, divided by [c]. *)
Definition mono_mix (c : Z) (l : list Q) : result (list Q) :=
  let len := Z.of_nat (length l) in
  if negb (len mod c =? 0) then Raise ValueError
  else Ok (map (fun row => fl32 (np_sum row / inject_Z c))
               (reshape_rows (Z.to_nat (len / c)) (Z.to_nat c) l)).

(** [astype(np.float32)], and the mix to one channel. *)
Definition mono_samples (audio : AudioSegment) : result (list Q) :=
  let samples := map (fun s => fl32 (inject_Z s)) (array_of_samples audio) in
  if channels audio >? 1
  then mono_mix (channels audio) samples
  else Ok samples.

(** Energy of the window [samples[start:end]]; [len(window) + 1e-9] is a
    Python float. *)
Definition window_energy (samples : list Q) (spw : Z) (i : nat) : Q :=
  let start := Z.of_nat i * spw in
  let stop := start + spw in
  let window := py_slice samples start stop in
  fl32 (np_sum (map (fun s => fl32 (s * s)) window)
        / fl32 (fl64 (inject_Z (Z.of_nat (length window)) + fl64 eps))).

Definition _compute_energy (samples : list Q) (spw : Z) (num_windows : Z)
    (energy : list Q) : list Q :=
  fold_left (fun en i => <[i := window_energy samples spw i]> en)
            (seq 0 (Z.to_nat num_windows)) energy.

(** One turn of the loop of [_compute_running_baseline]: [cum] is a
    [np.float32] from the first [cum += e] on. *)
Definition baseline_step (N : nat) (st : BaselineLoop) (ie : nat * Q)
    : BaselineLoop :=
  let '(i, e) := ie in
  let dq := bl_dq st ++ [e] in
  let cum := fl32 (bl_cum st + e) in
  let '(cum, dq) :=
    if (N <? length dq)%nat then
      match dq with
      | h :: t => (fl32 (cum - h), t)
      | [] => (cum, dq)
      end
    else (cum, dq) in
  {| bl_out := <[i := fl32 (cum / inject_Z (Z.of_nat (length dq)))]> (bl_out st);
     bl_cum := cum;
     bl_dq := dq |}.

Definition running_baseline (N : nat) (energy : list Q) : list Q :=
  let st := fold_left (baseline_step N) (enumerate energy)
                      (baseline_start (length energy)) in
  map (fun b => fl32 (b + fl32 (fl64 eps))) (bl_out st).

Definition _compute_running_baseline (energy : list Q) : list Q :=
  running_baseline ENERGY_BASELINE_BUFFER energy.

(** [AudioAnalyzer.__init__]. *)
Definition AudioAnalyzer_init (audio : AudioSegment) (window_ms : Z)
    : result AudioAnalyzer :=
  samples1 ← mono_samples audio;
  m ← np_max (map Qabs samples1);
  let maxv := if Qeq_bool m 0 then 1%Q else m in
  let samples := map (fun s => fl32 (s / maxv)) samples1 in
  let spw := spw_of audio window_ms in
  q ← py_div (inject_Z (Z.of_nat (length samples))) (inject_Z spw);
  let nw := Z.max 1 (py_ceil q) in
  let energy := _compute_energy samples spw nw
                  (replicate (Z.to_nat nw) 0%Q) in
  Ok {| sample_rate := frame_rate audio;
        samples := samples;
        ms_per_window := window_ms;
        samples_per_window := spw;
        num_windows := nw;
        energy := energy;
        baseline := _compute_running_baseline energy |}.

End Float32.

(** ** pygame *)

(** What [pygame.Rect(left, top, width, height)] holds. *)
Record Rect : Type := {
  rect_left : Z;
  rect_top : Z;
  rect_width : Z;
  rect_height : Z
}.

(** ** obstacles.py *)

Record Obstacle : Type := {
  lane_start : Z;
  lane_count : Z;
  x : Q;
  width : Q;
  passed : bool
}.

(** [Obstacle(lane_start, lane_count, x_pos)], with [width_px=40]. *)
Definition Obstacle_init (lane_start lane_count : Z) (x_pos : Q) : Obstacle :=
  {| lane_start := lane_start;
     lane_count := lane_count;
     x := x_pos;
     width := 40;
     passed := false |}.

Definition set_x (o : Obstacle) (x' : Q) : Obstacle :=
  {| lane_start := lane_start o;
     lane_count := lane_count o;
     x := x';
     width := width o;
     passed := passed o |}.

Definition set_passed (o : Obstacle) : Obstacle :=
  {| lane_start := lane_start o;
     lane_count := lane_count o;
     x := x o;
     width := width o;
     passed := true |}.

(** [Obstacle.update]. *)
Definition Obstacle_update (o : Obstacle) (dt : Q) : Obstacle :=
  set_x o (x o - inject_Z OBSTACLE_SPEED * dt)%Q.

(** [Obstacle.get_rect]. *)
Definition Obstacle_get_rect (o : Obstacle) : Rect :=
  let top := py_int (inject_Z (lane_start o) * LANE_HEIGHT) in
  let height := py_int (inject_Z (lane_count o) * LANE_HEIGHT) in
  {| rect_left := py_int (x o);
     rect_top := top;
     rect_width := py_int (width o);
     rect_height := height |}.

Record ObstacleManager : Type := {
  obstacles : list Obstacle;
  last_spawn_ms : Z;
  last_heavy_ms : Z
}.

Definition ObstacleManager_init : ObstacleManager :=
  {| obstacles := []; last_spawn_ms := -10000; last_heavy_ms := -10000 |}.

(** The x position of a new obstacle, [SCREEN_W + SPAWN_AHEAD_PIXELS]. *)
Definition spawn_x : Q := inject_Z (SCREEN_W + SPAWN_AHEAD_PIXELS).

(** [ObstacleManager.spawn]. *)
Definition spawn (om : ObstacleManager) (lane_start lane_count : Z)
    (current_time_ms : Z) : ObstacleManager :=
  {| obstacles := obstacles om ++ [Obstacle_init lane_start lane_count spawn_x];
     last_spawn_ms := current_time_ms;
     last_heavy_ms := if lane_count >=? 4 then current_time_ms
                      else last_heavy_ms om |}.

(** [ObstacleManager.update]. *)
Definition update (om : ObstacleManager) (dt : Q) (current_time_ms : Z)
    : ObstacleManager :=
  let moved := map (fun o => Obstacle_update o dt) (obstacles om) in
  {| obstacles := List.filter (fun o => Qgtb (x o + width o) (-50)) moved;
     last_spawn_ms := last_spawn_ms om;
     last_heavy_ms := last_heavy_ms om |}.

(** Has the trailing edge of [o] crossed the player, [o] not yet passed? *)
Definition just_passed (o : Obstacle) : bool :=
  negb (passed o) && Qltb (x o + width o) (inject_Z PLAYER_X).

(** The lane distance of [mark_passed_and_count]. *)
Definition lane_dist (o : Obstacle) (player_lane : Z) : Z :=
  let obstacle_top := lane_start o in
  let obstacle_bottom := lane_start o + lane_count o - 1 in
  if player_lane <? obstacle_top then obstacle_top - player_lane
  else if player_lane >? obstacle_bottom then player_lane - obstacle_bottom
  else 0.

(** The loop of [mark_passed_and_count]: the obstacles are marked in place. *)
Fixpoint mark_passed_loop (player_lane : Z) (obs : list Obstacle) (count : Z)
    : Z * list Obstacle :=
  match obs with
  | [] => (count, [])
  | o :: rest =>
      if just_passed o then
        let count := if lane_dist o player_lane <=? 1 then count + 1
                     else count in
        let '(c, rest') := mark_passed_loop player_lane rest count in
        (c, set_passed o :: rest')
      else
        let '(c, rest') := mark_passed_loop player_lane rest count in
        (c, o :: rest')
  end.

(** [ObstacleManager.mark_passed_and_count]: the count, and the manager
    after the call. *)
Definition mark_passed_and_count (om : ObstacleManager) (player_lane : Z)
    : Z * ObstacleManager :=
  let '(count, obs) := mark_passed_loop player_lane (obstacles om) 0 in
  (count, {| obstacles := obs;
             last_spawn_ms := last_spawn_ms om;
             last_heavy_ms := last_heavy_ms om |}).

(** ** player.py *)

Record Player : Type := {
  lane : Z;
  target_lane : Z;
  y : Q;
  last_lane_change_ms : Z
}.

(** [Player.height], [int(LANE_HEIGHT * 0.8)]. *)
Definition Player_height : Z := py_int (LANE_HEIGHT * (8 # 10)).

(** [Player.lane_to_y]. *)
Definition lane_to_y (lane : Z) : Z :=
  let center := (inject_Z lane * LANE_HEIGHT + LANE_HEIGHT / 2)%Q in
  py_int (center - inject_Z Player_height / 2).

Definition Player_init : Player :=
  {| lane := LANES / 2;
     target_lane := LANES / 2;
     y := inject_Z (lane_to_y (LANES / 2));
     last_lane_change_ms := 0 |}.

Definition move_up (p : Player) : Player :=
  {| lane := lane p;
     target_lane := clamp (target_lane p - 1) 0 (LANES - 1);
     y := y p;
     last_lane_change_ms := last_lane_change_ms p |}.

Definition move_down (p : Player) : Player :=
  {| lane := lane p;
     target_lane := clamp (target_lane p + 1) 0 (LANES - 1);
     y := y p;
     last_lane_change_ms := last_lane_change_ms p |}.

(** [Player.update]; [ticks] is what [pygame.time.get_ticks()] returns. *)
Definition Player_update (p : Player) (ticks : Z) : Player :=
  let target_y := inject_Z (lane_to_y (target_lane p)) in
  let dy := (target_y - y p)%Q in
  if Qltb (Qabs dy) 1 then
    {| lane := target_lane p;
       target_lane := target_lane p;
       y := target_y;
       last_lane_change_ms := if target_lane p =? lane p
                              then last_lane_change_ms p else ticks |}
  else
    {| lane := lane p;
       target_lane := target_lane p;
       y := (y p + dy * (4 # 10))%Q;
       last_lane_change_ms := last_lane_change_ms p |}.

(** [Player.width]. *)
Definition Player_width : Z := 40.

(** [Player.get_rect]. *)
Definition Player_get_rect (p : Player) : Rect :=
  {| rect_left := py_int (inject_Z PLAYER_X);
     rect_top := py_int (y p);
     rect_width := Player_width;
     rect_height := Player_height |}.

Definition set_last_lane_change_ms (p : Player) (ms : Z) : Player :=
  {| lane := lane p;
     target_lane := target_lane p;
     y := y p;
     last_lane_change_ms := ms |}.

(** ** game.py *)

Inductive Tier : Type := low | medium | high.

#[global] Instance Tier_eq_dec : EqDecision Tier.
Proof. solve_decision. Defined.

(** The random source: the raw value behind each draw a tick can make.
    [rand] is the value of [np.random.rand()]; [choice] and [randint k]
    are reduced to the range the call asks for, so every element of the
    range is the outcome of some raw draw. *)
Record Rng : Type := {
  rand : Q;
  choice : nat;
  randint : nat -> nat
}.

(** [np.random.choice(sizes)]. *)
Definition np_choice (sizes : list Z) (raw : nat) : result Z :=
  match sizes with
  | [] => Raise ValueError
  | _ => Ok (nth (raw mod length sizes)%nat sizes 0)
  end.

(** [np.random.randint(lo, hi)]. *)
Definition np_randint (lo hi : Z) (raw : nat) : result Z :=
  if hi <=? lo then Raise ValueError
  else Ok (lo + Z.of_nat raw mod (hi - lo)).

Record Game : Type := {
  analyzer : AudioAnalyzer;
  player : Player;
  ob_manager : ObstacleManager;
  last_obstacle_near_ms : Z;
  recent_high_count : Z;
  score : Q;
  obstacles_dodged : Z
}.

(** The state [Game.__init__] builds around an analyzer. *)
Definition Game_init (a : AudioAnalyzer) : Game :=
  {| analyzer := a;
     player := Player_init;
     ob_manager := ObstacleManager_init;
     last_obstacle_near_ms := 0;
     recent_high_count := 0;
     score := 0;
     obstacles_dodged := 0 |}.

(** The first four lines of [spawn_logic]: [energy[idx] / baseline[idx]]. *)
Definition energy_ratio (a : AudioAnalyzer) (current_ms : Z) : result Q :=
  idx ← get_window_index_for_ms a current_ms;
  e ← py_getitem (energy a) idx;
  b ← py_getitem (baseline a) idx;
  py_div e b.

(** Tier classification with the high-streak smoothing.  [None] is the
    [return] of the quiet branch; otherwise the tier and the new value of
    [recent_high_count]. *)
Definition classify_tier (ratio : Q) (recent_high_count : Z) (u : Q)
    : option (option Tier * Z) :=
  if Qgeb ratio HIGH_TH then
    let tier := if recent_high_count =? 0 then high
                else if recent_high_count =? 1 then medium
                else low in
    Some (Some tier, Z.min (recent_high_count + 1) 4)
  else if Qgeb ratio MEDIUM_TH then Some (Some medium, 0)
  else if Qgeb ratio LOW_TH then Some (Some low, 0)
  else if Qltb u (5 # 100) then Some (Some low, 0)
  else None.

(** The heavy cooldown. *)
Definition heavy_cooldown (tier : option Tier) (current_ms last_heavy : Z)
    : option Tier :=
  match tier with
  | Some high =>
      if current_ms - last_heavy <? HEAVY_COOLDOWN_MS then Some medium
      else Some high
  | _ => tier
  end.

(** Lane-count selection. *)
Definition choose_lane_count (tier : Tier) (raw : nat) : result Z :=
  match tier with
  | low => np_choice LOW_SIZES raw
  | medium => np_choice MEDIUM_SIZES raw
  | high => np_choice HIGH_SIZES raw
  end.

(** Estimated arrival time at the player of something at [x],
    [(x - PLAYER_X) / OBSTACLE_SPEED]: a float subtraction and a float
    division. *)
Definition arrival_time (x : Q) : Q :=
  fl64 (fl64 (x - inject_Z PLAYER_X) / inject_Z OBSTACLE_SPEED)%Q.

(** Is [o] in the 0.6 s slice of a new obstacle?  The test
    [abs(t_o - t_new) < 0.6] is decided on the rounded difference of the
    two rounded times, against the float [0.6]: an obstacle at [x = 1520],
    exactly 0.6 s ahead of the spawn column, passes it. *)
Definition in_slice (o : Obstacle) : bool :=
  Qltb (Qabs (fl64 (arrival_time (x o) - arrival_time spawn_x)))
       (fl64 (6 # 10)).

(** The inner loop over one existing obstacle: its lanes are marked, those
    outside the field are skipped. *)
Definition mark_obstacle (blocks : list Z) (o : Obstacle)
    : result (list Z) :=
  if in_slice o then
    for_each (fun b l => if (0 <=? l) && (l <? LANES)
                         then py_setitem b l 1 else Ok b)
             (py_range (lane_start o) (lane_start o + lane_count o)) blocks
  else Ok blocks.

(** The occupancy mask [blocks] of one trial. *)
Definition trial_blocks (obs : list Obstacle) (start lane_count : Z)
    : result (list Z) :=
  let blocks := replicate (Z.to_nat LANES) 0 in
  blocks ← for_each mark_obstacle obs blocks;
  for_each (fun b l => py_setitem b l 1)
           (py_range start (start + lane_count)) blocks.

(** The placement search: trial [k] of [k + n] in all; the outcome is the
    accepted [lane_start], or [None] when no trial is accepted. *)
Fixpoint placement_trials (n k : nat) (obs : list Obstacle) (lane_count : Z)
    (rng : Rng) : result (option Z) :=
  match n with
  | O => Ok None
  | S n' =>
      start ← np_randint 0 (LANES - lane_count + 1) (randint rng k);
      blocks ← trial_blocks obs start lane_count;
      if bool_decide (0 ∈ blocks) then Ok (Some start)
      else placement_trials n' (S k) obs lane_count rng
  end.

Definition placement_search (obs : list Obstacle) (lane_count : Z)
    (rng : Rng) : result (option Z) :=
  placement_trials 8 0 obs lane_count rng.

Definition set_ob_manager (g : Game) (om : ObstacleManager) : Game :=
  {| analyzer := analyzer g;
     player := player g;
     ob_manager := om;
     last_obstacle_near_ms := last_obstacle_near_ms g;
     recent_high_count := recent_high_count g;
     score := score g;
     obstacles_dodged := obstacles_dodged g |}.

Definition set_recent_high_count (g : Game) (c : Z) : Game :=
  {| analyzer := analyzer g;
     player := player g;
     ob_manager := ob_manager g;
     last_obstacle_near_ms := last_obstacle_near_ms g;
     recent_high_count := c;
     score := score g;
     obstacles_dodged := obstacles_dodged g |}.

Definition set_player (g : Game) (p : Player) : Game :=
  {| analyzer := analyzer g;
     player := p;
     ob_manager := ob_manager g;
     last_obstacle_near_ms := last_obstacle_near_ms g;
     recent_high_count := recent_high_count g;
     score := score g;
     obstacles_dodged := obstacles_dodged g |}.

(** How the audio-driven block of [spawn_logic] ends: it falls through to
    the boredom block, or it returns from [spawn_logic]. *)
Inductive Flow : Type :=
  | FallThrough (g : Game)
  | Return (g : Game).

(** The audio-driven block of [spawn_logic]. *)
Definition audio_driven (g : Game) (current_ms : Z) (ratio : Q) (rng : Rng)
    : result Flow :=
  let time_since_last := current_ms - last_spawn_ms (ob_manager g) in
  if time_since_last >=? MIN_SPAWN_INTERVAL_MS then
    match classify_tier ratio (recent_high_count g) (rand rng) with
    | None => Ok (Return g)
    | Some (tier, rhc) =>
        let g := set_recent_high_count g rhc in
        let tier := heavy_cooldown tier current_ms
                      (last_heavy_ms (ob_manager g)) in
        match tier with
        | None => Ok (FallThrough g)
        | Some tier =>
            lane_count ← choose_lane_count tier (choice rng);
            placed ← placement_search (obstacles (ob_manager g))
                       lane_count rng;
            match placed with
            | Some lane_start =>
                Ok (FallThrough
                      (set_ob_manager g
                         (spawn (ob_manager g) lane_start lane_count
                                current_ms)))
            | None => Ok (FallThrough g)
            end
        end
    end
  else Ok (FallThrough g).

(** [int(OBSTACLE_SPEED * 0.6)]. *)
Definition shift_amount : Z := py_int (inject_Z OBSTACLE_SPEED * (6 # 10)).

(** Does the boredom spawn push [o] forward? *)
Definition conflicting (o : Obstacle) : bool :=
  Qgtb (x o) (inject_Z PLAYER_X)
  && Qltb (Qabs ((x o - spawn_x) / inject_Z OBSTACLE_SPEED)) (4 # 10).

(** [o.x += shift_amount] for the conflicting obstacles. *)
Definition push_forward (o : Obstacle) : Obstacle :=
  if conflicting o then set_x o (x o + inject_Z shift_amount)%Q else o.

(** The boredom block of [spawn_logic]. *)
Definition boredom (g : Game) (current_ms : Z) : Game :=
  let inactive_time := current_ms - last_lane_change_ms (player g) in
  let quiet_time := current_ms - last_obstacle_near_ms g in
  if (inactive_time >? 500) && (quiet_time >? 400) then
    let shifted := map push_forward (obstacles (ob_manager g)) in
    let tiny := Obstacle_init (lane (player g)) 1 spawn_x in
    set_player
      (set_ob_manager g
         {| obstacles := shifted ++ [tiny];
            last_spawn_ms := current_ms;
            last_heavy_ms := last_heavy_ms (ob_manager g) |})
      (set_last_lane_change_ms (player g) current_ms)
  else g.

(** [Game.spawn_logic]. *)
Definition spawn_logic (g : Game) (current_ms : Z) (rng : Rng)
    : result Game :=
  ratio ← energy_ratio (analyzer g) current_ms;
  flow ← audio_driven g current_ms ratio rng;
  match flow with
  | Return g' => Ok g'
  | FallThrough g' => Ok (boredom g' current_ms)
  end.

Definition flow_game (f : Flow) : Game :=
  match f with
  | FallThrough g => g
  | Return g => g
  end.

(** *** The loop of [Game.run]

    One iteration of the loop, for a run that goes on: the exits of the
    loop (a quit event, the end of the song, a collision) and the drawing
    are left out.  What the iteration reads from pygame is its input. *)

Inductive Move : Type := Up | Down.

Record TickInput : Type := {
  dt_ms : Z;          (* [self.clock.tick(FPS)] *)
  moves : list Move;  (* the key events, in order *)
  pygame_ticks : Z;   (* [pygame.time.get_ticks()] *)
  music_pos : Z;      (* [self.ms_since_start()] *)
  rng : Rng
}.

Definition apply_move (p : Player) (m : Move) : Player :=
  match m with
  | Up => move_up p
  | Down => move_down p
  end.

(** [any((PLAYER_X < o.x < SCREEN_W + 200) for o in obstacles)]. *)
Definition obstacles_near (obs : list Obstacle) : bool :=
  existsb (fun o => Qltb (inject_Z PLAYER_X) (x o)
                    && Qltb (x o) (inject_Z (SCREEN_W + 200))) obs.

Definition tick (g : Game) (i : TickInput) : result Game :=
  let dt := (inject_Z (dt_ms i) / 1000)%Q in
  let p := fold_left apply_move (moves i) (player g) in
  let g := set_player g (Player_update p (pygame_ticks i)) in
  let current_ms := music_pos i in
  g ← spawn_logic g current_ms (rng i);
  let om := update (ob_manager g) dt current_ms in
  let near_ms := if obstacles_near (obstacles om) then current_ms
                 else last_obstacle_near_ms g in
  let '(count, om) := mark_passed_and_count om (lane (player g)) in
  Ok {| analyzer := analyzer g;
        player := player g;
        ob_manager := om;
        last_obstacle_near_ms := near_ms;
        recent_high_count := recent_high_count g;
        score := (score g + dt * 1)%Q;
        obstacles_dodged := obstacles_dodged g + count |}.

(** The iterations of a run, one per input. *)
Definition run (g : Game) (inputs : list TickInput) : result Game :=
  for_each tick inputs g.

(** *** The spawns of a run

    An observer of [spawn_logic]: the spawns one call makes, in order, each
    with the time of the call. *)

Inductive SpawnKind : Type := EnergySpawn | BoredomSpawn.

#[global] Instance SpawnKind_eq_dec : EqDecision SpawnKind.
Proof. solve_decision. Defined.

Definition obstacle_count (g : Game) : nat :=
  length (obstacles (ob_manager g)).

Definition spawn_events (g : Game) (current_ms : Z) (rng : Rng)
    : result (list (Z * SpawnKind)) :=
  ratio ← energy_ratio (analyzer g) current_ms;
  flow ← audio_driven g current_ms ratio rng;
  let g1 := flow_game flow in
  let energy_ev := if (obstacle_count g <? obstacle_count g1)%nat
                   then [(current_ms, EnergySpawn)] else [] in
  match flow with
  | Return _ => Ok energy_ev
  | FallThrough _ =>
      Ok (energy_ev ++
          if (obstacle_count g1 <? obstacle_count (boredom g1 current_ms))%nat
          then [(current_ms, BoredomSpawn)] else [])
  end.

(** The state the player's part of an iteration leaves to [spawn_logic]. *)
Definition before_spawn (g : Game) (i : TickInput) : Game :=
  set_player g (Player_update (fold_left apply_move (moves i) (player g))
                              (pygame_ticks i)).

(** A run together with the spawns it makes. *)
Fixpoint run_log (g : Game) (inputs : list TickInput)
    : result (Game * list (Z * SpawnKind)) :=
  match inputs with
  | [] => Ok (g, [])
  | i :: rest =>
      ev ← spawn_events (before_spawn g i) (music_pos i) (rng i);
      g' ← tick g i;
      '(g'', log) ← run_log g' rest;
      Ok (g'', ev ++ log)
  end.

(** ** one_file_version.py

    The one-file version of the game has the same classes; its
    [spawn_logic] has no streak counter, and its quiet branch sets
    [tier = None] instead of returning. *)
Module OneFile.

(** The tier; [None] is [tier = None]. *)
Definition classify_tier (ratio u : Q) : option Tier :=
  if Qgeb ratio HIGH_TH then Some high
  else if Qgeb ratio MEDIUM_TH then Some medium
  else if Qgeb ratio LOW_TH then Some low
  else if Qltb u (5 # 100) then Some low
  else None.

(** The audio-driven block. *)
Definition audio_driven (g : Game) (current_ms : Z) (ratio : Q) (rng : Rng)
    : result Game :=
  let time_since_last := current_ms - last_spawn_ms (ob_manager g) in
  if time_since_last >=? MIN_SPAWN_INTERVAL_MS then
    let tier := classify_tier ratio (rand rng) in
    let tier := heavy_cooldown tier current_ms
                  (last_heavy_ms (ob_manager g)) in
    match tier with
    | None => Ok g
    | Some tier =>
        lane_count ← choose_lane_count tier (choice rng);
        placed ← placement_search (obstacles (ob_manager g)) lane_count rng;
        match placed with
        | Some lane_start =>
            Ok (set_ob_manager g
                  (spawn (ob_manager g) lane_start lane_count current_ms))
        | None => Ok g
        end
    end
  else Ok g.

(** [Game.spawn_logic] of the one-file version. *)
Definition spawn_logic (g : Game) (current_ms : Z) (rng : Rng)
    : result Game :=
  ratio ← energy_ratio (analyzer g) current_ms;
  g' ← audio_driven g current_ms ratio rng;
  Ok (boredom g' current_ms).

End OneFile.

(** ** launcher.py *)

(** How [choose_song] ends: with a song, or with [sys.exit(1)]. *)
Inductive Choice (A : Type) : Type :=
  | Chosen (song : A)
  | Exit.
Arguments Chosen {A} song.
Arguments Exit {A}.

(** [choose_song].  [songs] are the [.wav] files of the song directory, in
    the order [os.listdir] gives them; [choice] is the value of
    [int(choice)], [None] when it raises.  The bare [except] turns every
    exception into [sys.exit(1)]. *)
Definition choose_song {A : Type} (songs : list A) (choice : option Z)
    : Choice A :=
  match songs with
  | [] => Exit
  | _ =>
      match choice with
      | None => Exit
      | Some n =>
          match py_getitem songs (n - 1) with
          | Ok song => Chosen song
          | Raise _ => Exit
          end
      end
  end.

(** ** The quantities the specification names *)

(** The number of frames of a decoded audio. *)
Definition frame_count (audio : AudioSegment) : Z :=
  let len := Z.of_nat (length (array_of_samples audio)) in
  if channels audio >? 1 then len / channels audio else len.

(** What one call of [mark_passed_and_count] does to an obstacle. *)
Definition mark (o : Obstacle) : Obstacle :=
  if just_passed o then set_passed o else o.

(** Does the call count [o]? *)
Definition counted (player_lane : Z) (o : Obstacle) : bool :=
  just_passed o && (lane_dist o player_lane <=? 1).

(** Arithmetic mean. *)
Definition mean (l : list Q) : Q :=
  (np_sum l / inject_Z (Z.of_nat (length l)))%Q.

(** [energy[max(0, i-N+1) .. i]], both ends included; the subtraction on
    [nat] stops at zero. *)
Definition trailing_window (N : nat) (energy : list Q) (i : nat) : list Q :=
  let lo := (i + 1 - N)%nat in
  firstn (i + 1 - lo) (skipn lo energy).

(** The samples [[i*W, (i+1)*W)]. *)
Definition window_samples (samples : list Q) (W i : nat) : list Q :=
  firstn W (skipn (i * W) samples).

(** ** What the constructor establishes *)

Record analyzer_ok (a : AudioAnalyzer) : Prop := {
  ok_windows : 1 <= num_windows a;
  ok_ms : ms_per_window a <> 0;
  ok_energy_len : length (energy a) = Z.to_nat (num_windows a);
  ok_baseline_len : length (baseline a) = Z.to_nat (num_windows a);
  ok_energy : Forall (fun e => 0 <= e)%Q (energy a);
  ok_baseline : Forall (fun b => eps <= b)%Q (baseline a)
}.

(** [W] as the specification words it, [round(sampleRate * windowMs /
    1000)], rounding to the nearest integer. *)
Definition round_half_up (q : Q) : Z := Qfloor (q + (1 # 2)).

Definition rounded_samples_per_window (audio : AudioSegment) (window_ms : Z)
    : Z :=
  round_half_up (inject_Z (frame_rate audio) * inject_Z window_ms / 1000).

(** ** Lanes and masks *)

(** [a <= l < b]. *)
Definition in_range (a b l : Z) : bool := (a <=? l) && (l <? b).

(** Does [o] occupy lane [l]? *)
Definition covers (o : Obstacle) (l : Z) : bool :=
  in_range (lane_start o) (lane_start o + lane_count o) l.

(** Is lane [l] occupied by the candidate or by an obstacle of the slice? *)
Definition blocked (obs : list Obstacle) (start lane_count l : Z) : bool :=
  in_range start (start + lane_count) l
  || existsb (fun o => in_slice o && covers o l) obs.

(** Is every lane of the field occupied? *)
Definition all_blocked (obs : list Obstacle) (start lane_count : Z) : bool :=
  forallb (blocked obs start lane_count) (py_range 0 LANES).

(** A lane that neither the candidate nor an obstacle of the slice
    occupies. *)
Definition open_lane (obs : list Obstacle) (start lc l : Z) : Prop :=
  0 <= l < LANES
  /\ ~ (start <= l < start + lc)
  /\ forall o, In o obs -> in_slice o = true ->
               ~ (lane_start o <= l < lane_start o + lane_count o).

(** The [lane_start] that trial [k] draws. *)
Definition draw_start (rng : Rng) (lane_count : Z) (k : nat) : Z :=
  Z.of_nat (randint rng k) mod (LANES - lane_count + 1).

(** [blocks] is the mask of the lanes that satisfy [P]. *)
Definition mask_of (P : Z -> bool) (blocks : list Z) : Prop :=
  length blocks = Z.to_nat LANES /\
  forall l, 0 <= l < LANES ->
    blocks !! Z.to_nat l = Some (if P l then 1 else 0).

(** [range(a, a + n)]. *)
Definition range_from (a : Z) (n : nat) : list Z :=
  map (fun k => a + Z.of_nat k) (seq 0 n).

(** ** The two blocks of [spawn_logic] *)

(** The ways the audio-driven block can end. *)
Inductive audio_outcome (g : Game) (ms : Z) (ratio : Q) (rng : Rng)
    : Flow -> Prop :=
  | AO_gate_closed :
      ms - last_spawn_ms (ob_manager g) < MIN_SPAWN_INTERVAL_MS ->
      audio_outcome g ms ratio rng (FallThrough g)
  | AO_quiet :
      MIN_SPAWN_INTERVAL_MS <= ms - last_spawn_ms (ob_manager g) ->
      classify_tier ratio (recent_high_count g) (rand rng) = None ->
      audio_outcome g ms ratio rng (Return g)
  | AO_skipped t0 c t lc :
      MIN_SPAWN_INTERVAL_MS <= ms - last_spawn_ms (ob_manager g) ->
      classify_tier ratio (recent_high_count g) (rand rng) = Some (Some t0, c) ->
      heavy_cooldown (Some t0) ms (last_heavy_ms (ob_manager g)) = Some t ->
      choose_lane_count t (choice rng) = Ok lc ->
      placement_search (obstacles (ob_manager g)) lc rng = Ok None ->
      audio_outcome g ms ratio rng (FallThrough (set_recent_high_count g c))
  | AO_placed t0 c t lc start :
      MIN_SPAWN_INTERVAL_MS <= ms - last_spawn_ms (ob_manager g) ->
      classify_tier ratio (recent_high_count g) (rand rng) = Some (Some t0, c) ->
      heavy_cooldown (Some t0) ms (last_heavy_ms (ob_manager g)) = Some t ->
      choose_lane_count t (choice rng) = Ok lc ->
      placement_search (obstacles (ob_manager g)) lc rng = Ok (Some start) ->
      audio_outcome g ms ratio rng
        (FallThrough (set_ob_manager (set_recent_high_count g c)
                        (spawn (ob_manager g) start lc ms))).

(** Is the boredom spawn due? *)
Definition bored (g : Game) (ms : Z) : bool :=
  (ms - last_lane_change_ms (player g) >? 500)
  && (ms - last_obstacle_near_ms g >? 400).

(** The obstacle of a boredom spawn. *)
Definition tiny_of (g : Game) : Obstacle :=
  Obstacle_init (lane (player g)) 1 spawn_x.

(** ** Logs of spawns *)

(** Every energy-driven spawn of the log comes at least
    [MIN_SPAWN_INTERVAL_MS] after the spawn before it; [prev] is the time
    of the last spawn before the log. *)
Fixpoint energy_gaps_ok (prev : Z) (log : list (Z * SpawnKind)) : Prop :=
  match log with
  | [] => True
  | (t, k) :: rest =>
      (k = EnergySpawn -> MIN_SPAWN_INTERVAL_MS <= t - prev)
      /\ energy_gaps_ok t rest
  end.

(** Every two successive spawns are [MIN_SPAWN_INTERVAL_MS] apart. *)
Fixpoint all_gaps_ok (prev : Z) (log : list (Z * SpawnKind)) : bool :=
  match log with
  | [] => true
  | (t, _) :: rest => (MIN_SPAWN_INTERVAL_MS <=? t - prev) && all_gaps_ok t rest
  end.

(** The time of the last spawn, [prev] when the log is empty. *)
Definition last_time (prev : Z) (log : list (Z * SpawnKind)) : Z :=
  List.last (map fst log) prev.

(** ** Invariants and observers of a run *)

(** The pixel rows of a rectangle. *)
Definition in_rows (r : Rect) (row : Z) : Prop :=
  rect_top r <= row < rect_top r + rect_height r.

(** The lane of a pixel row. *)
Definition lane_of_row (row : Z) : Z := row / (SCREEN_H / LANES).

(** The player has arrived in its target lane. *)
Definition settled (p : Player) : Prop :=
  lane p = target_lane p /\ y p = inject_Z (lane_to_y (target_lane p)).

(** The player is inside the field. *)
Definition player_in_field (p : Player) : Prop :=
  0 <= lane p <= LANES - 1
  /\ 0 <= target_lane p <= LANES - 1
  /\ (inject_Z (lane_to_y 0) <= y p <= inject_Z (lane_to_y (LANES - 1)))%Q.

(** An obstacle as [spawn_logic] makes them: inside the field, 1 to 6 lanes
    high, 40 pixels wide. *)
Definition obstacle_in_field (o : Obstacle) : Prop :=
  1 <= lane_count o <= 6
  /\ 0 <= lane_start o
  /\ lane_start o + lane_count o <= LANES
  /\ width o = 40%Q.

(** The same obstacle, possibly at another x position. *)
Definition same_but_x (o o' : Obstacle) : Prop :=
  lane_start o' = lane_start o /\ lane_count o' = lane_count o
  /\ width o' = width o /\ passed o' = passed o.

(** Two obstacles that differ at most in the representation of their
    rational fields. *)
Definition same_obstacle (o o' : Obstacle) : Prop :=
  lane_start o = lane_start o' /\ lane_count o = lane_count o'
  /\ (x o == x o')%Q /\ (width o == width o')%Q /\ passed o = passed o'.

(** The obstacles that [mark_passed_and_count] has not yet seen pass. *)
Definition unpassed (obs : list Obstacle) : list Obstacle :=
  List.filter (fun o => negb (passed o)) obs.

(** An obstacle that has not passed has its trailing edge at the player or
    ahead of it. *)
Definition awaiting (o : Obstacle) : Prop :=
  passed o = false -> (inject_Z PLAYER_X <= x o + width o)%Q.

(** The frame times of a run, in milliseconds. *)
Definition elapsed_ms (inputs : list TickInput) : Z :=
  fold_right Z.add 0 (map dt_ms inputs).

(** Every boredom spawn of the log comes more than 500 ms after the
    boredom spawn before it; [prev] is the time of the last one before the
    log. *)
Fixpoint boredom_gaps_ok (prev : Z) (log : list (Z * SpawnKind)) : Prop :=
  match log with
  | [] => True
  | (t, BoredomSpawn) :: rest => 500 < t - prev /\ boredom_gaps_ok t rest
  | (_, EnergySpawn) :: rest => boredom_gaps_ok prev rest
  end.

(** The time of the last boredom spawn, [prev] when the log has none. *)
Fixpoint last_boredom (prev : Z) (log : list (Z * SpawnKind)) : Z :=
  match log with
  | [] => prev
  | (t, BoredomSpawn) :: rest => last_boredom t rest
  | (_, EnergySpawn) :: rest => last_boredom prev rest
  end.

(** [s'] is [s] at [k] times the gain. *)
Definition louder (k : Z) (s s' : Q) : Prop := (s' == inject_Z k * s)%Q.

(** The audio with every frame doubled into two identical channels. *)
Definition as_stereo (audio : AudioSegment) : AudioSegment :=
  {| frame_rate := frame_rate audio;
     channels := 2;
     array_of_samples := flat_map (fun v => [v; v]) (array_of_samples audio) |}.

(** ** Concrete tracks, states and runs *)

(** The value of a computation that does not raise. *)
Definition unwrap {A : Type} (d : A) (r : result A) : A :=
  match r with
  | Ok a => a
  | Raise _ => d
  end.

(** A random source whose draws are all the same. *)
Definition const_rng (u : Q) (c r : nat) : Rng :=
  {| rand := u; choice := c; randint := fun _ => r |}.

(** Frame [k] of a run at 17 ms a frame, without key events. *)
Definition steady_tick (r : Rng) (k : nat) : TickInput :=
  {| dt_ms := 17; moves := []; pygame_ticks := 17 * Z.of_nat k;
     music_pos := 17 * Z.of_nat k; rng := r |}.

(** [n] calls of [update], each with the frame time [dt]. *)
Definition advance (n : nat) (dt : Q) (om : ObstacleManager)
    : ObstacleManager :=
  Nat.iter n (fun om => update om dt 0) om.

(** An obstacle on lanes 4 and 5, [n] frames of 17 ms after its spawn. *)
Definition crossing (n : nat) : ObstacleManager :=
  advance n (17 # 1000) (spawn ObstacleManager_init 4 2 0).

(** An analyzer whose ratio is [LOW_TH] at every time. *)
Definition flat_analyzer : AudioAnalyzer :=
  {| sample_rate := 44100; samples := []; ms_per_window := 100;
     samples_per_window := 4410; num_windows := 1;
     energy := [21 # 20]; baseline := [1%Q] |}.

(** 31 frames, 0 ms to 510 ms; every placement draws one lane at lane 0. *)
Definition flat_inputs : list TickInput :=
  map (steady_tick (const_rng (1 # 2) 0 0)) (seq 0 31).

Definition flat_game : Game := Eval vm_compute in
  unwrap (Game_init flat_analyzer) (run (Game_init flat_analyzer) flat_inputs).

(** 0.6 s at 8000 Hz, six windows of 800 samples: silence, a quarter of a
    window at full scale, silence, a window at full scale, silence. *)
Definition wall_audio : AudioSegment :=
  {| frame_rate := 8000; channels := 1;
     array_of_samples :=
       replicate 800 0 ++ (replicate 200 1 ++ replicate 600 0)
       ++ replicate 800 0 ++ replicate 800 1 ++ replicate 1600 0 |}.

Definition wall_analyzer : AudioAnalyzer := Eval vm_compute in
  unwrap flat_analyzer (AudioAnalyzer_init wall_audio WINDOW_MS).

(** The draws of frame [k]: at 0 ms the 5% draw succeeds and places lanes 8
    and 9; at 153 ms lanes 6 and 7; at 306 ms lanes 0 to 4; at 510 ms the 5%
    draw succeeds and every trial draws lane 5. *)
Definition wall_rng (k : nat) : Rng :=
  if (k =? 0)%nat then const_rng (1 # 100) 2 8
  else if (k =? 9)%nat then const_rng (1 # 2) 0 6
  else if (k =? 18)%nat then const_rng (1 # 2) 1 0
  else if (k =? 30)%nat then const_rng (1 # 100) 0 5
  else const_rng (1 # 2) 0 0.

(** The 30 frames from 0 ms to 493 ms. *)
Definition wall_inputs : list TickInput :=
  map (fun k => steady_tick (wall_rng k) k) (seq 0 30).

Definition wall_game : Game := Eval vm_compute in
  unwrap (Game_init wall_analyzer) (run (Game_init wall_analyzer) wall_inputs).

(** The frame at 510 ms. *)
Definition wall_tick : TickInput := steady_tick (wall_rng 30) 30.

Definition wall_game' : Game := Eval vm_compute in
  unwrap wall_game
    (spawn_logic (before_spawn wall_game wall_tick) (music_pos wall_tick)
                 (rng wall_tick)).

(** The run of [wall_inputs] up to 442 ms, and its next frame, at 459 ms:
    153 ms after the spawn at 306 ms, in a silent window. *)
Definition quiet_inputs : list TickInput := firstn 27 wall_inputs.

Definition quiet_game : Game := Eval vm_compute in
  unwrap (Game_init wall_analyzer) (run (Game_init wall_analyzer) quiet_inputs).

Definition quiet_tick : TickInput := steady_tick (wall_rng 27) 27.

Definition quiet_game' : Game := Eval vm_compute in
  unwrap quiet_game (tick quiet_game quiet_tick).

Definition quiet_ratio : Q := Eval vm_compute in
  unwrap 1%Q (energy_ratio wall_analyzer (music_pos quiet_tick)).

(** 0.4 s at 8000 Hz, four windows of 800 samples: silence, then a loud
    passage. *)
Definition streak_audio : AudioSegment :=
  {| frame_rate := 8000; channels := 1;
     array_of_samples := replicate 1600 0 ++ replicate 1600 1 |}.

Definition streak_analyzer : AudioAnalyzer := Eval vm_compute in
  unwrap flat_analyzer (AudioAnalyzer_init streak_audio WINDOW_MS).

(** The 18 frames from 0 ms to 289 ms; no 5% draw succeeds. *)
Definition streak_inputs : list TickInput :=
  map (steady_tick (const_rng (1 # 2) 0 0)) (seq 0 18).

Definition streak_game : Game := Eval vm_compute in
  unwrap (Game_init streak_analyzer)
         (run (Game_init streak_analyzer) streak_inputs).

(** The frame at 306 ms. *)
Definition streak_tick : TickInput := steady_tick (const_rng (1 # 2) 0 0) 18.

Definition streak_game' : Game := Eval vm_compute in
  unwrap streak_game (tick streak_game streak_tick).

Definition streak_ratio : Q := Eval vm_compute in
  unwrap 0%Q (energy_ratio streak_analyzer (music_pos streak_tick)).

(** 4406 samples at 44056 Hz. *)
Definition odd_rate_audio : AudioSegment :=
  {| frame_rate := 44056; channels := 1;
     array_of_samples := replicate 4406 1 |}.

(** An analyzer whose ratio is 3 at every time. *)
Definition spike_analyzer : AudioAnalyzer :=
  {| sample_rate := 44100; samples := []; ms_per_window := 100;
     samples_per_window := 4410; num_windows := 1;
     energy := [3%Q]; baseline := [1%Q] |}.

(** A state 300 ms after a spawn of 4 lanes. *)
Definition cooldown_game : Game :=
  {| analyzer := spike_analyzer;
     player := Player_init;
     ob_manager := {| obstacles := [Obstacle_init 0 4 1610];
                      last_spawn_ms := 1000;
                      last_heavy_ms := 1000 |};
     last_obstacle_near_ms := 900;
     recent_high_count := 0;
     score := 1;
     obstacles_dodged := 0 |}.

Definition cooldown_game' : Game := Eval vm_compute in
  unwrap cooldown_game
    (spawn_logic cooldown_game 1300 (const_rng (1 # 2) 1 0)).

(** The ratio of [wall_audio] at 150 ms, in its second window. *)
Definition second_window_ratio : Q := Eval vm_compute in
  unwrap 0%Q (energy_ratio wall_analyzer 150).

(** The first call of [spawn_logic] on [wall_audio], at 150 ms. *)
Definition early_game' : Game := Eval vm_compute in
  unwrap (Game_init wall_analyzer)
    (spawn_logic (Game_init wall_analyzer) 150 (const_rng (1 # 2) 1 0)).

(** A state 700 ms after a spawn of 4 lanes, the streak counter at 1. *)
Definition second_high_game : Game := set_recent_high_count cooldown_game 1.

Definition second_high_game' : Game := Eval vm_compute in
  unwrap second_high_game
    (spawn_logic second_high_game 1700 (const_rng (1 # 2) 1 0)).

(** The ratio of [spike_analyzer]. *)
Definition spike_ratio : Q := Eval vm_compute in
  unwrap 0%Q (energy_ratio spike_analyzer 1300).

(** 0.2 s of silence at 8000 Hz. *)
Definition silent_audio : AudioSegment :=
  {| frame_rate := 8000; channels := 1; array_of_samples := replicate 1600 0 |}.

Definition silent_analyzer : AudioAnalyzer := Eval vm_compute in
  unwrap flat_analyzer (AudioAnalyzer_init silent_audio WINDOW_MS).

(** The state of [cooldown_game] 700 ms after its spawn, and a call of
    [spawn_logic] then. *)
Definition heavy_game' : Game := Eval vm_compute in
  unwrap cooldown_game
    (spawn_logic cooldown_game 1700 (const_rng (1 # 2) 1 0)).

(** A player two lanes above its target. *)
Definition moving_player : Player := move_down (move_down Player_init).

(** [wall_audio] at 3 times the gain. *)
Definition loud_wall_audio : AudioSegment :=
  {| frame_rate := frame_rate wall_audio;
     channels := channels wall_audio;
     array_of_samples := map (Z.mul 3) (array_of_samples wall_audio) |}.

(** 5.2 s at 8000 Hz, 52 windows of 800 samples: a window at full scale, a
    window that holds a faint click (two samples, 36 and 52), and 5 s of
    silence. *)
Definition click_audio : AudioSegment :=
  {| frame_rate := 8000; channels := 1;
     array_of_samples :=
       replicate 800 10000 ++ ([36; 52] ++ replicate 798 0)
       ++ replicate (50 * 800) 0 |}.

(** The float32 analyzer of [click_audio]. *)
Definition click_analysis : result AudioAnalyzer :=
  Float32.AudioAnalyzer_init click_audio WINDOW_MS.

(** ** Tactics *)

(** Boolean comparisons of the hypotheses, as propositions. *)
Ltac zbool :=
  repeat match goal with
  | H : (_ <=? _) = true |- _ => apply Z.leb_le in H
  | H : (_ <=? _) = false |- _ => apply Z.leb_gt in H
  | H : (_ <? _) = true |- _ => apply Z.ltb_lt in H
  | H : (_ <? _) = false |- _ => apply Z.ltb_ge in H
  | H : (_ =? _) = true |- _ => apply Z.eqb_eq in H
  | H : (_ =? _) = false |- _ => apply Z.eqb_neq in H
  | H : (_ >=? _) = true |- _ => rewrite Z.geb_leb in H
  | H : (_ >=? _) = false |- _ => rewrite Z.geb_leb in H
  | H : (_ >? _) = true |- _ => rewrite Z.gtb_ltb in H
  | H : (_ >? _) = false |- _ => rewrite Z.gtb_ltb in H
  | H : _ && _ = true |- _ => apply andb_true_iff in H; destruct H
  end.

(** * Properties *)

(** ** Numbers *)

Lemma Qltb_lt a b : Qltb a b = true <-> (a < b)%Q.
Proof.
  unfold Qltb. rewrite negb_true_iff.
  destruct (Qle_bool b a) eqn:E.
  - apply Qle_bool_iff in E. split; [discriminate | intros H; lra].
  - split; [intros _ | reflexivity].
    apply Qnot_le_lt. intros H. apply Qle_bool_iff in H. congruence.
Qed.

Lemma Qgtb_gt a b : Qgtb a b = true <-> (b < a)%Q.
Proof. apply Qltb_lt. Qed.

Lemma Qgeb_ge a b : Qgeb a b = true <-> (b <= a)%Q.
Proof. apply Qle_bool_iff. Qed.

Lemma py_int_nonneg q : (0 <= q)%Q -> py_int q = Qfloor q.
Proof.
  destruct q as [n d]. unfold py_int, Qfloor, Qle. simpl. intros H.
  apply Z.quot_div_nonneg; lia.
Qed.

Lemma py_int_neg q : (q <= 0)%Q -> py_int q = Qceiling q.
Proof.
  destruct q as [n d]. unfold py_int, Qceiling, Qfloor, Qle. simpl. intros H.
  replace n with (- - n) at 1 by lia.
  rewrite Z.quot_opp_l by lia.
  rewrite Z.quot_div_nonneg by lia. reflexivity.
Qed.

Lemma py_int_mono a b : (a <= b)%Q -> py_int a <= py_int b.
Proof.
  intros H.
  destruct (Qlt_le_dec a 0) as [Ha | Ha]; destruct (Qlt_le_dec b 0) as [Hb | Hb].
  - rewrite !py_int_neg by lra. now apply Qceiling_resp_le.
  - rewrite (py_int_neg a), (py_int_nonneg b) by lra.
    transitivity 0.
    + replace 0 with (Qceiling 0) by reflexivity. apply Qceiling_resp_le. lra.
    + replace 0 with (Qfloor 0) by reflexivity. now apply Qfloor_resp_le.
  - lra.
  - rewrite !py_int_nonneg by lra. now apply Qfloor_resp_le.
Qed.

Lemma py_int_zero q : (q == 0)%Q -> py_int q = 0.
Proof.
  intros H. rewrite py_int_nonneg by lra. rewrite H. reflexivity.
Qed.

Lemma round_half_even_nonneg q : (0 <= q)%Q -> 0 <= round_half_even q.
Proof.
  intros Hq. unfold round_half_even.
  assert (Hf : 0 <= Qfloor q).
  { change 0 with (Qfloor 0). now apply Qfloor_resp_le. }
  destruct (_ ?= _)%Q; [destruct (Z.even _)|..]; lia.
Qed.

Lemma round_pos_nonneg prec emin q :
  (0 < q)%Q -> (0 <= round_pos prec emin q)%Q.
Proof.
  intros Hq. unfold round_pos. cbv zeta. rewrite Qred_correct.
  set (e := Z.max _ _).
  assert (Hp : (0 < 2 ^ e)%Q) by (apply Qpower_0_lt; reflexivity).
  apply Qmult_le_0_compat; [|now apply Qlt_le_weak].
  change 0%Q with (inject_Z 0). rewrite <- Zle_Qle.
  apply round_half_even_nonneg.
  apply Qle_shift_div_l; [exact Hp|]. rewrite Qmult_0_l. now apply Qlt_le_weak.
Qed.

(** [round_half_even] returns a nearest integer. *)
Lemma round_half_even_nearest q :
  (Qabs (inject_Z (round_half_even q) - q) <= 1 # 2)%Q.
Proof.
  unfold round_half_even. cbv zeta.
  pose proof (Qfloor_le q) as Hlo. pose proof (Qlt_floor q) as Hhi.
  rewrite inject_Z_plus in Hhi. change (inject_Z 1) with 1%Q in Hhi.
  set (f := Qfloor q) in *. clearbody f.
  assert (H1 : (inject_Z (f + 1) == inject_Z f + 1)%Q)
    by (rewrite inject_Z_plus; reflexivity).
  apply Qabs_Qle_condition.
  destruct (Qcompare_spec (q - inject_Z f) (1 # 2)) as [E|E|E].
  - destruct (Z.even f); [|rewrite H1]; split; lra.
  - split; lra.
  - rewrite H1. split; lra.
Qed.

(** [binade q] is the exponent of the power of two at or below [q]. *)
Lemma binade_spec q :
  (0 < q)%Q -> (2 ^ binade q <= q)%Q /\ (q < 2 ^ (binade q + 1))%Q.
Proof.
  intros Hq. unfold binade. cbv zeta.
  destruct q as [n d]. cbn [Qnum Qden].
  assert (Hn : 0 < n) by (unfold Qlt in Hq; cbn in Hq; lia).
  set (a := Z.log2 n). set (b := Z.log2 (Z.pos d)).
  destruct (Z.log2_spec n Hn) as [Ha1 Ha2]. fold a in Ha1, Ha2.
  destruct (Z.log2_spec (Z.pos d) ltac:(lia)) as [Hb1 Hb2]. fold b in Hb1, Hb2.
  assert (Ha0 : 0 <= a) by apply Z.log2_nonneg.
  assert (Hb0 : 0 <= b) by apply Z.log2_nonneg.
  assert (H2 : ~ (2 == 0)%Q) by discriminate.
  assert (Pa1 : (2 ^ a <= inject_Z n)%Q).
  { change 2%Q with (inject_Z 2). rewrite <- Zpower_Qpower by lia.
    now rewrite <- Zle_Qle. }
  assert (Pa2 : (inject_Z n < 2 * 2 ^ a)%Q).
  { assert (E : (2 * 2 ^ a == 2 ^ (a + 1))%Q).
    { rewrite Qpower_plus by exact H2. change (2 ^ 1)%Q with 2%Q. ring. }
    rewrite E. change 2%Q with (inject_Z 2). rewrite <- Zpower_Qpower by lia.
    now rewrite <- Zlt_Qlt. }
  assert (Pb1 : (2 ^ b <= inject_Z (Z.pos d))%Q).
  { change 2%Q with (inject_Z 2). rewrite <- Zpower_Qpower by lia.
    now rewrite <- Zle_Qle. }
  assert (Pb2 : (inject_Z (Z.pos d) < 2 * 2 ^ b)%Q).
  { assert (E : (2 * 2 ^ b == 2 ^ (b + 1))%Q).
    { rewrite Qpower_plus by exact H2. change (2 ^ 1)%Q with 2%Q. ring. }
    rewrite E. change 2%Q with (inject_Z 2). rewrite <- Zpower_Qpower by lia.
    now rewrite <- Zlt_Qlt. }
  assert (Eq : (n # d == inject_Z n / inject_Z (Z.pos d))%Q)
    by apply Qmake_Qdiv.
  assert (Hd : (0 < inject_Z (Z.pos d))%Q) by reflexivity.
  set (l := a - b).
  assert (El : (2 ^ l * 2 ^ b == 2 ^ a)%Q).
  { rewrite <- Qpower_plus by exact H2. unfold l.
    replace (a - b + b) with a by lia. reflexivity. }
  assert (El1 : (2 ^ (l + 1) == 2 * 2 ^ l)%Q).
  { rewrite Qpower_plus by exact H2. change (2 ^ 1)%Q with 2%Q. ring. }
  assert (El2 : (2 * 2 ^ (l - 1) == 2 ^ l)%Q).
  { replace l with ((l - 1) + 1) at 2 by lia.
    rewrite Qpower_plus by exact H2. change (2 ^ 1)%Q with 2%Q. ring. }
  assert (Pl : (0 < 2 ^ l)%Q) by (apply Qpower_0_lt; reflexivity).
  assert (Pb : (0 < 2 ^ b)%Q) by (apply Qpower_0_lt; reflexivity).
  assert (Pl' : (0 < 2 ^ (l - 1))%Q) by (apply Qpower_0_lt; reflexivity).
  assert (Hup : (n # d < 2 * 2 ^ l)%Q).
  { rewrite Eq. apply Qlt_shift_div_r; [exact Hd|].
    set (D := inject_Z (Z.pos d)) in *. set (N := inject_Z n) in *.
    set (pl := (2 ^ l)%Q) in *. set (pb := (2 ^ b)%Q) in *.
    set (pa := (2 ^ a)%Q) in *. clearbody D N pl pb pa. nra. }
  assert (Hdown : (2 ^ (l - 1) < n # d)%Q).
  { rewrite Eq. apply Qlt_shift_div_l; [exact Hd|].
    set (D := inject_Z (Z.pos d)) in *. set (N := inject_Z n) in *.
    set (pl := (2 ^ l)%Q) in *. set (pb := (2 ^ b)%Q) in *.
    set (pa := (2 ^ a)%Q) in *. set (pl' := (2 ^ (l - 1))%Q) in *.
    clearbody D N pl pb pa pl'. nra. }
  destruct (Qle_bool (2 ^ l) (n # d)) eqn:E.
  - apply Qle_bool_iff in E. split; [exact E|]. rewrite El1. exact Hup.
  - split; [now apply Qlt_le_weak|].
    replace (l - 1 + 1) with l by lia.
    apply Qnot_le_lt. intros H. apply Qle_bool_iff in H. congruence.
Qed.

(** [round_pos] returns a float nearest to [q]: a multiple [m * 2 ^ e] of
    the unit in the last place, at most half a unit away from [q]; above
    the subnormal range [m] has [prec] bits, or is [2 ^ prec], the first
    float of the next binade. *)
Lemma round_pos_nearest prec emin q :
  (0 < q)%Q -> 0 < prec ->
  let e := Z.max emin (binade q - prec + 1) in
  exists m,
    (round_pos prec emin q == inject_Z m * 2 ^ e)%Q
    /\ (Qabs (round_pos prec emin q - q) <= (1 # 2) * 2 ^ e)%Q
    /\ 0 <= m <= 2 ^ prec
    /\ (emin <= binade q - prec + 1 -> 2 ^ (prec - 1) <= m).
Proof.
  intros Hq Hprec e. unfold round_pos. cbv zeta. fold e.
  set (m := round_half_even (q / 2 ^ e)).
  exists m. rewrite Qred_correct.
  assert (H2 : ~ (2 == 0)%Q) by discriminate.
  assert (Pe : (0 < 2 ^ e)%Q) by (apply Qpower_0_lt; reflexivity).
  pose proof (round_half_even_nearest (q / 2 ^ e)) as Hn. fold m in Hn.
  destruct (binade_spec q Hq) as [Hb1 Hb2].
  set (s := (q / 2 ^ e)%Q) in *.
  assert (Es : (q == s * 2 ^ e)%Q) by (unfold s; field; lra).
  assert (Hs0 : (0 <= s)%Q).
  { unfold s. apply Qle_shift_div_l; [exact Pe|]. lra. }
  assert (Hsup : (s < inject_Z (2 ^ prec))%Q).
  { unfold s. apply Qlt_shift_div_r; [exact Pe|].
    rewrite Zpower_Qpower by lia. change (inject_Z 2) with 2%Q.
    rewrite <- Qpower_plus by exact H2.
    eapply Qlt_le_trans; [exact Hb2|].
    apply Qpower_le_compat_l; [unfold e; lia | discriminate]. }
  split; [reflexivity|]. split; [|split; [split|]].
  - assert (E : (inject_Z m * 2 ^ e - q == (inject_Z m - s) * 2 ^ e)%Q)
      by (rewrite Es at 1; ring).
    rewrite E, Qabs_Qmult, (Qabs_pos (2 ^ e)) by lra.
    apply Qmult_le_compat_r; [exact Hn | lra].
  - now apply round_half_even_nonneg.
  - apply Qabs_Qle_condition in Hn. destruct Hn as [_ Hn].
    assert (Hm : (inject_Z m < inject_Z (2 ^ prec + 1))%Q).
    { rewrite inject_Z_plus. change (inject_Z 1) with 1%Q. lra. }
    rewrite <- Zlt_Qlt in Hm. lia.
  - intros Hnorm.
    assert (Ee : e = binade q - prec + 1) by (unfold e; lia).
    assert (Hlow : (inject_Z (2 ^ (prec - 1)) <= s)%Q).
    { unfold s. apply Qle_shift_div_l; [exact Pe|].
      rewrite Zpower_Qpower by lia. change (inject_Z 2) with 2%Q.
      rewrite <- Qpower_plus by exact H2.
      replace (prec - 1 + e) with (binade q) by lia. exact Hb1. }
    apply Qabs_Qle_condition in Hn. destruct Hn as [Hn _].
    assert (Hm : (inject_Z (2 ^ (prec - 1) - 1) < inject_Z m)%Q).
    { unfold Z.sub at 1. rewrite inject_Z_plus.
      change (inject_Z (- (1))) with (- (1))%Q. lra. }
    rewrite <- Zlt_Qlt in Hm. lia.
Qed.

(** Rounding keeps zero and the sign. *)
Lemma fl_round_zero prec emin q : (q == 0)%Q -> fl_round prec emin q = 0%Q.
Proof.
  intros Hq. unfold fl_round.
  assert (E : (0 ?= q)%Q = Eq) by (apply Qeq_alt; now symmetry).
  now rewrite E.
Qed.

Lemma fl_round_nonneg prec emin q :
  (0 <= q)%Q -> (0 <= fl_round prec emin q)%Q.
Proof.
  intros Hq. unfold fl_round.
  destruct (Qcompare_spec 0 q) as [E|E|E].
  - apply Qle_refl.
  - now apply round_pos_nonneg.
  - exfalso. apply (Qlt_not_le _ _ E Hq).
Qed.

Lemma fl_round_nonpos prec emin q :
  (q <= 0)%Q -> (fl_round prec emin q <= 0)%Q.
Proof.
  intros Hq. unfold fl_round.
  destruct (Qcompare_spec 0 q) as [E|E|E].
  - apply Qle_refl.
  - exfalso. apply (Qlt_not_le _ _ E Hq).
  - rewrite Qred_correct.
    assert (H : (0 <= round_pos prec emin (- q))%Q).
    { apply round_pos_nonneg. lra. }
    lra.
Qed.

(** The floats the code names: [0.1] and [0.6] as Python floats, [1e-9] as
    a [np.float32]; an integer below [2 ^ 53] is a float. *)
Lemma fl_round_values :
  fl64 (1 # 10) = (3602879701896397 # 36028797018963968)%Q
  /\ fl64 (6 # 10) = (5404319552844595 # 9007199254740992)%Q
  /\ fl32 (1 # 1000000000) = (9007199 # 9007199254740992)%Q
  /\ fl64 1600 = 1600%Q
  /\ fl32 1 = 1%Q.
Proof. split_and!; vm_compute; reflexivity. Qed.

(** [window_ms = 0] gives no sample per window. *)
Lemma spw_of_zero audio : spw_of audio 0 = 0.
Proof.
  unfold spw_of. apply py_int_zero.
  assert (E : fl64 (fl64 (inject_Z 0) / 1000) = 0%Q).
  { apply fl_round_zero. unfold fl64. rewrite fl_round_zero by reflexivity.
    reflexivity. }
  rewrite E. unfold fl64. rewrite fl_round_zero; [reflexivity|]. ring.
Qed.

(** A negative [window_ms] gives no positive number of samples. *)
Lemma spw_of_nonpos audio window_ms :
  0 <= frame_rate audio -> window_ms <= 0 -> spw_of audio window_ms <= 0.
Proof.
  intros Hfr Hw. unfold spw_of.
  assert (H1 : (0 <= fl64 (inject_Z (frame_rate audio)))%Q).
  { apply fl_round_nonneg. change 0%Q with (inject_Z 0). now rewrite <- Zle_Qle. }
  assert (H2 : (fl64 (inject_Z window_ms) <= 0)%Q).
  { apply fl_round_nonpos. change 0%Q with (inject_Z 0). now rewrite <- Zle_Qle. }
  assert (H3 : (fl64 (fl64 (inject_Z window_ms) / 1000) <= 0)%Q).
  { apply fl_round_nonpos.
    set (v := fl64 (inject_Z window_ms)) in *. clearbody v.
    assert (E : (v / 1000 == v * (1 # 1000))%Q) by field.
    rewrite E. lra. }
  set (u := fl64 (inject_Z (frame_rate audio))) in *.
  set (v := fl64 (_ / 1000)) in *. clearbody u v.
  assert (H4 : (fl64 (u * v) <= 0)%Q) by (apply fl_round_nonpos; nra).
  rewrite py_int_neg by exact H4.
  change 0 with (Qceiling 0). now apply Qceiling_resp_le.
Qed.

Lemma py_div_Ok a b q : py_div a b = Ok q -> ~ (b == 0)%Q /\ q = (a / b)%Q.
Proof.
  unfold py_div. destruct (Qeq_bool b 0) eqn:E; [discriminate|].
  intros [= <-]. split; [|reflexivity].
  intros H. apply Qeq_bool_iff in H. congruence.
Qed.

Lemma py_div_nonzero a b : ~ (b == 0)%Q -> py_div a b = Ok (a / b)%Q.
Proof.
  intros H. unfold py_div. destruct (Qeq_bool b 0) eqn:E; [|reflexivity].
  apply Qeq_bool_iff in E. contradiction.
Qed.

Lemma inject_Z_nonzero z : z <> 0 <-> ~ (inject_Z z == 0)%Q.
Proof.
  change 0%Q with (inject_Z 0). rewrite <- inject_Z_injective. reflexivity.
Qed.

Lemma Qdiv_nonneg_neg a b : (0 <= a)%Q -> (b < 0)%Q -> (a / b <= 0)%Q.
Proof.
  intros Ha Hb.
  assert (E : (a / b == - (a / - b))%Q) by (field; lra).
  rewrite E.
  assert (0 <= a / - b)%Q; [|lra].
  apply Qle_shift_div_l; lra.
Qed.

Lemma Qdiv_le_mono a b c : (0 < c)%Q -> (a <= b)%Q -> (a / c <= b / c)%Q.
Proof.
  intros Hc Hab. unfold Qdiv. apply Qmult_le_compat_r; [exact Hab|].
  apply Qinv_le_0_compat. lra.
Qed.

Lemma np_sum_app a b : (np_sum (a ++ b) == np_sum a + np_sum b)%Q.
Proof.
  induction a as [|h a IH]; simpl.
  - ring.
  - rewrite IH. ring.
Qed.

Lemma np_sum_nonneg (l : list Q) :
  Forall (fun e => 0 <= e)%Q l -> (0 <= np_sum l)%Q.
Proof.
  induction 1 as [|e l He _ IH]; simpl; lra.
Qed.

Lemma mean_nonneg (l : list Q) :
  Forall (fun e => 0 <= e)%Q l -> (0 <= mean l)%Q.
Proof.
  intros H. unfold mean.
  destruct l as [|e l].
  - simpl. unfold Qdiv. rewrite Qmult_0_l. lra.
  - apply Qle_shift_div_l.
    + change 0%Q with (inject_Z 0). rewrite <- Zlt_Qlt. simpl. lia.
    + rewrite Qmult_0_l. now apply np_sum_nonneg.
Qed.

(** ** Lists and loops *)

Lemma combine_snoc {A B} (a : list A) (b : list B) (u : A) (v : B) :
  length a = length b ->
  combine (a ++ [u]) (b ++ [v]) = combine a b ++ [(u, v)].
Proof.
  revert b. induction a as [|h a IH]; intros [|k b] Hl; simpl in *;
    try discriminate; [reflexivity|].
  f_equal. apply IH. lia.
Qed.

Lemma enumerate_snoc {A} (p : list A) (e : A) :
  enumerate (p ++ [e]) = enumerate p ++ [(length p, e)].
Proof.
  unfold enumerate. rewrite length_app. simpl.
  rewrite Nat.add_1_r, seq_S. simpl.
  apply combine_snoc. now rewrite length_seq.
Qed.

Lemma fill_spec {A} (f : nat -> A) (n k : nat) (l : list A) :
  length l = n -> (k <= n)%nat ->
  let r := fold_left (fun en i => <[i := f i]> en) (seq 0 k) l in
  length r = n /\ forall i, (i < k)%nat -> r !! i = Some (f i).
Proof.
  intros Hl. induction k as [|k IH]; intros Hk.
  - simpl. split; [exact Hl | intros; lia].
  - destruct IH as [IHl IHv]; [lia|].
    rewrite seq_S, fold_left_app. cbn [fold_left Nat.add].
    split; [now rewrite length_insert|].
    intros i Hi. destruct (decide (i = k)) as [-> | Hne].
    + apply list_lookup_insert_eq. lia.
    + rewrite list_lookup_insert_ne by lia. apply IHv. lia.
Qed.

Lemma for_each_app {A S} (body : S -> A -> result S) l1 l2 s :
  for_each body (l1 ++ l2) s = s' ← for_each body l1 s; for_each body l2 s'.
Proof.
  revert s. induction l1 as [|a l1 IH]; intros s; [reflexivity|].
  cbn [for_each app]. destruct (body s a); cbn [mbind result_bind];
    [apply IH | reflexivity].
Qed.

Lemma last_nonempty_default {A} (b d d' : A) (l : list A) :
  List.last (b :: l) d = List.last (b :: l) d'.
Proof.
  revert b. induction l as [|c l IH]; intros b; [reflexivity|].
  change (List.last (c :: l) d = List.last (c :: l) d'). apply IH.
Qed.

Lemma last_cons_default {A} (a d : A) (l : list A) :
  List.last (a :: l) d = List.last l a.
Proof.
  destruct l as [|b l]; [reflexivity|].
  change (List.last (b :: l) d = List.last (b :: l) a).
  apply last_nonempty_default.
Qed.

Lemma Forall_firstn_skipn {A} (P : A -> Prop) (l : list A) n m :
  Forall P l -> Forall P (skipn n (firstn m l)).
Proof. intros H. apply Forall_drop, Forall_take, H. Qed.

Lemma trailing_window_eq N (l : list Q) i :
  trailing_window N l i = skipn (S i - N) (firstn (S i) l).
Proof.
  unfold trailing_window. rewrite skipn_firstn_comm.
  replace (i + 1)%nat with (S i) by lia. reflexivity.
Qed.

(** ** The running baseline *)

Section Baseline.

Variable N : nat.
Hypothesis HN : (1 <= N)%nat.

Lemma baseline_loop_inv (n : nat) (p : list Q) :
  (length p <= n)%nat ->
  let st := fold_left (baseline_step N) (enumerate p) (baseline_start n) in
  length (bl_out st) = n /\
  bl_dq st = skipn (length p - N) p /\
  (bl_cum st == np_sum (bl_dq st))%Q /\
  forall i, (i < length p)%nat ->
    exists v, bl_out st !! i = Some v /\
              (v == mean (skipn (S i - N) (firstn (S i) p)))%Q.
Proof.
  induction p as [|e p IH] using rev_ind; intros Hlen.
  - simpl. split; [apply length_replicate|].
    split; [reflexivity|]. split; [reflexivity|].
    intros i Hi. simpl in Hi. lia.
  - rewrite length_app in Hlen. simpl in Hlen.
    destruct IH as (Hout & Hdq & Hcum & Hval); [lia|].
    rewrite enumerate_snoc, fold_left_app.
    set (st := fold_left (baseline_step N) (enumerate p) (baseline_start n)) in *.
    cbn [fold_left]. unfold baseline_step.
    assert (Hdq1 : bl_dq st ++ [e] = skipn (length p - N) (p ++ [e])).
    { rewrite Hdq, skipn_app.
      replace (length p - N - length p)%nat with 0%nat by lia. reflexivity. }
    assert (Hl1 : length (bl_dq st ++ [e]) = S (length p - (length p - N))).
    { rewrite length_app, Hdq, length_skipn. simpl. lia. }
    assert (Hsum1 : (bl_cum st + e == np_sum (bl_dq st ++ [e]))%Q).
    { rewrite np_sum_app, Hcum. simpl. ring. }
    destruct (N <? length (bl_dq st ++ [e]))%nat eqn:HltN.
    + apply Nat.ltb_lt in HltN.
      destruct (bl_dq st ++ [e]) as [|h t] eqn:Hd1; [simpl in HltN; lia|].
      assert (Ht : t = skipn (length (p ++ [e]) - N) (p ++ [e])).
      { rewrite length_app. simpl.
        replace (length p + 1 - N)%nat with (1 + (length p - N))%nat by lia.
        rewrite <- skipn_skipn, <- Hdq1. reflexivity. }
      simpl. split; [rewrite length_insert; exact Hout|].
      split; [exact Ht|].
      split; [rewrite Hsum1; simpl; ring|].
      intros i Hi. rewrite length_app in Hi. simpl in Hi.
      destruct (decide (i = length p)) as [-> | Hne].
      * eexists. split.
           ++ apply list_lookup_insert_eq. lia.
           ++ rewrite firstn_all2 by (rewrite length_app; simpl; lia).
              unfold mean.
              replace (S (length p) - N)%nat
                with (length (p ++ [e]) - N)%nat
                by (rewrite length_app; simpl; lia).
              rewrite <- Ht, Hsum1. simpl.
              apply Qdiv_comp; [ring | reflexivity].
      * rewrite list_lookup_insert_ne by lia.
           destruct (Hval i) as (v & Hv & Hm); [lia|].
           exists v. split; [exact Hv|].
           rewrite firstn_app.
           replace (S i - length p)%nat with 0%nat by lia.
           simpl. rewrite app_nil_r. exact Hm.
    + apply Nat.ltb_ge in HltN.
      assert (Hd : bl_dq st ++ [e] = skipn (length (p ++ [e]) - N) (p ++ [e])).
      { rewrite Hdq1, length_app. simpl.
        rewrite Hl1 in HltN.
        replace (length p - N)%nat with 0%nat by lia.
        replace (length p + 1 - N)%nat with 0%nat by lia. reflexivity. }
      simpl. split; [rewrite length_insert; exact Hout|].
      split; [exact Hd|].
      split; [exact Hsum1|].
      intros i Hi. rewrite length_app in Hi. simpl in Hi.
      destruct (decide (i = length p)) as [-> | Hne].
      * eexists. split.
           ++ apply list_lookup_insert_eq. lia.
           ++ rewrite firstn_all2 by (rewrite length_app; simpl; lia).
              unfold mean.
              replace (S (length p) - N)%nat
                with (length (p ++ [e]) - N)%nat
                by (rewrite length_app; simpl; lia).
              rewrite <- Hd, Hsum1. reflexivity.
      * rewrite list_lookup_insert_ne by lia.
           destruct (Hval i) as (v & Hv & Hm); [lia|].
           exists v. split; [exact Hv|].
           rewrite firstn_app.
           replace (S i - length p)%nat with 0%nat by lia.
           simpl. rewrite app_nil_r. exact Hm.
Qed.

Lemma running_baseline_length (l : list Q) :
  length (running_baseline N l) = length l.
Proof.
  unfold running_baseline. rewrite length_map.
  apply (baseline_loop_inv (length l) l). lia.
Qed.

Lemma running_baseline_spec (l : list Q) i :
  (i < length l)%nat ->
  exists v, running_baseline N l !! i = Some v /\
            (v == mean (trailing_window N l i) + eps)%Q.
Proof.
  intros Hi.
  destruct (baseline_loop_inv (length l) l (le_n _)) as (_ & _ & _ & Hval).
  destruct (Hval i Hi) as (v & Hv & Hm).
  exists (v + eps)%Q. split.
  - unfold running_baseline. rewrite list_lookup_fmap. 
    rewrite Hv. reflexivity.
  - rewrite trailing_window_eq, Hm. reflexivity.
Qed.

Lemma running_baseline_pos (l : list Q) :
  Forall (fun e => 0 <= e)%Q l ->
  Forall (fun b => eps <= b)%Q (running_baseline N l).
Proof.
  intros Hl. apply Forall_lookup_2. intros i b Hi.
  assert (Hlt : (i < length l)%nat).
  { rewrite <- running_baseline_length. eapply lookup_lt_Some. exact Hi. }
  destruct (running_baseline_spec l i Hlt) as (v & Hv & Hm).
  rewrite Hv in Hi. injection Hi as <-. rewrite Hm.
  assert (0 <= mean (trailing_window N l i))%Q; [|lra].
  apply mean_nonneg. rewrite trailing_window_eq.
  now apply Forall_firstn_skipn.
Qed.

End Baseline.

Lemma buffer_ge_1 : (1 <= ENERGY_BASELINE_BUFFER)%nat.
Proof. unfold ENERGY_BASELINE_BUFFER. lia. Qed.



(** ** Windows and their energies *)

Lemma window_energy_nonneg samples spw i :
  (0 <= window_energy samples spw i)%Q.
Proof.
  unfold window_energy.
  apply Qle_shift_div_l.
  - assert (0 <= inject_Z (Z.of_nat (length (py_slice samples (Z.of_nat i * spw)
                 (Z.of_nat i * spw + spw)))))%Q.
    { change 0%Q with (inject_Z 0). rewrite <- Zle_Qle. lia. }
    unfold eps. lra.
  - rewrite Qmult_0_l. apply np_sum_nonneg.
    apply List.Forall_forall. intros q Hq. apply in_map_iff in Hq.
    destruct Hq as (s & <- & _). 
    destruct (Qlt_le_dec s 0); nra.
Qed.

Lemma compute_energy_spec samples spw (nw : Z) :
  let en := _compute_energy samples spw nw (replicate (Z.to_nat nw) 0%Q) in
  length en = Z.to_nat nw /\
  forall i, (i < Z.to_nat nw)%nat -> en !! i = Some (window_energy samples spw i).
Proof.
  apply fill_spec; [apply length_replicate | lia].
Qed.

Lemma compute_energy_nonneg samples spw nw :
  Forall (fun e => 0 <= e)%Q
    (_compute_energy samples spw nw (replicate (Z.to_nat nw) 0%Q)).
Proof.
  destruct (compute_energy_spec samples spw nw) as [Hl Hv].
  apply Forall_lookup_2. intros i e Hi.
  assert (Hlt : (i < Z.to_nat nw)%nat).
  { rewrite <- Hl. eapply lookup_lt_Some. exact Hi. }
  rewrite (Hv i Hlt) in Hi. injection Hi as <-.
  apply window_energy_nonneg.
Qed.

Lemma py_slice_window (l : list Q) (W : Z) (i : nat) :
  0 < W ->
  py_slice l (Z.of_nat i * W) (Z.of_nat i * W + W)
  = window_samples l (Z.to_nat W) i.
Proof.
  intros HW. unfold py_slice, slice_bound, window_samples.
  assert (H0 : 0 <= Z.of_nat i * W) by nia.
  destruct (Z.of_nat i * W <? 0) eqn:E1; [lia|].
  destruct (Z.of_nat i * W + W <? 0) eqn:E2; [lia|].
  assert (Hnat : Z.to_nat (Z.of_nat i * W) = (i * Z.to_nat W)%nat) by nia.
  destruct (Z_lt_le_dec (Z.of_nat i * W) (Z.of_nat (length l))) as [Hlt | Hge].
  - rewrite (Z.min_l (Z.of_nat i * W)) by lia. rewrite Hnat.
    destruct (Z_le_gt_dec (Z.of_nat i * W + W) (Z.of_nat (length l))) as [Hin | Hout].
    + rewrite Z.min_l by lia. f_equal. lia.
    + rewrite Z.min_r by lia.
      rewrite !firstn_all2; [reflexivity | |]; rewrite length_skipn; lia.
  - rewrite !Z.min_r by lia. rewrite Nat2Z.id.
    rewrite (skipn_all2 (n := (i * Z.to_nat W)%nat)) by nia.
    rewrite skipn_all. now rewrite !firstn_nil.
Qed.

Lemma reshape_rows_length n c l : length (reshape_rows n c l) = n.
Proof.
  revert l. induction n as [|n IH]; intros l; simpl; [reflexivity|].
  now rewrite IH.
Qed.

Lemma mono_samples_Ok audio :
  (1 < channels audio ->
   Z.of_nat (length (array_of_samples audio)) mod channels audio = 0) ->
  exists s1, mono_samples audio = Ok s1 /\
             length s1 = Z.to_nat (frame_count audio).
Proof.
  intros Hdiv. unfold mono_samples, frame_count.
  destruct (channels audio >? 1) eqn:Hc.
  - unfold mono_mix. rewrite length_map, Hdiv by lia. simpl.
    eexists. split; [reflexivity|].
    now rewrite length_map, reshape_rows_length.
  - eexists. split; [reflexivity|]. rewrite length_map. lia.
Qed.

Lemma frame_count_pos audio :
  array_of_samples audio <> [] ->
  (1 < channels audio ->
   Z.of_nat (length (array_of_samples audio)) mod channels audio = 0) ->
  0 < frame_count audio.
Proof.
  intros Hne Hdiv. unfold frame_count.
  assert (Hlen : 0 < Z.of_nat (length (array_of_samples audio))).
  { destruct (array_of_samples audio); [contradiction | cbn [length]; lia]. }
  destruct (channels audio >? 1) eqn:Hc; [|exact Hlen].
  assert (Hc' : 1 < channels audio) by (zbool; lia).
  specialize (Hdiv Hc').
  apply Z.div_str_pos. split; [lia|].
  apply Z.mod_divide in Hdiv; [|lia].
  apply Z.divide_pos_le in Hdiv; lia.
Qed.

(** ** The constructor *)

Lemma AudioAnalyzer_init_inv audio window_ms a :
  AudioAnalyzer_init audio window_ms = Ok a ->
  exists samples1 m,
    mono_samples audio = Ok samples1 /\
    np_max (map Qabs samples1) = Ok m /\
    spw_of audio window_ms <> 0 /\
    sample_rate a = frame_rate audio /\
    samples a = map (fun s => s / (if Qeq_bool m 0 then 1 else m))%Q samples1 /\
    ms_per_window a = window_ms /\
    samples_per_window a = spw_of audio window_ms /\
    num_windows a =
      Z.max 1 (py_ceil (inject_Z (Z.of_nat (length (samples a)))
                        / inject_Z (samples_per_window a))) /\
    energy a = _compute_energy (samples a) (samples_per_window a)
                 (num_windows a) (replicate (Z.to_nat (num_windows a)) 0%Q) /\
    baseline a = _compute_running_baseline (energy a).
Proof.
  unfold AudioAnalyzer_init.
  destruct (mono_samples audio) as [samples1|] eqn:Hmono; [|discriminate].
  cbn [mbind result_bind].
  destruct (np_max (map Qabs samples1)) as [m|] eqn:Hmax; [|discriminate].
  cbn [mbind result_bind].
  destruct (py_div _ _) as [q|] eqn:Hdiv; [|discriminate].
  cbn [mbind result_bind].
  apply py_div_Ok in Hdiv. destruct Hdiv as [Hnz ->].
  intros [= <-]. exists samples1, m. cbn.
  split; [first [reflexivity | assumption]|].
  split; [first [reflexivity | assumption]|].
  split; [now apply inject_Z_nonzero|].
  repeat (split; [reflexivity|]). reflexivity.
Qed.

Lemma AudioAnalyzer_init_total audio window_ms samples1 :
  mono_samples audio = Ok samples1 -> samples1 <> [] ->
  spw_of audio window_ms <> 0 ->
  exists a, AudioAnalyzer_init audio window_ms = Ok a.
Proof.
  intros Hmono Hne Hspw.
  unfold AudioAnalyzer_init. rewrite Hmono. cbn [mbind result_bind].
  destruct samples1 as [|s samples1]; [contradiction|].
  cbn [map np_max mbind result_bind].
  rewrite py_div_nonzero by (apply (proj1 (inject_Z_nonzero _)), Hspw).
  cbn [mbind result_bind]. eexists. reflexivity.
Qed.

Lemma AudioAnalyzer_init_ok audio window_ms a :
  AudioAnalyzer_init audio window_ms = Ok a -> analyzer_ok a.
Proof.
  intros H. apply AudioAnalyzer_init_inv in H.
  destruct H as (s1 & m & _ & _ & Hspw & _ & _ & Hms & Hspwa & Hnw & Hen & Hbl).
  assert (Hms0 : ms_per_window a <> 0).
  { rewrite Hms. intros ->. apply Hspw. apply spw_of_zero. }
  assert (Hel : length (energy a) = Z.to_nat (num_windows a)).
  { rewrite Hen. apply compute_energy_spec. }
  assert (He : Forall (fun e => 0 <= e)%Q (energy a)).
  { rewrite Hen. apply compute_energy_nonneg. }
  split.
  - rewrite Hnw. lia.
  - exact Hms0.
  - exact Hel.
  - rewrite Hbl. unfold _compute_running_baseline.
    rewrite running_baseline_length by apply buffer_ge_1. exact Hel.
  - exact He.
  - rewrite Hbl. apply running_baseline_pos; [apply buffer_ge_1 | exact He].
Qed.

(** C5.  On an empty sample buffer the constructor raises [ValueError]:
    [np.max] has nothing to reduce.  The fallback of the later lines, one
    window of zero energy, is what the second part computes; the
    constructor never gets there. *)
Theorem empty_buffer_raises (fr ch window_ms : Z) :
  AudioAnalyzer_init
    {| frame_rate := fr; channels := ch; array_of_samples := [] |} window_ms
  = Raise ValueError
  /\ (forall spw, spw <> 0 ->
        Z.max 1 (py_ceil (inject_Z (Z.of_nat (length (@nil Q))) / inject_Z spw)) = 1
        /\ exists e, _compute_energy [] spw 1 (replicate (Z.to_nat 1) 0%Q) = [e]
                     /\ (e == 0)%Q).
Proof.
  split.
  - unfold AudioAnalyzer_init, mono_samples. cbn [channels array_of_samples map].
    destruct (ch >? 1).
    + unfold mono_mix. cbn [length Z.of_nat]. rewrite Zmod_0_l, Zdiv_0_l.
      reflexivity.
    + reflexivity.
  - intros spw Hspw. split.
    + assert (E : (inject_Z (Z.of_nat (length (@nil Q))) / inject_Z spw == 0)%Q).
      { simpl. unfold Qdiv. ring. }
      unfold py_ceil. rewrite E. reflexivity.
    + eexists. split; [reflexivity|].
      unfold window_energy, py_slice. rewrite firstn_nil.
      cbn [map length]. unfold Qdiv, np_sum. cbn [fold_right].
      apply Qmult_0_l.
Qed.

(** ** From a time to a window *)

Lemma get_window_index_Ok a ms :
  ms_per_window a <> 0 ->
  get_window_index_for_ms a ms =
    Ok (clamp (py_int (inject_Z ms / inject_Z (ms_per_window a)))
              0 (num_windows a - 1)).
Proof.
  intros H. unfold get_window_index_for_ms.
  rewrite py_div_nonzero by (apply (proj1 (inject_Z_nonzero _)), H).
  reflexivity.
Qed.

Lemma negative_window_single audio window_ms a :
  AudioAnalyzer_init audio window_ms = Ok a ->
  0 < frame_rate audio -> window_ms < 0 -> num_windows a = 1.
Proof.
  intros H Hfr Hw. apply AudioAnalyzer_init_inv in H.
  destruct H as (s1 & m & _ & _ & Hspw & _ & _ & _ & Hspwa & Hnw & _).
  assert (Hneg : spw_of audio window_ms < 0).
  { assert (spw_of audio window_ms <= 0); [|lia].
    apply spw_of_nonpos; lia. }
  rewrite Hnw, Hspwa. unfold py_ceil.
  assert (Qceiling (inject_Z (Z.of_nat (length (samples a)))
                    / inject_Z (spw_of audio window_ms)) <= 0); [|lia].
  change 0 with (Qceiling 0). apply Qceiling_resp_le.
  apply Qdiv_nonneg_neg.
  - change 0%Q with (inject_Z 0). rewrite <- Zle_Qle. lia.
  - change 0%Q with (inject_Z 0). now rewrite <- Zlt_Qlt.
Qed.

(** C9.  For an analyzer built from a decoded audio, whose frame rate is
    positive, [get_window_index_for_ms] returns an index for every
    millisecond input, negative or past the end of the track; the index
    lies in [[0, num_windows - 1]], and a larger input never gets a smaller
    index. *)
Theorem window_index_monotone_clamped audio window_ms a :
  AudioAnalyzer_init audio window_ms = Ok a ->
  0 < frame_rate audio ->
  (forall ms, exists i,
      get_window_index_for_ms a ms = Ok i /\ 0 <= i <= num_windows a - 1) /\
  (forall ms1 ms2, ms1 <= ms2 -> exists i1 i2,
      get_window_index_for_ms a ms1 = Ok i1 /\
      get_window_index_for_ms a ms2 = Ok i2 /\ i1 <= i2).
Proof.
  intros Hinit Hpos.
  pose proof (AudioAnalyzer_init_ok _ _ _ Hinit) as [Hnw Hms _ _ _ _].
  split.
  - intros ms. eexists. split; [now apply get_window_index_Ok|].
    unfold clamp. lia.
  - intros ms1 ms2 Hle. do 2 eexists.
    split; [now apply get_window_index_Ok|].
    split; [now apply get_window_index_Ok|].
    destruct (Z_lt_le_dec 0 (ms_per_window a)) as [Hw | Hw].
    + assert (py_int (inject_Z ms1 / inject_Z (ms_per_window a))
              <= py_int (inject_Z ms2 / inject_Z (ms_per_window a))).
      { apply py_int_mono, Qdiv_le_mono.
        - change 0%Q with (inject_Z 0). now rewrite <- Zlt_Qlt.
        - now rewrite <- Zle_Qle. }
      unfold clamp. lia.
    + assert (Hwms : ms_per_window a = window_ms).
      { apply AudioAnalyzer_init_inv in Hinit.
        destruct Hinit as (? & ? & _ & _ & _ & _ & _ & E & _). exact E. }
      assert (num_windows a = 1).
      { apply (negative_window_single audio window_ms); [exact Hinit | lia | lia]. }
      unfold clamp. lia.
Qed.

(** The window indices of [wall_audio]. *)
Lemma window_index_monotone_clamped_witness :
  AudioAnalyzer_init wall_audio WINDOW_MS = Ok wall_analyzer
  /\ 0 < frame_rate wall_audio
  /\ (forall ms, exists i,
        get_window_index_for_ms wall_analyzer ms = Ok i
        /\ 0 <= i <= num_windows wall_analyzer - 1).
Proof.
  assert (H1 : AudioAnalyzer_init wall_audio WINDOW_MS = Ok wall_analyzer)
    by (vm_compute; reflexivity).
  assert (H2 : 0 < frame_rate wall_audio) by (vm_compute; reflexivity).
  split; [exact H1|]. split; [exact H2|].
  exact (proj1 (window_index_monotone_clamped _ _ _ H1 H2)).
Defined.

(** With exact arithmetic in place of float32, every entry of [baseline]
    is at least [eps], so strictly positive, and the ratio
    [energy[idx] / baseline[idx]] that [spawn_logic] computes first is
    defined at every time: this is what adding [1e-9] is for. *)
Lemma exact_baseline_positive audio window_ms a :
  AudioAnalyzer_init audio window_ms = Ok a ->
  Forall (fun b => eps <= b /\ 0 < b)%Q (baseline a) /\
  length (baseline a) = Z.to_nat (num_windows a) /\
  forall current_ms, exists ratio, energy_ratio a current_ms = Ok ratio.
Proof.
  intros Hinit.
  pose proof (AudioAnalyzer_init_ok _ _ _ Hinit) as [Hnw Hms Hel Hbl He Hb].
  split; [|split; [exact Hbl|]].
  - eapply Forall_impl; [exact Hb|]. intros b Hbe. cbv beta in Hbe.
    unfold eps in *. split; lra.
  - intros ms. unfold energy_ratio.
    rewrite get_window_index_Ok by exact Hms. cbn [mbind result_bind].
    set (idx := clamp _ 0 _).
    assert (Hidx : 0 <= idx <= num_windows a - 1) by (unfold idx, clamp; lia).
    assert (Hget : forall l : list Q, length l = Z.to_nat (num_windows a) ->
              exists v, py_getitem l idx = Ok v /\ l !! Z.to_nat idx = Some v).
    { intros l Hl. unfold py_getitem.
      destruct (idx <? 0) eqn:E1; [lia|].
      destruct ((0 <=? idx) && (idx <? Z.of_nat (length l))) eqn:E2.
      - destruct (l !! Z.to_nat idx) as [v|] eqn:E3; [eauto|].
        apply lookup_ge_None in E3. lia.
      - apply andb_false_iff in E2. destruct E2; lia. }
    destruct (Hget _ Hel) as (e & -> & _).
    destruct (Hget _ Hbl) as (b & -> & Hlb).
    cbn [mbind result_bind].
    rewrite py_div_nonzero; [eauto|].
    pose proof (Forall_lookup_1 _ _ _ _ Hb Hlb) as Hbe. cbv beta in Hbe.
    unfold eps in Hbe. lra.
Qed.

(** C10 fails in float32.  In [click_audio] window 0 is at full scale, its
    energy the float32 1; window 1 holds a click of energy [5e-8], fifty
    times the added [1e-9]; the rest is silence.  The running sum [cum]
    absorbs the click, [1 + 5e-8] being the float32 1, and is [-5e-8] once
    both windows have left the buffer.  So [baseline[50]] is the float32
    [1e-9], which is below [1e-9], and [baseline[51]] is
    [-5e-8 / 50 + 1e-9], the float32 0: at 5100 ms the ratio of
    [spawn_logic] raises [ZeroDivisionError].  The sums of squares of this
    track are exact in whatever order [np.sum] adds them. *)
Theorem float32_baseline_zero_division :
  (a ← click_analysis;
   Ok (num_windows a, firstn 3 (energy a),
       baseline a !! 50%nat, baseline a !! 51%nat))
  = Ok (52, [1%Q; (3518437 # 70368744177664)%Q; 0%Q],
        Some (9007199 # 9007199254740992)%Q, Some 0%Q)
  /\ (9007199 # 9007199254740992 < eps)%Q
  /\ (a ← click_analysis; get_window_index_for_ms a 5100) = Ok 51
  /\ (a ← click_analysis; energy_ratio a 5100) = Raise ZeroDivisionError
  /\ forall rng,
       (a ← click_analysis; spawn_logic (Game_init a) 5100 rng)
       = Raise ZeroDivisionError.
Proof.
  split_and!; try intros rng; vm_compute; reflexivity.
Qed.

(** ** Obstacles that have passed *)

Lemma mark_passed_loop_spec player_lane obs count :
  mark_passed_loop player_lane obs count
  = (count + Z.of_nat (length (List.filter (counted player_lane) obs)),
     map mark obs).
Proof.
  revert count. induction obs as [|o obs IH]; intros count.
  - simpl. f_equal. lia.
  - cbn [mark_passed_loop List.filter map]. unfold counted at 1, mark at 1.
    destruct (just_passed o); cbn [andb].
    + rewrite IH. destruct (lane_dist o player_lane <=? 1);
        cbn [length]; f_equal; lia.
    + rewrite IH. reflexivity.
Qed.

Lemma just_passed_mark o : just_passed (mark o) = false.
Proof.
  unfold mark. destruct (just_passed o) eqn:E; [reflexivity | exact E].
Qed.

Lemma mark_idem o : mark (mark o) = mark o.
Proof. unfold mark at 1. now rewrite just_passed_mark. Qed.

(** C8.  One call of [mark_passed_and_count] marks exactly the obstacles
    whose trailing edge has crossed the player and that were not passed
    yet, counts those of them whose lane distance to the player is at most
    1, and leaves nothing to mark: a second call returns 0 and changes
    nothing.  An obstacle spawned on lanes 4 and 5 and moved by frames of
    17 ms is not counted before it has crossed (frame 321), is counted once
    for player lane 5 when it has (frame 322), gives 0 afterwards, and
    gives 0 for player lane 8, at distance 3. *)
Theorem mark_passed_once (om : ObstacleManager) (player_lane : Z) :
  let r := mark_passed_and_count om player_lane in
  obstacles (snd r) = map mark (obstacles om)
  /\ fst r = Z.of_nat (length (List.filter (counted player_lane) (obstacles om)))
  /\ (forall o, o ∈ obstacles (snd r) -> just_passed o = false)
  /\ (forall lane', mark_passed_and_count (snd r) lane' = (0, snd r))
  /\ (fst (mark_passed_and_count (crossing 321) 5) = 0
      /\ fst (mark_passed_and_count (crossing 322) 5) = 1
      /\ fst (mark_passed_and_count
                (snd (mark_passed_and_count (crossing 322) 5)) 5) = 0
      /\ fst (mark_passed_and_count
                (advance 1 (17 # 1000)
                   (snd (mark_passed_and_count (crossing 322) 5))) 5) = 0
      /\ fst (mark_passed_and_count (crossing 322) 8) = 0
      /\ map (fun o => (lane_dist o 5, lane_dist o 8))
             (obstacles (crossing 322)) = [(0, 3)]).
Proof.
  unfold mark_passed_and_count.
  rewrite mark_passed_loop_spec. cbn [fst snd obstacles].
  split; [reflexivity|]. split; [lia|]. split; [|split].
  - intros o Ho. apply list_elem_of_fmap in Ho. destruct Ho as (o' & -> & _).
    apply just_passed_mark.
  - intros lane'. rewrite mark_passed_loop_spec.
    cbn [last_spawn_ms last_heavy_ms].
    assert (E : forall l, List.filter (counted lane') (map mark l) = []).
    { induction l as [|o l IH]; [reflexivity|].
      cbn [map List.filter]. unfold counted at 1.
      now rewrite just_passed_mark. }
    rewrite E. cbn [length Z.of_nat Z.add].
    rewrite map_map. f_equal. f_equal.
    apply map_ext. intros o. apply mark_idem.
  - vm_compute. repeat split; reflexivity.
Qed.

(** ** The occupancy mask *)

Lemma mask_of_ext P Q blocks :
  (forall l, 0 <= l < LANES -> P l = Q l) -> mask_of P blocks -> mask_of Q blocks.
Proof.
  intros E [Hl Hv]. split; [exact Hl|].
  intros l Hr. rewrite <- E by exact Hr. now apply Hv.
Qed.

Lemma mask_of_zeros : mask_of (fun _ => false) (replicate (Z.to_nat LANES) 0).
Proof.
  split; [apply length_replicate|].
  intros l Hl. apply lookup_replicate_2. unfold LANES in *. lia.
Qed.

Lemma setitem_mask P blocks l :
  mask_of P blocks -> 0 <= l < LANES ->
  exists b', py_setitem blocks l 1 = Ok b' /\
             mask_of (fun k => (k =? l) || P k) b'.
Proof.
  intros [Hl Hv] Hr. unfold py_setitem.
  assert (Hlen : Z.of_nat (length blocks) = LANES)
    by (rewrite Hl; unfold LANES; lia).
  destruct (l <? 0) eqn:E; [lia|]. rewrite Hlen.
  destruct ((0 <=? l) && (l <? LANES)) eqn:E2;
    [|apply andb_false_iff in E2; destruct E2; lia].
  eexists. split; [reflexivity|]. split.
  - now rewrite length_insert.
  - intros k Hk. destruct (Z.eqb_spec k l) as [-> | Hne].
    + cbn [orb]. apply list_lookup_insert_eq. lia.
    + cbn [orb]. rewrite list_lookup_insert_ne by lia. now apply Hv.
Qed.

Lemma range_from_S a n : range_from a (S n) = range_from a n ++ [a + Z.of_nat n].
Proof. unfold range_from. now rewrite seq_S, map_app. Qed.

Lemma py_range_from a b : py_range a b = range_from a (Z.to_nat (b - a)).
Proof. reflexivity. Qed.

Lemma mark_guarded_mask P blocks a n :
  mask_of P blocks ->
  exists b',
    for_each (fun b l => if (0 <=? l) && (l <? LANES)
                         then py_setitem b l 1 else Ok b)
             (range_from a n) blocks = Ok b' /\
    mask_of (fun k => in_range a (a + Z.of_nat n) k || P k) b'.
Proof.
  intros HP. induction n as [|n (b1 & Hrun & Hmask)].
  - exists blocks. split; [reflexivity|].
    eapply mask_of_ext; [|exact HP]. intros l _.
    unfold in_range. change (Z.of_nat 0) with 0.
    destruct (a <=? l) eqn:E1, (l <? a + 0) eqn:E2;
      try reflexivity; exfalso; zbool; lia.
  - rewrite range_from_S, for_each_app, Hrun. cbn [mbind result_bind for_each].
    destruct ((0 <=? a + Z.of_nat n) && (a + Z.of_nat n <? LANES)) eqn:E.
    + apply andb_true_iff in E. destruct E as [E1 E2].
      destruct (setitem_mask _ _ (a + Z.of_nat n) Hmask) as (b2 & Hset & Hm2);
        [lia|].
      rewrite Hset. cbn [mbind result_bind]. exists b2. split; [reflexivity|].
      eapply mask_of_ext; [|exact Hm2]. intros l _. cbv beta. unfold in_range.
      destruct (l =? a + Z.of_nat n) eqn:F1, (a <=? l) eqn:F2,
        (l <? a + Z.of_nat n) eqn:F3, (l <? a + Z.of_nat (S n)) eqn:F4;
        try reflexivity; exfalso; zbool; lia.
    + cbn [mbind result_bind]. exists b1. split; [reflexivity|].
      eapply mask_of_ext; [|exact Hmask]. intros l Hl. cbv beta. unfold in_range.
      apply andb_false_iff in E.
      destruct (a <=? l) eqn:F2,
        (l <? a + Z.of_nat n) eqn:F3, (l <? a + Z.of_nat (S n)) eqn:F4;
        try reflexivity; exfalso; destruct E; zbool; lia.
Qed.

Lemma mark_plain_mask P blocks a n :
  mask_of P blocks -> 0 <= a -> a + Z.of_nat n <= LANES ->
  exists b',
    for_each (fun b l => py_setitem b l 1) (range_from a n) blocks = Ok b' /\
    mask_of (fun k => in_range a (a + Z.of_nat n) k || P k) b'.
Proof.
  intros HP Ha. induction n as [|n IH]; intros Hb.
  - exists blocks. split; [reflexivity|].
    eapply mask_of_ext; [|exact HP]. intros l _.
    unfold in_range. change (Z.of_nat 0) with 0.
    destruct (a <=? l) eqn:E1, (l <? a + 0) eqn:E2;
      try reflexivity; exfalso; zbool; lia.
  - destruct IH as (b1 & Hrun & Hmask); [lia|].
    rewrite range_from_S, for_each_app, Hrun. cbn [mbind result_bind for_each].
    destruct (setitem_mask _ _ (a + Z.of_nat n) Hmask) as (b2 & Hset & Hm2);
      [lia|].
    rewrite Hset. cbn [mbind result_bind]. exists b2. split; [reflexivity|].
    eapply mask_of_ext; [|exact Hm2]. intros l _. cbv beta. unfold in_range.
    destruct (l =? a + Z.of_nat n) eqn:F1, (a <=? l) eqn:F2,
      (l <? a + Z.of_nat n) eqn:F3, (l <? a + Z.of_nat (S n)) eqn:F4;
      try reflexivity; exfalso; zbool; lia.
Qed.

Lemma in_range_to_nat a b l :
  in_range a (a + Z.of_nat (Z.to_nat (b - a))) l = in_range a b l.
Proof.
  unfold in_range.
  destruct (a <=? l) eqn:E1, (l <? b) eqn:E2,
    (l <? a + Z.of_nat (Z.to_nat (b - a))) eqn:E3; try reflexivity; exfalso; zbool; lia.
Qed.

Lemma mark_obstacle_mask P blocks o :
  mask_of P blocks ->
  exists b', mark_obstacle blocks o = Ok b' /\
             mask_of (fun k => (in_slice o && covers o k) || P k) b'.
Proof.
  intros HP. unfold mark_obstacle. destruct (in_slice o).
  - rewrite py_range_from.
    destruct (mark_guarded_mask P blocks (lane_start o)
                (Z.to_nat (lane_start o + lane_count o - lane_start o)) HP)
      as (b' & Hrun & Hm).
    exists b'. split; [exact Hrun|].
    eapply mask_of_ext; [|exact Hm]. intros l _. cbv beta.
    unfold covers. cbn [andb]. now rewrite in_range_to_nat.
  - exists blocks. split; [reflexivity|].
    eapply mask_of_ext; [|exact HP]. reflexivity.
Qed.

Lemma mark_obstacles_mask obs : forall P blocks,
  mask_of P blocks ->
  exists b', for_each mark_obstacle obs blocks = Ok b' /\
             mask_of (fun k => existsb (fun o => in_slice o && covers o k) obs
                               || P k) b'.
Proof.
  induction obs as [|o obs IH]; intros P blocks HP.
  - exists blocks. split; [reflexivity|]. exact HP.
  - destruct (mark_obstacle_mask P blocks o HP) as (b1 & Hrun & Hm).
    destruct (IH _ _ Hm) as (b2 & Hrun2 & Hm2).
    exists b2. cbn [for_each]. rewrite Hrun. cbn [mbind result_bind].
    split; [exact Hrun2|].
    eapply mask_of_ext; [|exact Hm2]. intros l _. cbn [existsb].
    destruct (in_slice o && covers o l), (existsb _ obs), (P l); reflexivity.
Qed.

Lemma trial_blocks_mask obs start lane_count :
  0 <= lane_count -> 0 <= start -> start + lane_count <= LANES ->
  exists blocks, trial_blocks obs start lane_count = Ok blocks /\
                 mask_of (blocked obs start lane_count) blocks.
Proof.
  intros Hlc Hs He. unfold trial_blocks.
  destruct (mark_obstacles_mask obs _ _ mask_of_zeros) as (b1 & Hrun & Hm).
  rewrite Hrun. cbn [mbind result_bind]. rewrite py_range_from.
  destruct (mark_plain_mask _ b1 start
              (Z.to_nat (start + lane_count - start)) Hm Hs) as (b2 & Hrun2 & Hm2);
    [lia|].
  exists b2. split; [exact Hrun2|].
  eapply mask_of_ext; [|exact Hm2]. intros l _. cbv beta. unfold blocked.
  rewrite in_range_to_nat. now rewrite orb_false_r.
Qed.

(** A mask holds a [0] exactly when some lane is not blocked. *)
Lemma mask_has_zero P blocks :
  mask_of P blocks ->
  bool_decide (0 ∈ blocks) = negb (forallb P (py_range 0 LANES)).
Proof.
  intros [Hl Hv].
  destruct (forallb P (py_range 0 LANES)) eqn:E; cbn [negb].
  - apply bool_decide_eq_false. intros Hin.
    apply list_elem_of_lookup in Hin. destruct Hin as [i Hi].
    assert (Hlt : (i < Z.to_nat LANES)%nat)
      by (rewrite <- Hl; eapply lookup_lt_Some; exact Hi).
    assert (Hr : 0 <= Z.of_nat i < LANES) by lia.
    pose proof (Hv _ Hr) as Hv'. rewrite Nat2Z.id, Hi in Hv'.
    rewrite forallb_forall in E.
    rewrite (E (Z.of_nat i)) in Hv'; [discriminate|].
    unfold py_range. apply in_map_iff. exists i. split; [lia|].
    apply in_seq. lia.
  - apply bool_decide_eq_true.
    assert (Hex : exists l, 0 <= l < LANES /\ P l = false).
    { destruct (forallb P (py_range 0 LANES)) eqn:F; [discriminate|].
      clear E. apply not_true_iff_false in F.
      rewrite forallb_forall in F.
      destruct (existsb (fun l => negb (P l)) (py_range 0 LANES)) eqn:G.
      - apply existsb_exists in G. destruct G as (l & Hin & Hp).
        exists l. split; [|now apply negb_true_iff].
        unfold py_range in Hin. apply in_map_iff in Hin.
        destruct Hin as (k & <- & Hk). apply in_seq in Hk. lia.
      - exfalso. apply F. intros l Hin.
        destruct (P l) eqn:Hp; [reflexivity|].
        apply not_true_iff_false in G. exfalso. apply G.
        apply existsb_exists. exists l. split; [exact Hin|]. now rewrite Hp. }
    destruct Hex as (l & Hr & Hp).
    apply list_elem_of_lookup. exists (Z.to_nat l).
    rewrite (Hv l Hr), Hp. reflexivity.
Qed.

Lemma trial_blocks_zero obs start lc :
  0 <= lc -> 0 <= start -> start + lc <= LANES ->
  exists blocks, trial_blocks obs start lc = Ok blocks /\
    (0 ∈ blocks <-> all_blocked obs start lc = false).
Proof.
  intros Hlc Hs He.
  destruct (trial_blocks_mask obs start lc Hlc Hs He) as (blocks & Hrun & Hm).
  exists blocks. split; [exact Hrun|].
  pose proof (mask_has_zero _ _ Hm) as Hz.
  fold (all_blocked obs start lc) in Hz.
  destruct (all_blocked obs start lc); cbn [negb] in Hz.
  - apply bool_decide_eq_false in Hz. split; [contradiction | discriminate].
  - apply bool_decide_eq_true in Hz. split; [reflexivity | now intros _].
Qed.

(** ** The placement search *)

Lemma np_randint_Ok lc raw :
  lc <= LANES ->
  np_randint 0 (LANES - lc + 1) raw = Ok (Z.of_nat raw mod (LANES - lc + 1))
  /\ 0 <= Z.of_nat raw mod (LANES - lc + 1) <= LANES - lc.
Proof.
  intros H. unfold np_randint.
  destruct (LANES - lc + 1 <=? 0) eqn:E; [zbool; lia|].
  rewrite Z.add_0_l, Z.sub_0_r. split; [reflexivity|].
  pose proof (Z.mod_pos_bound (Z.of_nat raw) (LANES - lc + 1)). lia.
Qed.

Lemma placement_trials_spec obs lc rng n : forall k,
  0 <= lc <= LANES ->
  exists r, placement_trials n k obs lc rng = Ok r /\
    match r with
    | Some start =>
        exists j, (k <= j < k + n)%nat /\ start = draw_start rng lc j /\
          0 <= start <= LANES - lc /\
          all_blocked obs start lc = false /\
          forall j', (k <= j' < j)%nat ->
            all_blocked obs (draw_start rng lc j') lc = true
    | None =>
        forall j, (k <= j < k + n)%nat ->
          all_blocked obs (draw_start rng lc j) lc = true
    end.
Proof.
  induction n as [|n IH]; intros k Hlc.
  - exists None. split; [reflexivity|]. intros j Hj. lia.
  - cbn [placement_trials].
    destruct (np_randint_Ok lc (randint rng k)) as [Hr Hb]; [lia|].
    rewrite Hr. cbn [mbind result_bind]. fold (draw_start rng lc k).
    fold (draw_start rng lc k) in Hb.
    destruct (trial_blocks_mask obs (draw_start rng lc k) lc) as (blocks & Hrun & Hm);
      [lia | lia | lia |].
    rewrite Hrun. cbn [mbind result_bind].
    rewrite (mask_has_zero _ _ Hm). fold (all_blocked obs (draw_start rng lc k) lc).
    destruct (all_blocked obs (draw_start rng lc k) lc) eqn:Hall; cbn [negb].
    + destruct (IH (S k) Hlc) as (r & Hrun' & Hspec).
      exists r. split; [exact Hrun'|].
      destruct r as [start|].
      * destruct Hspec as (j & Hj & Hs & Hrange & Hfree & Hbefore).
        exists j. split; [lia|]. split; [exact Hs|]. split; [exact Hrange|].
        split; [exact Hfree|].
        intros j' Hj'. destruct (decide (j' = k)) as [-> | Hne];
          [exact Hall | apply Hbefore; lia].
      * intros j Hj. destruct (decide (j = k)) as [-> | Hne];
          [exact Hall | apply Hspec; lia].
    + exists (Some (draw_start rng lc k)). split; [reflexivity|].
      exists k. split; [lia|]. split; [reflexivity|]. split; [exact Hb|].
      split; [exact Hall|]. intros j' Hj'. lia.
Qed.

Lemma placement_search_total obs lc rng :
  1 <= lc <= 6 -> exists r, placement_search obs lc rng = Ok r.
Proof.
  intros H. destruct (placement_trials_spec obs lc rng 8 0) as (r & Hr & _).
  - unfold LANES. lia.
  - exists r. exact Hr.
Qed.

Lemma in_py_range l a b : In l (py_range a b) <-> a <= l < b.
Proof.
  unfold py_range. rewrite in_map_iff. split.
  - intros (k & <- & Hk). apply in_seq in Hk. lia.
  - intros H. exists (Z.to_nat (l - a)). split; [lia|]. apply in_seq. lia.
Qed.

Lemma in_range_true a b l : in_range a b l = true <-> a <= l < b.
Proof.
  unfold in_range. rewrite andb_true_iff, Z.leb_le, Z.ltb_lt. reflexivity.
Qed.

Lemma blocked_false obs start lc l :
  blocked obs start lc l = false <->
  ~ (start <= l < start + lc) /\
  forall o, In o obs -> in_slice o = true ->
            ~ (lane_start o <= l < lane_start o + lane_count o).
Proof.
  unfold blocked. rewrite orb_false_iff. rewrite <- !not_true_iff_false.
  rewrite in_range_true, existsb_exists. split.
  - intros [H1 H2]. split; [exact H1|]. intros o Ho Hs Hc. apply H2.
    exists o. split; [exact Ho|]. rewrite Hs. cbn [andb].
    unfold covers. now apply in_range_true.
  - intros [H1 H2]. split; [exact H1|]. intros (o & Ho & Hc).
    apply andb_true_iff in Hc. destruct Hc as [Hs Hc].
    apply (H2 o Ho Hs). unfold covers in Hc. now apply in_range_true in Hc.
Qed.

Lemma all_blocked_false obs start lc :
  all_blocked obs start lc = false <->
  exists l, 0 <= l < LANES /\ blocked obs start lc l = false.
Proof.
  unfold all_blocked. split.
  - intros H.
    destruct (existsb (fun l => negb (blocked obs start lc l)) (py_range 0 LANES)) eqn:G.
    + apply existsb_exists in G. destruct G as (l & Hin & Hb).
      exists l. split; [now apply in_py_range | now apply negb_true_iff].
    + exfalso. apply not_true_iff_false in H. apply H.
      apply forallb_forall. intros l Hin.
      destruct (blocked obs start lc l) eqn:Hb; [reflexivity|].
      apply not_true_iff_false in G. exfalso. apply G.
      apply existsb_exists. exists l. split; [exact Hin|]. now rewrite Hb.
  - intros (l & Hl & Hb). apply not_true_iff_false. intros H.
    rewrite forallb_forall in H. rewrite H in Hb; [discriminate|].
    now apply in_py_range.
Qed.

Lemma all_blocked_true obs start lc :
  all_blocked obs start lc = true <->
  forall l, 0 <= l < LANES -> blocked obs start lc l = true.
Proof.
  unfold all_blocked. rewrite forallb_forall. split.
  - intros H l Hl. apply H. now apply in_py_range.
  - intros H l Hl. apply H. now apply in_py_range.
Qed.

Lemma all_blocked_open_lane obs start lc :
  all_blocked obs start lc = false <-> exists l, open_lane obs start lc l.
Proof.
  rewrite all_blocked_false. unfold open_lane. split.
  - intros (l & Hl & Hb). exists l. split; [exact Hl|]. now apply blocked_false.
  - intros (l & Hl & Hb). exists l. split; [exact Hl|]. now apply blocked_false.
Qed.

(** ** Tiers and lane counts *)

Lemma choose_lane_count_spec tier raw :
  exists lc, choose_lane_count tier raw = Ok lc /\
    match tier with
    | low => lc = 1 \/ lc = 2
    | medium => lc = 2 \/ lc = 3
    | high => lc = 4 \/ lc = 5 \/ lc = 6
    end.
Proof.
  destruct tier;
    unfold choose_lane_count, np_choice, LOW_SIZES, MEDIUM_SIZES, HIGH_SIZES;
    cbn [length].
  - pose proof (Nat.mod_upper_bound raw 3 ltac:(lia)) as Hb.
    destruct (raw mod 3)%nat as [|[|[|?]]]; cbn [nth]; eexists; (split; [reflexivity|]); lia.
  - pose proof (Nat.mod_upper_bound raw 2 ltac:(lia)) as Hb.
    destruct (raw mod 2)%nat as [|[|?]]; cbn [nth]; eexists; (split; [reflexivity|]); lia.
  - pose proof (Nat.mod_upper_bound raw 3 ltac:(lia)) as Hb.
    destruct (raw mod 3)%nat as [|[|[|?]]]; cbn [nth]; eexists; (split; [reflexivity|]); lia.
Qed.

Lemma choose_lane_count_range tier raw lc :
  choose_lane_count tier raw = Ok lc ->
  1 <= lc <= 6 /\ (tier <> high -> lc < 4) /\ (tier = high -> 4 <= lc).
Proof.
  intros H. destruct (choose_lane_count_spec tier raw) as (lc' & H' & Hs).
  rewrite H in H'. injection H' as <-.
  destruct tier; (split; [lia|]); (split; [intros; try congruence; lia|]);
    intros; try discriminate; lia.
Qed.

Lemma classify_tier_cases ratio c u :
  classify_tier ratio c u = None \/
  exists t c', classify_tier ratio c u = Some (Some t, c').
Proof.
  unfold classify_tier.
  destruct (Qgeb ratio HIGH_TH); [right; eauto|].
  destruct (Qgeb ratio MEDIUM_TH); [right; eauto|].
  destruct (Qgeb ratio LOW_TH); [right; eauto|].
  destruct (Qltb u (5 # 100)); [right; eauto | left; reflexivity].
Qed.

Lemma classify_tier_streak ratio c u :
  match classify_tier ratio c u with
  | None => True
  | Some (_, c') =>
      ((HIGH_TH <= ratio)%Q /\ c' = Z.min (c + 1) 4)
      \/ ((ratio < HIGH_TH)%Q /\ c' = 0)
  end.
Proof.
  unfold classify_tier.
  destruct (Qgeb ratio HIGH_TH) eqn:E1.
  - left. split; [now apply Qgeb_ge | reflexivity].
  - assert (ratio < HIGH_TH)%Q.
    { apply Qnot_le_lt. intros H. apply Qgeb_ge in H. congruence. }
    destruct (Qgeb ratio MEDIUM_TH); [right; split; easy|].
    destruct (Qgeb ratio LOW_TH); [right; split; easy|].
    destruct (Qltb u (5 # 100)); [right; split; easy | exact I].
Qed.

Lemma classify_tier_none ratio c u :
  (ratio < HIGH_TH)%Q -> (LOW_TH <= ratio \/ u < 5 # 100)%Q ->
  classify_tier ratio c u <> None.
Proof.
  intros _ Hcase. unfold classify_tier.
  destruct (Qgeb ratio HIGH_TH); [discriminate|].
  destruct (Qgeb ratio MEDIUM_TH); [discriminate|].
  destruct (Qgeb ratio LOW_TH) eqn:E3; [discriminate|].
  destruct (Qltb u (5 # 100)) eqn:E4; [discriminate|].
  exfalso. destruct Hcase as [H | H].
  - apply Qgeb_ge in H. congruence.
  - apply Qltb_lt in H. congruence.
Qed.

Lemma classify_tier_at_low ratio c u :
  (ratio == LOW_TH)%Q -> classify_tier ratio c u = Some (Some low, 0).
Proof.
  intros H. unfold classify_tier, Qgeb.
  assert (E1 : Qle_bool HIGH_TH ratio = false).
  { apply not_true_iff_false. intros E. apply Qle_bool_iff in E.
    rewrite H in E. unfold HIGH_TH, LOW_TH in E. lra. }
  assert (E2 : Qle_bool MEDIUM_TH ratio = false).
  { apply not_true_iff_false. intros E. apply Qle_bool_iff in E.
    rewrite H in E. unfold MEDIUM_TH, LOW_TH in E. lra. }
  assert (E3 : Qle_bool LOW_TH ratio = true).
  { apply Qle_bool_iff. rewrite H. lra. }
  now rewrite E1, E2, E3.
Qed.

Lemma heavy_cooldown_Some t0 ms lh :
  exists t, heavy_cooldown (Some t0) ms lh = Some t /\
            (ms - lh < HEAVY_COOLDOWN_MS -> t <> high) /\
            (t0 <> high -> t = t0).
Proof.
  unfold heavy_cooldown. destruct t0.
  - exists low. repeat split; congruence.
  - exists medium. repeat split; congruence.
  - destruct (ms - lh <? HEAVY_COOLDOWN_MS) eqn:E.
    + exists medium. repeat split; congruence.
    + exists high. split; [reflexivity|]. split; [|congruence].
      intros H. zbool. lia.
Qed.

(** ** The two blocks of [spawn_logic] *)

Lemma audio_driven_outcome g ms ratio rng :
  exists flow, audio_driven g ms ratio rng = Ok flow /\
               audio_outcome g ms ratio rng flow.
Proof.
  unfold audio_driven.
  destruct (ms - last_spawn_ms (ob_manager g) >=? MIN_SPAWN_INTERVAL_MS) eqn:Hgate.
  - assert (Hg : MIN_SPAWN_INTERVAL_MS <= ms - last_spawn_ms (ob_manager g))
      by (zbool; zbool; lia).
    destruct (classify_tier_cases ratio (recent_high_count g) (rand rng))
      as [Hc | (t0 & c & Hc)]; rewrite Hc.
    + eexists. split; [reflexivity|]. now apply AO_quiet.
    + cbn [set_recent_high_count ob_manager].
      destruct (heavy_cooldown_Some t0 ms (last_heavy_ms (ob_manager g)))
        as (t & Ht & _).
      rewrite Ht.
      destruct (choose_lane_count_spec t (choice rng)) as (lc & Hlc & _).
      pose proof (choose_lane_count_range _ _ _ Hlc) as [Hr _].
      rewrite Hlc. cbn [mbind result_bind].
      destruct (placement_search_total (obstacles (ob_manager g)) lc rng Hr)
        as (r & Hs).
      rewrite Hs. cbn [mbind result_bind].
      destruct r as [start|]; eexists; (split; [reflexivity|]).
      * eapply AO_placed; eassumption.
      * eapply AO_skipped; eassumption.
  - eexists. split; [reflexivity|]. apply AO_gate_closed. zbool. zbool. lia.
Qed.

(** [spawn_logic] unfolded along its two blocks. *)
Lemma spawn_logic_inv g ms rng g' :
  spawn_logic g ms rng = Ok g' ->
  exists ratio flow,
    energy_ratio (analyzer g) ms = Ok ratio /\
    audio_driven g ms ratio rng = Ok flow /\
    audio_outcome g ms ratio rng flow /\
    g' = match flow with
         | Return g1 => g1
         | FallThrough g1 => boredom g1 ms
         end.
Proof.
  unfold spawn_logic.
  destruct (energy_ratio (analyzer g) ms) as [ratio|] eqn:Hr; [|discriminate].
  cbn [mbind result_bind].
  destruct (audio_driven_outcome g ms ratio rng) as (flow & Hf & Ho).
  rewrite Hf. cbn [mbind result_bind].
  intros H. exists ratio, flow. repeat split; try assumption.
  destruct flow; congruence.
Qed.

Lemma spawn_logic_total g ms rng ratio :
  energy_ratio (analyzer g) ms = Ok ratio ->
  exists g', spawn_logic g ms rng = Ok g'.
Proof.
  intros Hr. unfold spawn_logic. rewrite Hr. cbn [mbind result_bind].
  destruct (audio_driven_outcome g ms ratio rng) as (flow & Hf & _).
  rewrite Hf. cbn [mbind result_bind]. destruct flow; eauto.
Qed.

(** The obstacles after the audio-driven block: those before it, and at
    most one more. *)
Lemma audio_outcome_obstacles g ms ratio rng flow :
  audio_outcome g ms ratio rng flow ->
  (obstacles (ob_manager (flow_game flow)) = obstacles (ob_manager g)
   /\ last_spawn_ms (ob_manager (flow_game flow)) = last_spawn_ms (ob_manager g)
   /\ last_heavy_ms (ob_manager (flow_game flow)) = last_heavy_ms (ob_manager g))
  \/ (exists t0 c t lc start,
        MIN_SPAWN_INTERVAL_MS <= ms - last_spawn_ms (ob_manager g)
        /\ classify_tier ratio (recent_high_count g) (rand rng) = Some (Some t0, c)
        /\ heavy_cooldown (Some t0) ms (last_heavy_ms (ob_manager g)) = Some t
        /\ choose_lane_count t (choice rng) = Ok lc
        /\ placement_search (obstacles (ob_manager g)) lc rng = Ok (Some start)
        /\ flow = FallThrough (set_ob_manager (set_recent_high_count g c)
                                 (spawn (ob_manager g) start lc ms))).
Proof.
  intros H. destruct H.
  - left. repeat split.
  - left. repeat split.
  - left. repeat split.
  - right. exists t0, c, t, lc, start. repeat split; assumption.
Qed.

Lemma audio_outcome_keeps g ms ratio rng flow :
  audio_outcome g ms ratio rng flow ->
  analyzer (flow_game flow) = analyzer g
  /\ player (flow_game flow) = player g
  /\ last_obstacle_near_ms (flow_game flow) = last_obstacle_near_ms g.
Proof. intros H. destruct H; repeat split. Qed.

Lemma audio_outcome_streak g ms ratio rng flow :
  audio_outcome g ms ratio rng flow ->
  (recent_high_count (flow_game flow) = recent_high_count g
   /\ (ms - last_spawn_ms (ob_manager g) < MIN_SPAWN_INTERVAL_MS
       \/ classify_tier ratio (recent_high_count g) (rand rng) = None))
  \/ (MIN_SPAWN_INTERVAL_MS <= ms - last_spawn_ms (ob_manager g)
      /\ exists t0, classify_tier ratio (recent_high_count g) (rand rng)
                    = Some (Some t0, recent_high_count (flow_game flow))).
Proof.
  intros H. destruct H.
  - left. split; [reflexivity | now left].
  - left. split; [reflexivity | now right].
  - right. split; [assumption|]. exists t0. assumption.
  - right. split; [assumption|]. exists t0. assumption.
Qed.

Lemma boredom_idle g ms : bored g ms = false -> boredom g ms = g.
Proof. unfold boredom, bored. now intros ->. Qed.

Lemma boredom_fires g ms :
  bored g ms = true ->
  obstacles (ob_manager (boredom g ms))
    = map push_forward (obstacles (ob_manager g)) ++ [tiny_of g]
  /\ last_spawn_ms (ob_manager (boredom g ms)) = ms
  /\ last_heavy_ms (ob_manager (boredom g ms)) = last_heavy_ms (ob_manager g).
Proof. unfold boredom, bored. intros ->. cbn. repeat split. Qed.

Lemma boredom_keeps g ms :
  recent_high_count (boredom g ms) = recent_high_count g
  /\ analyzer (boredom g ms) = analyzer g
  /\ last_heavy_ms (ob_manager (boredom g ms)) = last_heavy_ms (ob_manager g)
  /\ last_obstacle_near_ms (boredom g ms) = last_obstacle_near_ms g.
Proof.
  unfold boredom.
  destruct ((ms - last_lane_change_ms (player g) >? 500)
            && (ms - last_obstacle_near_ms g >? 400)); cbn; repeat split.
Qed.

Lemma push_forward_lanes o :
  lane_start (push_forward o) = lane_start o
  /\ lane_count (push_forward o) = lane_count o.
Proof. unfold push_forward. destruct (conflicting o); split; reflexivity. Qed.

Lemma map_push_forward_lane_count obs :
  map lane_count (map push_forward obs) = map lane_count obs.
Proof.
  rewrite map_map. apply map_ext. intros o. apply push_forward_lanes.
Qed.

Lemma spawn_obstacle_count om start lc ms :
  length (obstacles (spawn om start lc ms)) = S (length (obstacles om)).
Proof. cbn. rewrite length_app. cbn. lia. Qed.

Lemma spawn_logic_analyzer g ms rng g' :
  spawn_logic g ms rng = Ok g' -> analyzer g' = analyzer g.
Proof.
  intros H. apply spawn_logic_inv in H.
  destruct H as (ratio & flow & _ & _ & Hout & ->).
  pose proof (audio_outcome_keeps _ _ _ _ _ Hout) as (Ha & _).
  destruct flow; cbn [flow_game] in Ha; [|exact Ha].
  now rewrite (proj1 (proj2 (boredom_keeps _ _))).
Qed.

Lemma spawn_logic_streak g ms rng g' ratio :
  spawn_logic g ms rng = Ok g' ->
  energy_ratio (analyzer g) ms = Ok ratio ->
  (0 <= recent_high_count g <= 4 -> 0 <= recent_high_count g' <= 4)
  /\ (ms - last_spawn_ms (ob_manager g) < MIN_SPAWN_INTERVAL_MS ->
      recent_high_count g' = recent_high_count g)
  /\ (MIN_SPAWN_INTERVAL_MS <= ms - last_spawn_ms (ob_manager g) ->
      (HIGH_TH <= ratio)%Q ->
      recent_high_count g' = Z.min (recent_high_count g + 1) 4)
  /\ (MIN_SPAWN_INTERVAL_MS <= ms - last_spawn_ms (ob_manager g) ->
      (ratio < HIGH_TH)%Q -> (LOW_TH <= ratio \/ rand rng < 5 # 100)%Q ->
      recent_high_count g' = 0).
Proof.
  intros Hrun Hratio. apply spawn_logic_inv in Hrun.
  destruct Hrun as (ratio' & flow & Hr & _ & Hout & ->).
  rewrite Hratio in Hr. injection Hr as <-.
  assert (Hsame : recent_high_count (match flow with
                                     | FallThrough g1 => boredom g1 ms
                                     | Return g1 => g1
                                     end)
                  = recent_high_count (flow_game flow)).
  { destruct flow; [apply boredom_keeps | reflexivity]. }
  rewrite Hsame.
  pose proof (classify_tier_streak ratio (recent_high_count g) (rand rng)) as Hc.
  destruct (audio_outcome_streak _ _ _ _ _ Hout)
    as [(Heq & Hwhy) | (Hgate & t0 & Hcl)].
  - rewrite Heq. split; [easy|]. split; [easy|]. split.
    + intros Hg Hhigh. destruct Hwhy as [Hclosed | Hnone]; [lia|].
      exfalso. unfold classify_tier in Hnone.
      apply Qgeb_ge in Hhigh. rewrite Hhigh in Hnone. discriminate.
    + intros Hg Hlow Hcase. destruct Hwhy as [Hclosed | Hnone]; [lia|].
      exfalso. now apply (classify_tier_none ratio (recent_high_count g)
                            (rand rng) Hlow Hcase).
  - rewrite Hcl in Hc.
    split; [intros Hb; destruct Hc as [[_ ->] | [_ ->]]; lia|].
    split; [lia|]. split.
    + intros _ Hhigh. destruct Hc as [[_ ->] | [Hlt _]]; [reflexivity | lra].
    + intros _ Hlow _. destruct Hc as [[Hge _] | [_ ->]]; [lra | reflexivity].
Qed.

(** ** Runs *)

Lemma tick_inv g i g' :
  tick g i = Ok g' ->
  exists g1,
    spawn_logic (before_spawn g i) (music_pos i) (rng i) = Ok g1
    /\ analyzer g' = analyzer g1
    /\ recent_high_count g' = recent_high_count g1
    /\ last_spawn_ms (ob_manager g') = last_spawn_ms (ob_manager g1)
    /\ last_heavy_ms (ob_manager g') = last_heavy_ms (ob_manager g1).
Proof.
  unfold tick. fold (before_spawn g i).
  destruct (spawn_logic (before_spawn g i) (music_pos i) (rng i)) as [g1|];
    [|discriminate].
  cbn [mbind result_bind]. unfold mark_passed_and_count.
  destruct (mark_passed_loop _ _ _) as [count obs].
  intros [= <-]. exists g1. repeat split.
Qed.

Lemma tick_analyzer g i g' : tick g i = Ok g' -> analyzer g' = analyzer g.
Proof.
  intros H. apply tick_inv in H. destruct H as (g1 & Hs & -> & _).
  now apply spawn_logic_analyzer in Hs.
Qed.

Lemma run_cons g i rest :
  run g (i :: rest) = g' ← tick g i; run g' rest.
Proof. reflexivity. Qed.

Lemma run_analyzer inputs : forall g g',
  run g inputs = Ok g' -> analyzer g' = analyzer g.
Proof.
  induction inputs as [|i rest IH]; intros g g'.
  - intros [= <-]. reflexivity.
  - rewrite run_cons. destruct (tick g i) as [g1|] eqn:Ht; [|discriminate].
    cbn [mbind result_bind]. intros H. apply IH in H. rewrite H.
    now apply (tick_analyzer g i).
Qed.

Lemma tick_streak g i g' :
  tick g i = Ok g' ->
  0 <= recent_high_count g <= 4 -> 0 <= recent_high_count g' <= 4.
Proof.
  intros H Hb. apply tick_inv in H.
  destruct H as (g1 & Hs & _ & -> & _).
  pose proof Hs as Hs'. apply spawn_logic_inv in Hs'.
  destruct Hs' as (ratio & _ & Hr & _).
  now apply (spawn_logic_streak _ _ _ _ _ Hs Hr).
Qed.

Lemma run_streak inputs : forall g g',
  run g inputs = Ok g' ->
  0 <= recent_high_count g <= 4 -> 0 <= recent_high_count g' <= 4.
Proof.
  induction inputs as [|i rest IH]; intros g g'.
  - intros [= <-]. easy.
  - rewrite run_cons. destruct (tick g i) as [g1|] eqn:Ht; [|discriminate].
    cbn [mbind result_bind]. intros H Hb. apply (IH _ _ H).
    now apply (tick_streak _ _ _ Ht).
Qed.

(** ** Lanes left open *)

(** The slice test at its two ends.  For an obstacle at 1520, 0.6 s ahead
    of the spawn column, the rounded difference of the two arrival times
    is 0.5999999999999996, below the float 0.6: the obstacle is in the
    slice.  At 1880 the difference is 0.6000000000000005: it is not. *)
Lemma in_slice_ends :
  in_slice (Obstacle_init 0 1 1520) = true
  /\ in_slice (Obstacle_init 0 1 1880) = false
  /\ in_slice (Obstacle_init 0 1 spawn_x) = true
  /\ (Qabs (fl64 (arrival_time 1520 - arrival_time spawn_x))
      == 5404319552844592 # 9007199254740992)%Q.
Proof. split_and!; vm_compute; reflexivity. Qed.

(** C1 fails for the boredom spawn.  The track [wall_audio], frames of
    17 ms, a player who stays on lane 5.  Energy-driven spawns
    at 0 ms (lanes 8-9), 153 ms (lanes 6-7) and 306 ms (lanes 0-4).  At
    510 ms the placement search refuses lane 5 eight times, then the
    boredom block puts an obstacle on lane 5: the three obstacles before it
    are all within 0.6 s of its arrival time, and every lane is occupied. *)
Lemma boredom_spawn_completes_wall :
  AudioAnalyzer_init wall_audio WINDOW_MS = Ok wall_analyzer
  /\ run (Game_init wall_analyzer) wall_inputs = Ok wall_game
  /\ match run_log (Game_init wall_analyzer) (wall_inputs ++ [wall_tick]) with
     | Ok (_, log) =>
         log = [(0, EnergySpawn); (153, EnergySpawn); (306, EnergySpawn);
                (510, BoredomSpawn)]
     | Raise _ => False
     end
  /\ (music_pos wall_tick = 510 /\ lane (player wall_game) = 5)
  /\ spawn_logic (before_spawn wall_game wall_tick) (music_pos wall_tick)
                 (rng wall_tick) = Ok wall_game'
  /\ placement_search (obstacles (ob_manager wall_game)) 1 (rng wall_tick)
     = Ok None
  /\ let others := firstn (obstacle_count wall_game)
                          (obstacles (ob_manager wall_game')) in
     obstacles (ob_manager wall_game')
       = others ++ [Obstacle_init 5 1 spawn_x]
     /\ map (fun o => (lane_start o, lane_count o)) others
        = [(8, 2); (6, 2); (0, 5)]
     /\ forallb in_slice others = true
     /\ all_blocked others 5 1 = true
     /\ trial_blocks others 5 1 = Ok (replicate (Z.to_nat LANES) 1).
Proof.
  cbv zeta. split_and!; vm_compute; reflexivity.
Qed.

(** C1, for the energy-driven spawns.  The audio-driven block of
    [spawn_logic] never raises, and it adds no obstacle or one.  An added
    obstacle comes from trial [k < 8] of the placement search, whose mask
    holds a [0]: some lane is occupied neither by the candidate nor by an
    existing obstacle of the 0.6 s slice, the slice being what the float
    comparison of the code makes it; every earlier trial had a full
    mask.  When all 8 trials have a full mask the search returns [None]
    and nothing is spawned. *)
Theorem energy_spawn_leaves_lane_open (g : Game) (ms : Z) (ratio : Q)
    (rng : Rng) :
  let obs := obstacles (ob_manager g) in
  (exists flow, audio_driven g ms ratio rng = Ok flow /\
     let obs' := obstacles (ob_manager (flow_game flow)) in
     obs' = obs \/
     exists lc start k blocks,
       obs' = obs ++ [Obstacle_init start lc spawn_x]
       /\ (k < 8)%nat /\ start = draw_start rng lc k
       /\ 0 <= start /\ start + lc <= LANES
       /\ trial_blocks obs start lc = Ok blocks /\ 0 ∈ blocks
       /\ (exists l, open_lane obs start lc l)
       /\ forall j, (j < k)%nat ->
            exists blocks_j,
              trial_blocks obs (draw_start rng lc j) lc = Ok blocks_j
              /\ 0 ∉ blocks_j)
  /\ (forall lc, 1 <= lc <= 6 ->
        (forall j, (j < 8)%nat ->
           exists blocks_j,
             trial_blocks obs (draw_start rng lc j) lc = Ok blocks_j
             /\ 0 ∉ blocks_j) ->
        placement_search obs lc rng = Ok None).
Proof.
  intros obs. split.
  - destruct (audio_driven_outcome g ms ratio rng) as (flow & Hrun & Hout).
    exists flow. split; [exact Hrun|].
    destruct (audio_outcome_obstacles _ _ _ _ _ Hout)
      as [(Ho & _) | (t0 & c & t & lc & start & _ & _ & _ & Hlc & Hs & ->)].
    + left. exact Ho.
    + right. pose proof (choose_lane_count_range _ _ _ Hlc) as (Hr & _).
      destruct (placement_trials_spec obs lc rng 8 0) as (r & Hr' & Hspec);
        [unfold LANES; lia|].
      unfold placement_search in Hs. fold obs in Hs. rewrite Hs in Hr'.
      injection Hr' as <-.
      destruct Hspec as (k & Hk & -> & Hrange & Hfree & Hbefore).
      destruct (trial_blocks_zero obs (draw_start rng lc k) lc)
        as (blocks & Hb & Hz); [lia | lia | lia |].
      exists lc, (draw_start rng lc k), k, blocks. cbn.
      split; [reflexivity|]. split; [lia|]. split; [reflexivity|].
      split; [lia|]. split; [lia|]. split; [exact Hb|].
      split; [now apply Hz|]. split; [now apply all_blocked_open_lane|].
      intros j Hj.
      assert (Hdj : 0 <= draw_start rng lc j <= LANES - lc).
      { unfold draw_start. apply np_randint_Ok. unfold LANES. lia. }
      destruct (trial_blocks_zero obs (draw_start rng lc j) lc)
        as (bj & Hbj & Hzj); [lia | lia | lia |].
      exists bj. split; [exact Hbj|]. intros Hin. apply Hzj in Hin.
      rewrite Hbefore in Hin; [discriminate | lia].
  - intros lc Hlc Hall.
    destruct (placement_trials_spec obs lc rng 8 0) as (r & Hr & Hspec);
      [unfold LANES; lia|].
    unfold placement_search. rewrite Hr. destruct r as [start|]; [|reflexivity].
    exfalso. destruct Hspec as (k & Hk & -> & Hrange & Hfree & _).
    destruct (Hall k) as (bk & Hbk & Hnot); [lia|].
    destruct (trial_blocks_zero obs (draw_start rng lc k) lc)
      as (blocks & Hb & Hz); [lia | lia | lia |].
    rewrite Hbk in Hb. injection Hb as <-.
    apply Hnot. now apply Hz.
Qed.

(** ** The heavy cooldown *)

(** C3.  Within [HEAVY_COOLDOWN_MS] of [last_heavy_ms] a [high] tier is
    downgraded to [medium], and a call of [spawn_logic] adds no obstacle of
    4 lanes or more: the obstacles already there keep their lane counts,
    every added one has fewer than 4 lanes, and [last_heavy_ms] stays. *)
Theorem heavy_cooldown_blocks_heavy (g g' : Game) (ms : Z) (rng : Rng) :
  spawn_logic g ms rng = Ok g' ->
  ms - last_heavy_ms (ob_manager g) < HEAVY_COOLDOWN_MS ->
  heavy_cooldown (Some high) ms (last_heavy_ms (ob_manager g)) = Some medium
  /\ map lane_count (firstn (obstacle_count g) (obstacles (ob_manager g')))
     = map lane_count (obstacles (ob_manager g))
  /\ Forall (fun o => lane_count o < 4)
            (skipn (obstacle_count g) (obstacles (ob_manager g')))
  /\ last_heavy_ms (ob_manager g') = last_heavy_ms (ob_manager g).
Proof.
  intros Hrun Hcool. split.
  { unfold heavy_cooldown.
    destruct (ms - last_heavy_ms (ob_manager g) <? HEAVY_COOLDOWN_MS) eqn:E;
      [reflexivity | zbool; lia]. }
  apply spawn_logic_inv in Hrun.
  destruct Hrun as (ratio & flow & _ & _ & Hout & ->).
  (* the obstacles after the audio-driven block *)
  assert (Hmid : exists added,
            obstacles (ob_manager (flow_game flow))
              = obstacles (ob_manager g) ++ added
            /\ Forall (fun o => lane_count o < 4) added
            /\ last_heavy_ms (ob_manager (flow_game flow))
               = last_heavy_ms (ob_manager g)).
  { destruct (audio_outcome_obstacles _ _ _ _ _ Hout)
      as [(Ho & _ & Hh) | (t0 & c & t & lc & start & _ & _ & Ht & Hlc & _ & ->)].
    - exists []. rewrite app_nil_r. repeat split; [exact Ho | constructor | exact Hh].
    - destruct (heavy_cooldown_Some t0 ms (last_heavy_ms (ob_manager g)))
        as (t' & Ht' & Hnot & _).
      rewrite Ht in Ht'. injection Ht' as <-.
      pose proof (choose_lane_count_range _ _ _ Hlc) as (_ & Hlow & _).
      specialize (Hlow (Hnot Hcool)).
      exists [Obstacle_init start lc spawn_x]. cbn.
      split; [reflexivity|]. split; [repeat constructor; exact Hlow|].
      destruct (lc >=? 4) eqn:E; [zbool; zbool; lia | reflexivity]. }
  destruct Hmid as (added & Hobs & Hadded & Hheavy).
  assert (Hfinal : exists f added',
            obstacles (ob_manager (match flow with
                                   | FallThrough g1 => boredom g1 ms
                                   | Return g1 => g1
                                   end))
              = map f (obstacles (ob_manager g)) ++ added'
            /\ (forall o, lane_count (f o) = lane_count o)
            /\ Forall (fun o => lane_count o < 4) added'
            /\ last_heavy_ms (ob_manager (match flow with
                                          | FallThrough g1 => boredom g1 ms
                                          | Return g1 => g1
                                          end))
               = last_heavy_ms (ob_manager g)).
  { destruct flow as [g1 | g1]; cbn [flow_game] in *.
    - destruct (bored g1 ms) eqn:Hb.
      + destruct (boredom_fires g1 ms Hb) as (Ho & _ & Hh).
        exists push_forward, (map push_forward added ++ [tiny_of g1]).
        rewrite Ho, Hobs, map_app, <- app_assoc.
        split; [reflexivity|]. split; [apply push_forward_lanes|].
        split; [|congruence].
        apply Forall_app. split.
        * apply Forall_map. eapply Forall_impl; [exact Hadded|].
          intros o Ho'. cbv beta.
          now rewrite (proj2 (push_forward_lanes o)).
        * repeat constructor.
      + rewrite (boredom_idle g1 ms Hb).
        exists (fun o => o), added. rewrite map_id.
        repeat split; assumption.
    - exists (fun o => o), added. rewrite map_id. repeat split; assumption. }
  destruct Hfinal as (f & added' & Ho & Hf & Ha & Hh).
  unfold obstacle_count. rewrite Ho.
  assert (Hlen : length (obstacles (ob_manager g))
                 = length (map f (obstacles (ob_manager g))))
    by now rewrite length_map.
  split; [|split; [|exact Hh]].
  - rewrite Hlen, firstn_app, Nat.sub_diag, firstn_all. cbn [firstn].
    rewrite app_nil_r, map_map. apply map_ext. exact Hf.
  - rewrite Hlen, skipn_app, Nat.sub_diag, skipn_all. exact Ha.
Qed.

(** The cooldown at work: 300 ms after a spawn of 4 lanes a high ratio
    spawns 3 lanes. *)
Lemma heavy_cooldown_blocks_heavy_witness :
  spawn_logic cooldown_game 1300 (const_rng (1 # 2) 1 0) = Ok cooldown_game'
  /\ 1300 - last_heavy_ms (ob_manager cooldown_game) < HEAVY_COOLDOWN_MS
  /\ Forall (fun o => lane_count o < 4)
            (skipn (obstacle_count cooldown_game)
                   (obstacles (ob_manager cooldown_game'))).
Proof.
  assert (H1 : spawn_logic cooldown_game 1300 (const_rng (1 # 2) 1 0)
               = Ok cooldown_game') by (vm_compute; reflexivity).
  assert (H2 : 1300 - last_heavy_ms (ob_manager cooldown_game)
               < HEAVY_COOLDOWN_MS) by (vm_compute; reflexivity).
  split; [exact H1|]. split; [exact H2|].
  exact (proj1 (proj2 (proj2 (heavy_cooldown_blocks_heavy _ _ _ _ H1 H2)))).
Defined.

(** ** The streak counter *)

(** C2 fails while the gate is closed.  The track [streak_audio], frames
    of 17 ms.  The tick at 204 ms has a high ratio and spawns: the counter
    is 1.  The tick at 306 ms has a ratio below [HIGH_TH], but it comes 102
    ms after the spawn: the counter is still 1.  Nor does an open gate
    always reset it: on the track [wall_audio] the tick at 459 ms, 153 ms
    after a spawn, has a quiet ratio and no 5% draw, [spawn_logic] returns
    at once, and the counter is still 1. *)
Lemma streak_survives_non_high_tick :
  AudioAnalyzer_init streak_audio WINDOW_MS = Ok streak_analyzer
  /\ run (Game_init streak_analyzer) streak_inputs = Ok streak_game
  /\ match run_log (Game_init streak_analyzer) streak_inputs with
     | Ok (_, log) => log = [(204, EnergySpawn)]
     | Raise _ => False
     end
  /\ recent_high_count streak_game = 1
  /\ music_pos streak_tick = 306
  /\ energy_ratio (analyzer streak_game) (music_pos streak_tick) = Ok streak_ratio
  /\ (MEDIUM_TH <= streak_ratio < HIGH_TH)%Q
  /\ music_pos streak_tick - last_spawn_ms (ob_manager streak_game) = 102
  /\ tick streak_game streak_tick = Ok streak_game'
  /\ recent_high_count streak_game' = 1
  /\ run (Game_init wall_analyzer) quiet_inputs = Ok quiet_game
  /\ recent_high_count quiet_game = 1
  /\ energy_ratio (analyzer quiet_game) (music_pos quiet_tick) = Ok quiet_ratio
  /\ (quiet_ratio == 0)%Q
  /\ music_pos quiet_tick - last_spawn_ms (ob_manager quiet_game) = 153
  /\ tick quiet_game quiet_tick = Ok quiet_game'
  /\ recent_high_count quiet_game' = 1.
Proof.
  split_and!; vm_compute; first [reflexivity | discriminate].
Qed.

(** C2, as the code has it.  In every state a run reaches from
    [Game_init], [recent_high_count] is between 0 and 4, and it still is
    after one more tick.  On that tick: with the minimum-interval gate
    closed the counter is unchanged; with the gate open, a ratio at or
    above [HIGH_TH] increments it, capped at 4, and a ratio below [HIGH_TH]
    that gets a tier (a ratio of at least [LOW_TH], or the 5% draw of the
    quiet branch) resets it to 0. *)
Theorem streak_bounded_and_reset (a : AudioAnalyzer) (inputs : list TickInput)
    (g g' : Game) (i : TickInput) (ratio : Q) :
  run (Game_init a) inputs = Ok g ->
  energy_ratio (analyzer g) (music_pos i) = Ok ratio ->
  tick g i = Ok g' ->
  let gate := music_pos i - last_spawn_ms (ob_manager g) in
  0 <= recent_high_count g <= 4
  /\ 0 <= recent_high_count g' <= 4
  /\ (gate < MIN_SPAWN_INTERVAL_MS ->
      recent_high_count g' = recent_high_count g)
  /\ (MIN_SPAWN_INTERVAL_MS <= gate -> (HIGH_TH <= ratio)%Q ->
      recent_high_count g' = Z.min (recent_high_count g + 1) 4)
  /\ (MIN_SPAWN_INTERVAL_MS <= gate -> (ratio < HIGH_TH)%Q ->
      (LOW_TH <= ratio \/ rand (rng i) < 5 # 100)%Q ->
      recent_high_count g' = 0).
Proof.
  intros Hrun Hratio Htick gate.
  assert (Hg : 0 <= recent_high_count g <= 4).
  { apply (run_streak _ _ _ Hrun). cbn. lia. }
  split; [exact Hg|].
  apply tick_inv in Htick. destruct Htick as (g1 & Hs & _ & -> & _).
  apply (spawn_logic_streak _ _ _ _ ratio) in Hs; [|exact Hratio].
  destruct Hs as (Hb & Hclosed & Hhigh & Hlow).
  split; [now apply Hb|]. split; [exact Hclosed|]. split; assumption.
Qed.

(** The counter on the run of [streak_inputs] and the frame after it. *)
Lemma streak_bounded_and_reset_witness :
  run (Game_init streak_analyzer) streak_inputs = Ok streak_game
  /\ energy_ratio (analyzer streak_game) (music_pos streak_tick) = Ok streak_ratio
  /\ tick streak_game streak_tick = Ok streak_game'
  /\ 0 <= recent_high_count streak_game' <= 4.
Proof.
  assert (H1 : run (Game_init streak_analyzer) streak_inputs = Ok streak_game)
    by (vm_compute; reflexivity).
  assert (H2 : energy_ratio (analyzer streak_game) (music_pos streak_tick)
               = Ok streak_ratio) by (vm_compute; reflexivity).
  assert (H3 : tick streak_game streak_tick = Ok streak_game')
    by (vm_compute; reflexivity).
  split; [exact H1|]. split; [exact H2|]. split; [exact H3|].
  exact (proj1 (proj2 (streak_bounded_and_reset _ _ _ _ _ _ H1 H2 H3))).
Defined.

(** ** The minimum interval between spawns *)

Lemma last_time_cons prev t k log :
  last_time prev ((t, k) :: log) = last_time t log.
Proof. unfold last_time. cbn [map fst]. apply last_cons_default. Qed.

Lemma energy_gaps_ok_app prev l1 l2 :
  energy_gaps_ok prev l1 -> energy_gaps_ok (last_time prev l1) l2 ->
  energy_gaps_ok prev (l1 ++ l2).
Proof.
  revert prev. induction l1 as [|[t k] l1 IH]; intros prev H1 H2.
  - exact H2.
  - cbn [app energy_gaps_ok] in *. destruct H1 as [Hk H1].
    split; [exact Hk|]. apply IH; [exact H1|].
    now rewrite last_time_cons in H2.
Qed.

Lemma last_time_app prev l1 l2 :
  last_time prev (l1 ++ l2) = last_time (last_time prev l1) l2.
Proof.
  revert prev. induction l1 as [|[t k] l1 IH]; intros prev; [reflexivity|].
  cbn [app]. now rewrite !last_time_cons.
Qed.

(** One call: its spawns, the gate, and [last_spawn_ms]. *)
Lemma spawn_events_spec g ms rng g' :
  spawn_logic g ms rng = Ok g' ->
  exists ev, spawn_events g ms rng = Ok ev
    /\ energy_gaps_ok (last_spawn_ms (ob_manager g)) ev
    /\ last_spawn_ms (ob_manager g') = last_time (last_spawn_ms (ob_manager g)) ev.
Proof.
  intros Hrun. apply spawn_logic_inv in Hrun.
  destruct Hrun as (ratio & flow & Hr & Hf & Hout & ->).
  unfold spawn_events. rewrite Hr. cbn [mbind result_bind]. rewrite Hf.
  cbn [mbind result_bind]. cbv zeta.
  assert (Hboredom : forall g1,
    exists evb,
      (if (obstacle_count g1 <? obstacle_count (boredom g1 ms))%nat
       then [(ms, BoredomSpawn)] else []) = evb
      /\ energy_gaps_ok (last_spawn_ms (ob_manager g1)) evb
      /\ forall prev, last_spawn_ms (ob_manager g1) = prev ->
           last_spawn_ms (ob_manager (boredom g1 ms)) = last_time prev evb).
  { intros g1. eexists. split; [reflexivity|].
    destruct (bored g1 ms) eqn:Hb.
    - destruct (boredom_fires g1 ms Hb) as (Ho & Hs & _).
      unfold obstacle_count. rewrite Ho, length_app, length_map. cbn [length].
      destruct (length (obstacles (ob_manager g1))
                <? length (obstacles (ob_manager g1)) + 1)%nat eqn:E;
        [|apply Nat.ltb_ge in E; lia].
      split; [cbn; split; [discriminate | exact I]|].
      intros prev _. rewrite Hs. reflexivity.
    - rewrite (boredom_idle g1 ms Hb). rewrite Nat.ltb_irrefl.
      split; [exact I|]. intros prev <-. reflexivity. }
  destruct (audio_outcome_obstacles _ _ _ _ _ Hout)
    as [(Ho & Hs & _) | (t0 & c & t & lc & start & Hgate & _ & _ & _ & _ & ->)].
  - assert (Hcount : obstacle_count (flow_game flow) = obstacle_count g)
      by (unfold obstacle_count; now rewrite Ho).
    assert (Hlt : (obstacle_count g <? obstacle_count (flow_game flow))%nat
                  = false) by (rewrite Hcount; apply Nat.ltb_irrefl).
    rewrite Hlt. cbn [app].
    destruct flow as [g1 | g1]; cbn [flow_game] in *.
    + destruct (Hboredom g1) as (evb & -> & Hgap & Hlast).
      exists evb. split; [reflexivity|]. rewrite <- Hs.
      split; [exact Hgap | now apply Hlast].
    + exists []. split; [reflexivity|]. split; [exact I|]. exact Hs.
  - cbn [flow_game].
    set (g1 := set_ob_manager _ _).
    assert (Hcount : (obstacle_count g <? obstacle_count g1)%nat = true).
    { apply Nat.ltb_lt. unfold obstacle_count, g1. cbn [ob_manager set_ob_manager].
      rewrite spawn_obstacle_count. cbn. lia. }
    rewrite Hcount.
    destruct (Hboredom g1) as (evb & -> & Hgap & Hlast).
    exists ([(ms, EnergySpawn)] ++ evb). split; [reflexivity|].
    split.
    + apply energy_gaps_ok_app; [cbn; split; [intros _; exact Hgate | exact I]|].
      exact Hgap.
    + rewrite last_time_app. apply Hlast. reflexivity.
Qed.

Lemma run_log_spec inputs : forall g g',
  run g inputs = Ok g' ->
  exists log, run_log g inputs = Ok (g', log)
    /\ energy_gaps_ok (last_spawn_ms (ob_manager g)) log
    /\ last_spawn_ms (ob_manager g') = last_time (last_spawn_ms (ob_manager g)) log.
Proof.
  induction inputs as [|i rest IH]; intros g g'.
  - intros [= <-]. exists []. repeat split.
  - rewrite run_cons. destruct (tick g i) as [g1|] eqn:Ht; [|discriminate].
    cbn [mbind result_bind]. intros Hrest.
    destruct (IH _ _ Hrest) as (log & Hlog & Hgap & Hlast).
    pose proof Ht as Ht'. apply tick_inv in Ht'.
    destruct Ht' as (g2 & Hs & _ & _ & Hsp & _).
    destruct (spawn_events_spec _ _ _ _ Hs) as (ev & Hev & Hgap1 & Hlast1).
    exists (ev ++ log). cbn [run_log]. rewrite Hev. cbn [mbind result_bind].
    rewrite Ht. cbn [mbind result_bind]. rewrite Hlog. cbn [mbind result_bind].
    split; [reflexivity|].
    rewrite Hsp, Hlast1 in Hgap, Hlast.
    split; [now apply energy_gaps_ok_app | now rewrite last_time_app].
Qed.

Lemma flat_ratio ms :
  exists r, energy_ratio flat_analyzer ms = Ok r /\ (r == LOW_TH)%Q.
Proof.
  unfold energy_ratio. rewrite get_window_index_Ok by (cbn; lia).
  cbn [mbind result_bind num_windows flat_analyzer].
  replace (clamp _ 0 (1 - 1)) with 0 by (unfold clamp; lia).
  eexists. split; [vm_compute; reflexivity|]. vm_compute. reflexivity.
Qed.

(** C4 fails for the boredom spawn.  A ratio of exactly [LOW_TH] at every
    time, frames of 17 ms, a player who stays on lane 5: energy-driven
    spawns at 0, 153, 306 and 459 ms, and a boredom spawn at 510 ms, 51 ms
    after the last of them. *)
Lemma boredom_spawn_ignores_min_interval :
  (forall ms, exists r,
     energy_ratio flat_analyzer ms = Ok r /\ (r == LOW_TH)%Q)
  /\ run_log (Game_init flat_analyzer) flat_inputs
     = Ok (flat_game,
           [(0, EnergySpawn); (153, EnergySpawn); (306, EnergySpawn);
            (459, EnergySpawn); (510, BoredomSpawn)])
  /\ all_gaps_ok (last_spawn_ms ObstacleManager_init)
       [(0, EnergySpawn); (153, EnergySpawn); (306, EnergySpawn);
        (459, EnergySpawn); (510, BoredomSpawn)] = false.
Proof.
  split; [exact flat_ratio|].
  split; vm_compute; reflexivity.
Qed.

(** C4, as the code has it.  In every run each energy-driven spawn comes at
    least [MIN_SPAWN_INTERVAL_MS] after the spawn before it, of either
    kind, and [last_spawn_ms] is the time of the last spawn.  This holds
    for every signal; with a ratio exactly at [LOW_TH], every tick that
    passes the gate has tier [low]. *)
Theorem energy_spawns_respect_min_interval (g g' : Game)
    (inputs : list TickInput) :
  run g inputs = Ok g' ->
  (exists log, run_log g inputs = Ok (g', log)
     /\ energy_gaps_ok (last_spawn_ms (ob_manager g)) log
     /\ last_spawn_ms (ob_manager g')
        = last_time (last_spawn_ms (ob_manager g)) log)
  /\ (forall ratio c u,
        (ratio == LOW_TH)%Q -> classify_tier ratio c u = Some (Some low, 0)).
Proof.
  intros Hrun. split.
  - now apply run_log_spec.
  - apply classify_tier_at_low.
Qed.

(** The log of the run of [flat_inputs]. *)
Lemma energy_spawns_respect_min_interval_witness :
  run (Game_init flat_analyzer) flat_inputs = Ok flat_game
  /\ exists log,
       run_log (Game_init flat_analyzer) flat_inputs = Ok (flat_game, log)
       /\ energy_gaps_ok (last_spawn_ms (ob_manager (Game_init flat_analyzer))) log.
Proof.
  assert (H1 : run (Game_init flat_analyzer) flat_inputs = Ok flat_game)
    by (vm_compute; reflexivity).
  split; [exact H1|].
  destruct (proj1 (energy_spawns_respect_min_interval _ _ _ H1))
    as (log & Hlog & Hgap & _).
  exists log. split; [exact Hlog | exact Hgap].
Defined.

(** ** The windows of an analyzer *)

(** The product [sample_rate * (window_ms / 1000.0)] is rounded before it
    is truncated: 100 Hz and 290 ms give 28.999999999999996 and 28 samples,
    48000 Hz and 9 ms 431.99999999999994 and 431. *)
Lemma spw_of_rounded_product :
  spw_of {| frame_rate := 100; channels := 1; array_of_samples := [] |} 290
  = 28
  /\ spw_of {| frame_rate := 48000; channels := 1; array_of_samples := [] |} 9
     = 431
  /\ spw_of wall_audio WINDOW_MS = 800
  /\ spw_of odd_rate_audio WINDOW_MS = 4405.
Proof. split_and!; vm_compute; reflexivity. Qed.

(** C6 fails with [W] rounded.  At 44056 Hz and windows of 100 ms the
    constructor keeps [int(4405.6) = 4405] samples per window where
    rounding gives 4406; a buffer of 4406 samples has 2 windows, not 1. *)
Lemma truncated_not_rounded_window :
  exists a,
    AudioAnalyzer_init odd_rate_audio WINDOW_MS = Ok a
    /\ samples_per_window a = 4405
    /\ rounded_samples_per_window odd_rate_audio WINDOW_MS = 4406
    /\ num_windows a = 2
    /\ Z.max 1 (py_ceil (inject_Z (Z.of_nat (length (samples a)))
                         / inject_Z (rounded_samples_per_window
                                       odd_rate_audio WINDOW_MS))) = 1.
Proof.
  eexists. split; [vm_compute; reflexivity|].
  split_and!; vm_compute; reflexivity.
Qed.

(** C6, as the code has it.  For a non-empty sample buffer and
    [W = int(sample_rate * (window_ms / 1000.0))] of at least 1, the
    constructor builds an analyzer with [samples_per_window = W] and
    [num_windows = max(1, ceil(len(samples) / W))]; [energy] and
    [baseline] have [num_windows] entries; [energy[i]] is computed from the
    samples [[i*W, (i+1)*W)]; and neither [spawn_logic] nor a run changes
    the analyzer. *)
Theorem analyzer_windows (audio : AudioSegment) (window_ms : Z) :
  array_of_samples audio <> [] ->
  (1 < channels audio ->
   Z.of_nat (length (array_of_samples audio)) mod channels audio = 0) ->
  0 < spw_of audio window_ms ->
  exists a, AudioAnalyzer_init audio window_ms = Ok a /\
    let W := spw_of audio window_ms in
    samples_per_window a = W
    /\ length (samples a) = Z.to_nat (frame_count audio)
    /\ num_windows a
       = Z.max 1 (py_ceil (inject_Z (Z.of_nat (length (samples a)))
                           / inject_Z W))
    /\ length (energy a) = Z.to_nat (num_windows a)
    /\ length (baseline a) = Z.to_nat (num_windows a)
    /\ (forall i, (i < Z.to_nat (num_windows a))%nat ->
          energy a !! i
          = Some (let w := window_samples (samples a) (Z.to_nat W) i in
                  np_sum (map (fun s => s * s) w)
                  / (inject_Z (Z.of_nat (length w)) + eps))%Q)
    /\ (forall g ms rng g',
          analyzer g = a -> spawn_logic g ms rng = Ok g' -> analyzer g' = a)
    /\ (forall g inputs g',
          analyzer g = a -> run g inputs = Ok g' -> analyzer g' = a).
Proof.
  intros Hne Hdiv HW.
  destruct (mono_samples_Ok audio Hdiv) as (s1 & Hmono & Hlen).
  pose proof (frame_count_pos audio Hne Hdiv) as Hfc.
  destruct (AudioAnalyzer_init_total audio window_ms s1 Hmono) as (a & Ha).
  { intros ->. cbn [length] in Hlen. lia. }
  { lia. }
  exists a. split; [exact Ha|].
  pose proof (AudioAnalyzer_init_ok _ _ _ Ha) as [_ _ Hel Hbl _ _].
  apply AudioAnalyzer_init_inv in Ha.
  destruct Ha as (s1' & m & Hmono' & _ & _ & _ & Hs & _ & Hspw & Hnw & Hen & _).
  rewrite Hmono in Hmono'. injection Hmono' as <-.
  cbv zeta. split; [exact Hspw|].
  split; [rewrite Hs, length_map; exact Hlen|].
  split; [rewrite <- Hspw; exact Hnw|].
  split; [exact Hel|]. split; [exact Hbl|]. split; [|split].
  - intros i Hi. rewrite Hen.
    rewrite (proj2 (compute_energy_spec _ _ _) i Hi).
    unfold window_energy. rewrite Hspw.
    rewrite py_slice_window by exact HW. reflexivity.
  - intros g ms rng g' <-. apply spawn_logic_analyzer.
  - intros g inputs g' <-. apply run_analyzer.
Qed.

(** The windows of [wall_audio]. *)
Lemma analyzer_windows_witness :
  array_of_samples wall_audio <> []
  /\ 0 < spw_of wall_audio WINDOW_MS
  /\ exists a, AudioAnalyzer_init wall_audio WINDOW_MS = Ok a
       /\ samples_per_window a = spw_of wall_audio WINDOW_MS
       /\ length (energy a) = Z.to_nat (num_windows a).
Proof.
  assert (H1 : array_of_samples wall_audio <> []) by discriminate.
  assert (H2 : 1 < channels wall_audio ->
               Z.of_nat (length (array_of_samples wall_audio))
               mod channels wall_audio = 0)
    by (intros H; vm_compute in H; discriminate).
  assert (H3 : 0 < spw_of wall_audio WINDOW_MS) by (vm_compute; reflexivity).
  split; [exact H1|]. split; [exact H3|].
  destruct (analyzer_windows wall_audio WINDOW_MS H1 H2 H3)
    as (a & Ha & Hspw & _ & _ & Hel & _).
  exists a. split; [exact Ha|]. split; [exact Hspw | exact Hel].
Defined.

(** * Further properties of the code *)

(** ** The peak and the bounds of the energies *)

Lemma fold_max_spec (t : list Q) : forall h,
  (h <= fold_left Qmax t h)%Q
  /\ Forall (fun v => v <= fold_left Qmax t h)%Q t
  /\ In (fold_left Qmax t h) (h :: t).
Proof.
  induction t as [|a t IH]; intros h; cbn [fold_left].
  - split; [apply Qle_refl|]. split; [constructor | now left].
  - destruct (IH (Qmax h a)) as (H1 & H2 & H3).
    split; [|split].
    + eapply Qle_trans; [apply Q.le_max_l | exact H1].
    + constructor; [|exact H2].
      eapply Qle_trans; [apply Q.le_max_r | exact H1].
    + destruct H3 as [H3 | H3].
      * rewrite <- H3. unfold Qmax, GenericMinMax.gmax.
        destruct (h ?= a)%Q; [now left | right; now left | now left].
      * right. now right.
Qed.

Lemma np_max_spec (l : list Q) m :
  np_max l = Ok m -> Forall (fun v => v <= m)%Q l /\ In m l.
Proof.
  destruct l as [|h t]; [discriminate|]. cbn [np_max]. intros [= <-].
  destruct (fold_max_spec t h) as (H1 & H2 & H3).
  split; [now constructor | exact H3].
Qed.

Lemma np_sum_le_length (l : list Q) :
  Forall (fun v => v <= 1)%Q l ->
  (np_sum l <= inject_Z (Z.of_nat (length l)))%Q.
Proof.
  induction 1 as [|v l Hv _ IH].
  - apply Qle_refl.
  - cbn [np_sum fold_right length]. fold (np_sum l).
    rewrite Nat2Z.inj_succ, <- Z.add_1_r, inject_Z_plus.
    change (inject_Z 1) with 1%Q. lra.
Qed.

Lemma square_le_1 (s : Q) : (-1 <= s <= 1 -> s * s <= 1)%Q.
Proof. intros [H1 H2]. nra. Qed.

Lemma window_energy_lt_1 samples spw i :
  Forall (fun s => -1 <= s <= 1)%Q samples ->
  (window_energy samples spw i < 1)%Q.
Proof.
  intros H. unfold window_energy.
  set (w := py_slice samples _ _).
  assert (Hw : Forall (fun s => -1 <= s <= 1)%Q w).
  { unfold w, py_slice. apply Forall_take, Forall_drop, H. }
  assert (Hs : (np_sum (map (fun s => s * s) w)
                <= inject_Z (Z.of_nat (length w)))%Q).
  { rewrite <- (length_map (fun s => s * s)%Q w).
    apply np_sum_le_length. apply Forall_map.
    eapply Forall_impl; [exact Hw|]. intros s Hsq. now apply square_le_1. }
  assert (Hn : (0 <= inject_Z (Z.of_nat (length w)))%Q).
  { change 0%Q with (inject_Z 0). rewrite <- Zle_Qle. lia. }
  apply Qlt_shift_div_r; [unfold eps; lra|]. unfold eps. lra.
Qed.

Lemma init_samples_bounded audio window_ms a :
  AudioAnalyzer_init audio window_ms = Ok a ->
  Forall (fun s => -1 <= s <= 1)%Q (samples a).
Proof.
  intros Hinit. apply AudioAnalyzer_init_inv in Hinit.
  destruct Hinit as (s1 & m & _ & Hmax & _ & _ & Hs & _).
  apply np_max_spec in Hmax. destruct Hmax as [Hle Hin].
  rewrite Hs. apply Forall_map.
  rewrite List.Forall_forall in Hle. apply List.Forall_forall.
  intros s Hin_s.
  assert (Habs : (Qabs s <= m)%Q) by (apply Hle, in_map, Hin_s).
  apply Qabs_Qle_condition in Habs.
  destruct (Qeq_bool m 0) eqn:E.
  - apply Qeq_bool_iff in E.
    assert (s == 0)%Q by lra.
    assert (Es : (s / 1 == 0)%Q) by (rewrite H; reflexivity).
    rewrite Es. lra.
  - apply Qeq_bool_neq in E.
    assert (Hm : (0 < m)%Q).
    { assert (0 <= m)%Q by (destruct Habs; lra). lra. }
    split.
    + apply Qle_shift_div_l; [exact Hm|]. lra.
    + apply Qle_shift_div_r; [exact Hm|]. lra.
Qed.

(** X1.  The constructor normalises to the peak: every sample it stores
    lies in [[-1, 1]], and unless the decoded audio is silent (all zero),
    some stored sample has absolute value 1. *)
Theorem samples_normalised_to_peak audio window_ms a :
  AudioAnalyzer_init audio window_ms = Ok a ->
  Forall (fun s => -1 <= s <= 1)%Q (samples a)
  /\ (forall mono, mono_samples audio = Ok mono ->
        (exists v, In v mono /\ ~ (v == 0)%Q) ->
        exists s, In s (samples a) /\ (Qabs s == 1)%Q).
Proof.
  intros Hinit. split; [now apply (init_samples_bounded audio window_ms)|].
  intros mono Hmono' (v & Hv & Hv0).
  apply AudioAnalyzer_init_inv in Hinit.
  destruct Hinit as (s1 & m & Hmono & Hmax & _ & _ & Hs & _).
  rewrite Hmono' in Hmono. injection Hmono as ->.
  apply np_max_spec in Hmax. destruct Hmax as [Hle Hin].
  rewrite List.Forall_forall in Hle.
  assert (Hm : (0 < m)%Q).
  { assert (Hvm : (Qabs v <= m)%Q) by (apply Hle; apply (in_map Qabs); exact Hv).
    assert (0 < Qabs v)%Q; [|lra].
    pose proof (Qabs_nonneg v) as Hnn.
    destruct (Qeq_dec (Qabs v) 0) as [E0 | E0]; [|lra].
    exfalso. apply Hv0.
    assert (Hc : (Qabs v <= 0)%Q) by lra.
    apply Qabs_Qle_condition in Hc. lra. }
  apply in_map_iff in Hin. destruct Hin as (s & Hsm & Hs_in).
  exists (s / m)%Q. split.
  - rewrite Hs. apply in_map_iff. exists s. split; [|exact Hs_in].
    destruct (Qeq_bool m 0) eqn:E1; [|reflexivity].
    apply Qeq_bool_iff in E1. lra.
  - unfold Qdiv. rewrite Qabs_Qmult, Hsm.
    rewrite (Qabs_pos (/ m)); [field; lra|].
    apply Qlt_le_weak, Qinv_lt_0_compat, Hm.
Qed.

(** The samples of [wall_audio]. *)
Lemma samples_normalised_to_peak_witness :
  AudioAnalyzer_init wall_audio WINDOW_MS = Ok wall_analyzer
  /\ Forall (fun s => -1 <= s <= 1)%Q (samples wall_analyzer).
Proof.
  assert (H1 : AudioAnalyzer_init wall_audio WINDOW_MS = Ok wall_analyzer)
    by (vm_compute; reflexivity).
  split; [exact H1|].
  exact (proj1 (samples_normalised_to_peak _ _ _ H1)).
Defined.

(** X2.  Every window energy of a constructed analyzer lies in [[0, 1]]:
    the samples are normalised to [[-1, 1]], so a window of [n] samples has
    a sum of squares of at most [n].  The bound is closed: the energy of a
    window at full scale, [n / (n + 1e-9)], is the float32 1. *)
Theorem energies_in_unit_interval audio window_ms a :
  AudioAnalyzer_init audio window_ms = Ok a ->
  Forall (fun e => 0 <= e <= 1)%Q (energy a).
Proof.
  intros Hinit.
  pose proof (init_samples_bounded _ _ _ Hinit) as Hs.
  pose proof (AudioAnalyzer_init_inv _ _ _ Hinit)
    as (s1 & m & _ & _ & _ & _ & _ & _ & _ & _ & He & Hb).
  rewrite He.
  destruct (compute_energy_spec (samples a) (samples_per_window a)
              (num_windows a)) as [Hlen Hget].
  apply Forall_lookup_2. intros i e Hi.
  assert (Hlt : (i < Z.to_nat (num_windows a))%nat).
  { pose proof (lookup_lt_Some _ _ _ Hi) as Hl. cbv zeta in Hlen.
    now rewrite Hlen in Hl. }
  rewrite (Hget i Hlt) in Hi. injection Hi as <-.
  split; [apply window_energy_nonneg|].
  apply Qlt_le_weak. now apply window_energy_lt_1.
Qed.

(** The energies of [wall_audio]. *)
Lemma energies_in_unit_interval_witness :
  AudioAnalyzer_init wall_audio WINDOW_MS = Ok wall_analyzer
  /\ Forall (fun e => 0 <= e <= 1)%Q (energy wall_analyzer).
Proof.
  assert (H1 : AudioAnalyzer_init wall_audio WINDOW_MS = Ok wall_analyzer)
    by (vm_compute; reflexivity).
  split; [exact H1|].
  exact (energies_in_unit_interval _ _ _ H1).
Defined.

(** ** The ratio of a window to its baseline *)

Lemma np_sum_ge_elem (l : list Q) : forall j e,
  Forall (fun v => 0 <= v)%Q l -> l !! j = Some e -> (e <= np_sum l)%Q.
Proof.
  induction l as [|a l IH]; intros j e Hl Hj; [discriminate|].
  apply Forall_cons in Hl. destruct Hl as [Ha Hl].
  pose proof (np_sum_nonneg l Hl) as Hs.
  cbn [np_sum fold_right]. fold (np_sum l).
  destruct j as [|j]; cbn in Hj.
  - injection Hj as <-. lra.
  - pose proof (IH j e Hl Hj). lra.
Qed.

Lemma trailing_window_last N (en : list Q) i e :
  (1 <= N)%nat -> en !! i = Some e ->
  length (trailing_window N en i) = Nat.min (S i) N
  /\ trailing_window N en i !! (Nat.min (S i) N - 1)%nat = Some e.
Proof.
  intros HN Hi. pose proof (lookup_lt_Some _ _ _ Hi) as Hlt.
  rewrite trailing_window_eq. split.
  - rewrite length_drop, length_take. lia.
  - rewrite lookup_drop, lookup_take_lt by lia.
    replace (S i - N + (Nat.min (S i) N - 1))%nat with i by lia. exact Hi.
Qed.

Lemma elem_le_window_sum N (en : list Q) i e :
  (1 <= N)%nat -> Forall (fun v => 0 <= v)%Q en -> en !! i = Some e ->
  (e <= inject_Z (Z.of_nat (Nat.min (S i) N)) * mean (trailing_window N en i))%Q.
Proof.
  intros HN Hen Hi.
  destruct (trailing_window_last N en i e HN Hi) as [Hlen Hlast].
  assert (Hw : Forall (fun v => 0 <= v)%Q (trailing_window N en i)).
  { rewrite trailing_window_eq. now apply Forall_firstn_skipn. }
  pose proof (np_sum_ge_elem _ _ _ Hw Hlast) as Hle.
  unfold mean. rewrite Hlen.
  assert (Hpos : (0 < inject_Z (Z.of_nat (Nat.min (S i) N)))%Q).
  { change 0%Q with (inject_Z 0). rewrite <- Zlt_Qlt. lia. }
  assert (E : (inject_Z (Z.of_nat (Nat.min (S i) N))
               * (np_sum (trailing_window N en i)
                  / inject_Z (Z.of_nat (Nat.min (S i) N)))
               == np_sum (trailing_window N en i))%Q) by (field; lra).
  rewrite E. exact Hle.
Qed.

Lemma py_getitem_lookup {A} (l : list A) i v :
  0 <= i -> py_getitem l i = Ok v -> l !! Z.to_nat i = Some v.
Proof.
  intros Hi. unfold py_getitem.
  destruct (i <? 0) eqn:E; [lia|].
  destruct ((0 <=? i) && (i <? Z.of_nat (length l))); [|discriminate].
  destruct (l !! Z.to_nat i); [|discriminate]. now intros [= ->].
Qed.

Lemma lookup_py_getitem {A} (l : list A) i v :
  0 <= i -> l !! Z.to_nat i = Some v -> py_getitem l i = Ok v.
Proof.
  intros Hi Hl. pose proof (lookup_lt_Some _ _ _ Hl) as Hlt.
  unfold py_getitem.
  destruct (i <? 0) eqn:E; [lia|].
  destruct ((0 <=? i) && (i <? Z.of_nat (length l))) eqn:E2.
  - now rewrite Hl.
  - apply andb_false_iff in E2. destruct E2; lia.
Qed.

Lemma energy_ratio_inv a ms r :
  analyzer_ok a -> energy_ratio a ms = Ok r ->
  exists i e b,
    get_window_index_for_ms a ms = Ok i /\ 0 <= i <= num_windows a - 1
    /\ energy a !! Z.to_nat i = Some e /\ baseline a !! Z.to_nat i = Some b
    /\ r = (e / b)%Q.
Proof.
  intros [Hnw Hms Hel Hbl He Hb] Hr. unfold energy_ratio in Hr.
  rewrite get_window_index_Ok in * by exact Hms. cbn [mbind result_bind] in Hr.
  set (i := clamp _ 0 _) in *.
  assert (Hi : 0 <= i <= num_windows a - 1) by (unfold i, clamp; lia).
  destruct (py_getitem (energy a) i) as [e|] eqn:Ee; [|discriminate].
  destruct (py_getitem (baseline a) i) as [b|] eqn:Eb; [|discriminate].
  cbn [mbind result_bind] in Hr. apply py_div_Ok in Hr. destruct Hr as [_ ->].
  exists i, e, b. split; [reflexivity|]. split; [exact Hi|].
  split; [apply py_getitem_lookup; [lia | exact Ee]|].
  split; [apply py_getitem_lookup; [lia | exact Eb]|]. reflexivity.
Qed.

Lemma ratio_bound audio window_ms a ms i r :
  AudioAnalyzer_init audio window_ms = Ok a ->
  get_window_index_for_ms a ms = Ok i ->
  energy_ratio a ms = Ok r ->
  (0 <= r)%Q
  /\ (r < inject_Z (Z.min (i + 1) (Z.of_nat ENERGY_BASELINE_BUFFER)))%Q.
Proof.
  intros Hinit Hidx Hr.
  pose proof (AudioAnalyzer_init_ok _ _ _ Hinit) as Hok.
  destruct (energy_ratio_inv a ms r Hok Hr)
    as (i' & e & b & Hidx' & Hi & He & Hb & ->).
  rewrite Hidx in Hidx'. injection Hidx' as <-.
  destruct Hok as [Hnw Hms Hel Hbl Hen Hbs].
  pose proof (AudioAnalyzer_init_inv _ _ _ Hinit)
    as (_ & _ & _ & _ & _ & _ & _ & _ & _ & _ & _ & Hbase).
  assert (Hlt : (Z.to_nat i < length (energy a))%nat)
    by (eapply lookup_lt_Some, He).
  rewrite Hbase in Hb. unfold _compute_running_baseline in Hb.
  destruct (running_baseline_spec ENERGY_BASELINE_BUFFER buffer_ge_1
              (energy a) (Z.to_nat i) Hlt) as (v & Hv & Hvm).
  rewrite Hv in Hb. injection Hb as <-.
  pose proof (elem_le_window_sum ENERGY_BASELINE_BUFFER (energy a)
                (Z.to_nat i) e buffer_ge_1 Hen He) as Hle.
  set (w := trailing_window ENERGY_BASELINE_BUFFER (energy a) (Z.to_nat i)) in *.
  assert (Hm : (0 <= mean w)%Q).
  { apply mean_nonneg. unfold w. rewrite trailing_window_eq.
    now apply Forall_firstn_skipn. }
  assert (He0 : (0 <= e)%Q) by (exact (Forall_lookup_1 _ _ _ _ Hen He)).
  assert (Hvpos : (0 < v)%Q) by (rewrite Hvm; unfold eps; lra).
  replace (Z.min (i + 1) (Z.of_nat ENERGY_BASELINE_BUFFER))
    with (Z.of_nat (Nat.min (S (Z.to_nat i)) ENERGY_BASELINE_BUFFER)) by lia.
  set (n := inject_Z (Z.of_nat (Nat.min (S (Z.to_nat i)) ENERGY_BASELINE_BUFFER))) in *.
  assert (Hn : (0 < n)%Q).
  { unfold n. change 0%Q with (inject_Z 0). rewrite <- Zlt_Qlt.
    pose proof buffer_ge_1. lia. }
  split.
  - apply Qle_shift_div_l; [exact Hvpos|]. lra.
  - apply Qlt_shift_div_r; [exact Hvpos|]. rewrite Hvm.
    assert (0 < n * eps)%Q by (unfold eps; nra). nra.
Qed.

(** X3.  While the baseline buffer is filling (window [i] with
    [i + 1 <= ENERGY_BASELINE_BUFFER], before the first [popleft]), the
    ratio [spawn_logic] computes is non-negative and at most about [i + 1],
    the number of windows the baseline averages, since the energy of the
    window is one of the terms of that average.  The theorem bounds it by
    [i + 1 + 1/1000], a margin that float rounding does not reach; for the
    first window the ratio is at most 1, below [LOW_TH], and for the first
    two at most 2, below [HIGH_TH]. *)
Theorem early_ratio_bounds audio window_ms a ms i r :
  AudioAnalyzer_init audio window_ms = Ok a ->
  get_window_index_for_ms a ms = Ok i ->
  energy_ratio a ms = Ok r ->
  i + 1 <= Z.of_nat ENERGY_BASELINE_BUFFER ->
  (0 <= r)%Q
  /\ (r < inject_Z (i + 1) + (1 # 1000))%Q
  /\ (i = 0 -> (r <= 1)%Q /\ (r < LOW_TH)%Q)
  /\ (i <= 1 -> (r <= 2)%Q /\ (r < HIGH_TH)%Q).
Proof.
  intros Hinit Hidx Hr Hfill.
  destruct (ratio_bound _ _ _ _ _ _ Hinit Hidx Hr) as [H0 Hlt].
  rewrite Z.min_l in Hlt by exact Hfill.
  split; [exact H0|]. split; [lra|].
  split.
  - intros ->. change (inject_Z (0 + 1)) with 1%Q in Hlt.
    unfold LOW_TH. split; lra.
  - intros Hi1.
    assert (Hle : (inject_Z (i + 1) <= inject_Z 2)%Q)
      by (rewrite <- Zle_Qle; lia).
    change (inject_Z 2) with 2%Q in Hle. unfold HIGH_TH. split; lra.
Qed.

(** The second window of [wall_audio]: a ratio of 2 up to rounding. *)
Lemma early_ratio_bounds_witness :
  AudioAnalyzer_init wall_audio WINDOW_MS = Ok wall_analyzer
  /\ get_window_index_for_ms wall_analyzer 150 = Ok 1
  /\ energy_ratio wall_analyzer 150 = Ok second_window_ratio
  /\ 1 + 1 <= Z.of_nat ENERGY_BASELINE_BUFFER
  /\ (second_window_ratio <= 2)%Q.
Proof.
  assert (H1 : AudioAnalyzer_init wall_audio WINDOW_MS = Ok wall_analyzer)
    by (vm_compute; reflexivity).
  assert (H2 : get_window_index_for_ms wall_analyzer 150 = Ok 1)
    by (vm_compute; reflexivity).
  assert (H3 : energy_ratio wall_analyzer 150 = Ok second_window_ratio)
    by (vm_compute; reflexivity).
  assert (H4 : 1 + 1 <= Z.of_nat ENERGY_BASELINE_BUFFER)
    by (vm_compute; discriminate).
  split; [exact H1|]. split; [exact H2|]. split; [exact H3|].
  split; [exact H4|].
  assert (H5 : 1 <= 1) by lia.
  exact (proj1 (proj2 (proj2 (proj2
           (early_ratio_bounds _ _ _ _ _ _ H1 H2 H3 H4))) H5)).
Defined.

(** ** Looking a time up *)

Lemma py_int_div ms w :
  0 <= ms -> 0 < w -> py_int (inject_Z ms / inject_Z w) = ms / w.
Proof.
  intros Hms Hw. destruct w as [|p|p]; try lia.
  unfold py_int, Qdiv, Qinv, Qmult, inject_Z. cbn [Qnum Qden].
  rewrite Z.mul_1_r, Pos.mul_1_l. apply Z.quot_div_nonneg; lia.
Qed.

Lemma py_int_div_neg ms w :
  ms <= 0 -> 0 < w -> py_int (inject_Z ms / inject_Z w) <= 0.
Proof.
  intros Hms Hw.
  assert (Hw' : (0 < inject_Z w)%Q)
    by (change 0%Q with (inject_Z 0); now rewrite <- Zlt_Qlt).
  rewrite <- (py_int_zero (inject_Z 0 / inject_Z w)).
  - apply py_int_mono, Qdiv_le_mono; [exact Hw'|]. now rewrite <- Zle_Qle.
  - change (inject_Z 0) with 0%Q. field. lra.
Qed.

Lemma window_index_formula a ms :
  0 < ms_per_window a -> 1 <= num_windows a ->
  get_window_index_for_ms a ms
  = Ok (Z.max 0 (Z.min (num_windows a - 1) (ms / ms_per_window a))).
Proof.
  intros Hw Hnw. rewrite get_window_index_Ok by lia. f_equal. unfold clamp.
  destruct (Z_le_gt_dec 0 ms) as [Hms | Hms].
  - now rewrite py_int_div.
  - pose proof (py_int_div_neg ms (ms_per_window a) ltac:(lia) Hw).
    assert (ms / ms_per_window a < 0) by (apply Z.div_lt_upper_bound; lia).
    lia.
Qed.

(** X4.  For a constructed analyzer with a positive window length, the
    window of a time [ms] is [floor(ms / window_ms)] clamped to the track:
    window [k] covers the times [[k * window_ms, (k + 1) * window_ms)], the
    times before the track share window 0 and the times after it the last
    window.  [get_energy_for_ms] and [get_baseline_for_ms] return the
    entries of that window and never raise, and the ratio of [spawn_logic]
    is the Python quotient of the two entries: it raises
    [ZeroDivisionError] exactly when the baseline entry is zero. *)
Theorem window_lookup audio window_ms a ms :
  AudioAnalyzer_init audio window_ms = Ok a ->
  0 < window_ms ->
  exists k e b,
    get_window_index_for_ms a ms = Ok k
    /\ k = Z.max 0 (Z.min (num_windows a - 1) (ms / window_ms))
    /\ (forall k0, 0 <= k0 < num_windows a ->
          k0 * window_ms <= ms < (k0 + 1) * window_ms -> k = k0)
    /\ (ms < 0 -> k = 0)
    /\ (num_windows a * window_ms <= ms -> k = num_windows a - 1)
    /\ energy a !! Z.to_nat k = Some e
    /\ get_energy_for_ms a ms = Ok e
    /\ baseline a !! Z.to_nat k = Some b
    /\ get_baseline_for_ms a ms = Ok b
    /\ energy_ratio a ms = py_div e b.
Proof.
  intros Hinit Hw.
  pose proof (AudioAnalyzer_init_ok _ _ _ Hinit) as [Hnw Hms Hel Hbl Hen Hbs].
  assert (Hwa : ms_per_window a = window_ms).
  { apply AudioAnalyzer_init_inv in Hinit.
    destruct Hinit as (? & ? & _ & _ & _ & _ & _ & E & _). exact E. }
  pose proof (window_index_formula a ms ltac:(lia) Hnw) as Hidx.
  rewrite Hwa in Hidx.
  set (k := Z.max 0 (Z.min (num_windows a - 1) (ms / window_ms))) in *.
  assert (Hk : 0 <= k <= num_windows a - 1) by (unfold k; lia).
  destruct (energy a !! Z.to_nat k) as [e|] eqn:Ee;
    [|apply lookup_ge_None in Ee; lia].
  destruct (baseline a !! Z.to_nat k) as [b|] eqn:Eb;
    [|apply lookup_ge_None in Eb; lia].
  pose proof (lookup_py_getitem _ _ _ (proj1 Hk) Ee) as Ge.
  pose proof (lookup_py_getitem _ _ _ (proj1 Hk) Eb) as Gb.
  exists k, e, b.
  split; [exact Hidx|]. split; [reflexivity|].
  split; [|split; [|split]].
  - intros k0 Hk0 Hcov.
    assert (ms / window_ms = k0).
    { symmetry. apply (Z.div_unique ms window_ms k0 (ms - k0 * window_ms)); lia. }
    unfold k. lia.
  - intros Hneg.
    assert (ms / window_ms < 0) by (apply Z.div_lt_upper_bound; lia).
    unfold k. lia.
  - intros Hend.
    assert (num_windows a <= ms / window_ms)
      by (apply Z.div_le_lower_bound; lia).
    unfold k. lia.
  - split; [exact Ee|].
    split; [unfold get_energy_for_ms; rewrite Hidx; exact Ge|].
    split; [exact Eb|].
    split; [unfold get_baseline_for_ms; rewrite Hidx; exact Gb|].
    unfold energy_ratio. rewrite Hidx. cbn [mbind result_bind].
    rewrite Ge. cbn [mbind result_bind]. rewrite Gb. reflexivity.
Qed.

(** The window of [wall_audio] at 250 ms. *)
Lemma window_lookup_witness :
  AudioAnalyzer_init wall_audio WINDOW_MS = Ok wall_analyzer
  /\ 0 < WINDOW_MS
  /\ exists k e b,
       get_window_index_for_ms wall_analyzer 250 = Ok k
       /\ k = Z.max 0 (Z.min (num_windows wall_analyzer - 1) (250 / WINDOW_MS))
       /\ get_energy_for_ms wall_analyzer 250 = Ok e
       /\ get_baseline_for_ms wall_analyzer 250 = Ok b
       /\ energy_ratio wall_analyzer 250 = py_div e b.
Proof.
  assert (H1 : AudioAnalyzer_init wall_audio WINDOW_MS = Ok wall_analyzer)
    by (vm_compute; reflexivity).
  assert (H2 : 0 < WINDOW_MS) by (vm_compute; reflexivity).
  split; [exact H1|]. split; [exact H2|].
  destruct (window_lookup _ _ _ 250 H1 H2)
    as (k & e & b & Hk & Hf & _ & _ & _ & _ & He & _ & Hb & Hr).
  exists k, e, b. split; [exact Hk|]. split; [exact Hf|].
  split; [exact He|]. split; [exact Hb | exact Hr].
Defined.

(** ** How the constructor fails *)

(** X5.  The constructor raises in exactly three situations, in this
    order: [ValueError] when the samples of a multi-channel audio do not
    divide into frames (the reshape), [ValueError] when there is no sample
    (the peak of an empty array), [ZeroDivisionError] when the window holds
    no sample ([samples_per_window] is 0, as for [window_ms = 0]).  In
    every other case it returns an analyzer. *)
Theorem constructor_failure_modes audio window_ms :
  (1 < channels audio ->
   Z.of_nat (length (array_of_samples audio)) mod channels audio <> 0 ->
   AudioAnalyzer_init audio window_ms = Raise ValueError)
  /\ (array_of_samples audio = [] ->
      AudioAnalyzer_init audio window_ms = Raise ValueError)
  /\ (array_of_samples audio <> [] ->
      (1 < channels audio ->
       Z.of_nat (length (array_of_samples audio)) mod channels audio = 0) ->
      (spw_of audio window_ms = 0 ->
       AudioAnalyzer_init audio window_ms = Raise ZeroDivisionError)
      /\ (spw_of audio window_ms <> 0 ->
          exists a, AudioAnalyzer_init audio window_ms = Ok a))
  /\ spw_of audio 0 = 0.
Proof.
  split; [|split; [|split]].
  - intros Hch Hmod. unfold AudioAnalyzer_init, mono_samples, mono_mix.
    rewrite length_map.
    destruct (channels audio >? 1) eqn:E; [|lia].
    destruct (Z.of_nat (length (array_of_samples audio)) mod channels audio =? 0)
      eqn:E2; [lia|]. reflexivity.
  - intros Hnil. unfold AudioAnalyzer_init, mono_samples, mono_mix.
    rewrite Hnil. cbn [map length Z.of_nat].
    destruct (channels audio >? 1); [|reflexivity].
    rewrite Zmod_0_l, Zdiv_0_l. reflexivity.
  - intros Hne Hframes.
    destruct (mono_samples_Ok audio Hframes) as (s1 & Hs1 & Hlen).
    pose proof (frame_count_pos audio Hne Hframes) as Hpos.
    assert (Hs1ne : s1 <> []) by (intros ->; cbn in Hlen; lia).
    split.
    + intros Hspw. unfold AudioAnalyzer_init. rewrite Hs1.
      cbn [mbind result_bind].
      destruct s1 as [|h t]; [congruence|]. cbn [map np_max mbind result_bind].
      rewrite Hspw. reflexivity.
    + intros Hspw. now apply (AudioAnalyzer_init_total audio window_ms s1).
  - apply spw_of_zero.
Qed.

(** ** The player *)

Lemma py_int_inject q z : (q == inject_Z z)%Q -> py_int q = z.
Proof.
  intros E. destruct (Z_le_gt_dec 0 z) as [H | H].
  - rewrite py_int_nonneg.
    + rewrite E. apply Qfloor_Z.
    + rewrite E. change 0%Q with (inject_Z 0). now rewrite <- Zle_Qle.
  - rewrite py_int_neg.
    + rewrite E. apply Qceiling_Z.
    + rewrite E. change 0%Q with (inject_Z 0). rewrite <- Zle_Qle. lia.
Qed.

Lemma lane_height_60 : (LANE_HEIGHT == 60)%Q.
Proof. reflexivity. Qed.

Lemma Player_height_48 : Player_height = 48.
Proof. reflexivity. Qed.

Lemma lane_to_y_eq l : lane_to_y l = 60 * l + 6.
Proof.
  unfold lane_to_y. rewrite Player_height_48. apply py_int_inject.
  rewrite inject_Z_plus, inject_Z_mult, lane_height_60.
  change (inject_Z 60) with 60%Q. change (inject_Z 6) with 6%Q.
  change (inject_Z 48) with 48%Q. field.
Qed.

Lemma apply_move_in_field p m :
  player_in_field p -> player_in_field (apply_move p m).
Proof.
  intros (Hl & Ht & Hy).
  destruct m; unfold player_in_field, apply_move, move_up, move_down, clamp;
    cbn [lane target_lane y]; unfold LANES in *; (split; [lia|]; split; [lia|exact Hy]).
Qed.

Lemma moves_in_field ms : forall p,
  player_in_field p -> player_in_field (fold_left apply_move ms p).
Proof.
  induction ms as [|m ms IH]; intros p Hp; [exact Hp|].
  cbn [fold_left]. apply IH, apply_move_in_field, Hp.
Qed.

Lemma Player_update_in_field p ticks :
  player_in_field p -> player_in_field (Player_update p ticks).
Proof.
  intros (Hl & Ht & Hy). unfold Player_update.
  assert (Hty : (inject_Z (lane_to_y 0) <= inject_Z (lane_to_y (target_lane p))
                 <= inject_Z (lane_to_y (LANES - 1)))%Q).
  { rewrite <- !Zle_Qle. rewrite !lane_to_y_eq. unfold LANES in *. lia. }
  destruct (Qltb _ 1); unfold player_in_field; cbn [lane target_lane y].
  - split; [exact Ht|]. split; [exact Ht|]. exact Hty.
  - split; [exact Hl|]. split; [exact Ht|].
    set (ty := inject_Z (lane_to_y (target_lane p))) in *.
    set (lo := inject_Z (lane_to_y 0)) in *.
    set (hi := inject_Z (lane_to_y (LANES - 1))) in *.
    clearbody ty lo hi. split; lra.
Qed.

Lemma Player_init_in_field : player_in_field Player_init.
Proof.
  unfold player_in_field. split_and!; vm_compute; discriminate.
Qed.

Lemma boredom_player g ms :
  lane (player (boredom g ms)) = lane (player g)
  /\ target_lane (player (boredom g ms)) = target_lane (player g)
  /\ y (player (boredom g ms)) = y (player g).
Proof.
  unfold boredom. destruct (_ && _); repeat split.
Qed.

Lemma spawn_logic_player g ms rng g' :
  spawn_logic g ms rng = Ok g' ->
  lane (player g') = lane (player g)
  /\ target_lane (player g') = target_lane (player g)
  /\ y (player g') = y (player g).
Proof.
  intros H. apply spawn_logic_inv in H.
  destruct H as (ratio & flow & _ & _ & Hout & ->).
  destruct (audio_outcome_keeps _ _ _ _ _ Hout) as (_ & Hp & _).
  destruct flow as [g1 | g1]; cbn [flow_game] in Hp.
  - destruct (boredom_player g1 ms) as (H1 & H2 & H3).
    rewrite H1, H2, H3, Hp. repeat split.
  - rewrite Hp. repeat split.
Qed.

Lemma tick_player g i g' :
  tick g i = Ok g' ->
  let p := Player_update (fold_left apply_move (moves i) (player g))
                         (pygame_ticks i) in
  lane (player g') = lane p
  /\ target_lane (player g') = target_lane p
  /\ y (player g') = y p.
Proof.
  intros H. unfold tick in H.
  destruct (spawn_logic _ (music_pos i) (rng i)) as [g1|] eqn:E; [|discriminate].
  cbn [mbind result_bind] in H.
  destruct (mark_passed_and_count _ _) as [count om]. injection H as <-.
  cbn [player]. apply spawn_logic_player in E. cbn [player set_player] in E.
  exact E.
Qed.

Lemma tick_in_field g i g' :
  tick g i = Ok g' -> player_in_field (player g) -> player_in_field (player g').
Proof.
  intros H Hp. apply tick_player in H. cbv zeta in H.
  destruct H as (H1 & H2 & H3).
  pose proof (Player_update_in_field _ (pygame_ticks i)
                (moves_in_field (moves i) _ Hp)) as Hq.
  unfold player_in_field in *. rewrite H1, H2, H3. exact Hq.
Qed.

Lemma run_in_field inputs : forall g g',
  run g inputs = Ok g' -> player_in_field (player g) ->
  player_in_field (player g').
Proof.
  induction inputs as [|i rest IH]; intros g g' H Hp.
  - injection H as <-. exact Hp.
  - rewrite run_cons in H. destruct (tick g i) as [g1|] eqn:E; [|discriminate].
    cbn [mbind result_bind] in H.
    eapply IH; [exact H|]. eapply tick_in_field; eassumption.
Qed.

(** X6.  On every run from the initial state, whatever keys are pressed,
    the player's lane and target lane stay in [[0, LANES - 1]] and its y
    position stays between the positions of the first and the last lane. *)
Theorem player_stays_in_field (a : AudioAnalyzer) (inputs : list TickInput)
    (g : Game) :
  run (Game_init a) inputs = Ok g ->
  0 <= lane (player g) <= LANES - 1
  /\ 0 <= target_lane (player g) <= LANES - 1
  /\ (inject_Z (lane_to_y 0) <= y (player g)
      <= inject_Z (lane_to_y (LANES - 1)))%Q.
Proof.
  intros H. apply (run_in_field inputs (Game_init a) g H).
  apply Player_init_in_field.
Qed.

(** The player at the end of the run of [wall_inputs]. *)
Lemma player_stays_in_field_witness :
  run (Game_init wall_analyzer) wall_inputs = Ok wall_game
  /\ 0 <= lane (player wall_game) <= LANES - 1.
Proof.
  assert (H1 : run (Game_init wall_analyzer) wall_inputs = Ok wall_game)
    by (vm_compute; reflexivity).
  split; [exact H1|].
  exact (proj1 (player_stays_in_field _ _ _ H1)).
Defined.

(** ** The way to the target lane *)

Lemma settled_update p ticks : settled p -> Player_update p ticks = p.
Proof.
  intros [Hl Hy]. unfold Player_update. rewrite Hy.
  assert (E : Qltb (Qabs (inject_Z (lane_to_y (target_lane p))
                          - inject_Z (lane_to_y (target_lane p)))) 1 = true).
  { apply Qltb_lt. rewrite Qabs_wd with (y := 0%Q) by ring. reflexivity. }
  rewrite E, <- Hl, Z.eqb_refl. destruct p; cbn in *. subst. reflexivity.
Qed.

Lemma settled_updates ts : forall p,
  settled p -> fold_left Player_update ts p = p.
Proof.
  induction ts as [|t ts IH]; intros p Hp; [reflexivity|].
  cbn [fold_left]. rewrite settled_update by exact Hp. now apply IH.
Qed.

Lemma update_step p ticks :
  let ty := inject_Z (lane_to_y (target_lane p)) in
  let p' := Player_update p ticks in
  target_lane p' = target_lane p
  /\ ((Qabs (ty - y p) < 1)%Q -> settled p')
  /\ ((1 <= Qabs (ty - y p))%Q ->
      lane p' = lane p
      /\ last_lane_change_ms p' = last_lane_change_ms p
      /\ (Qabs (ty - y p') == (6 # 10) * Qabs (ty - y p))%Q).
Proof.
  cbv zeta. unfold Player_update.
  destruct (Qltb (Qabs _) 1) eqn:E.
  - split; [reflexivity|]. split.
    + intros _. split; reflexivity.
    + intros H. apply Qltb_lt in E. lra.
  - split; [reflexivity|]. split.
    + intros H. apply Qltb_lt in H. congruence.
    + intros _. cbn [lane last_lane_change_ms y target_lane].
      split; [reflexivity|]. split; [reflexivity|].
      set (ty := inject_Z (lane_to_y (target_lane p))).
      assert (E1 : (ty - (y p + (ty - y p) * (4 # 10))
                    == (6 # 10) * (ty - y p))%Q) by ring.
      rewrite E1, Qabs_Qmult. reflexivity.
Qed.

Lemma updates_settle n : forall p ts,
  length ts = S n ->
  (Qabs (inject_Z (lane_to_y (target_lane p)) - y p)
   < Nat.iter n (Qmult (10 # 6)) 1)%Q ->
  settled (fold_left Player_update ts p)
  /\ target_lane (fold_left Player_update ts p) = target_lane p.
Proof.
  induction n as [|n IH]; intros p ts Hlen Hd.
  - destruct ts as [|t [|? ?]]; try discriminate. cbn [fold_left Nat.iter] in *.
    destruct (update_step p t) as (Ht & Hs & _). split; [now apply Hs | exact Ht].
  - destruct ts as [|t ts]; [discriminate|]. cbn [fold_left].
    destruct (update_step p t) as (Ht & Hs & Hm).
    destruct (Qlt_le_dec (Qabs (inject_Z (lane_to_y (target_lane p)) - y p)) 1)
      as [Hlt | Hge].
    + specialize (Hs Hlt). rewrite settled_updates by exact Hs.
      split; [exact Hs | exact Ht].
    + destruct (Hm Hge) as (_ & _ & Hd').
      destruct (IH (Player_update p t) ts) as [H1 H2].
      * cbn [length] in Hlen. lia.
      * rewrite Ht, Hd'.
        change (Nat.iter (S n) (Qmult (10 # 6)) 1%Q)
          with ((10 # 6) * Nat.iter n (Qmult (10 # 6)) 1)%Q in Hd.
        set (B := Nat.iter n (Qmult (10 # 6)) 1%Q) in *.
        set (d := Qabs _) in *. clearbody B d. lra.
      * split; [exact H1 | congruence].
Qed.

(** X7.  A lane change completes: from any position inside the field, 14
    calls of [update] (or more) without a new key press bring the player
    into its target lane, at exactly the y position of that lane. *)
Theorem lane_change_completes (p : Player) (ts : list Z) :
  0 <= target_lane p <= LANES - 1 ->
  (inject_Z (lane_to_y 0) <= y p <= inject_Z (lane_to_y (LANES - 1)))%Q ->
  (14 <= length ts)%nat ->
  let p' := fold_left Player_update ts p in
  lane p' = target_lane p
  /\ target_lane p' = target_lane p
  /\ y p' = inject_Z (lane_to_y (target_lane p)).
Proof.
  intros Ht Hy Hlen. cbv zeta.
  rewrite <- (firstn_skipn 14 ts), fold_left_app.
  destruct (updates_settle 13 p (firstn 14 ts)) as [Hs Htl].
  - rewrite length_take. lia.
  - assert (Hty : (inject_Z (lane_to_y 0) <= inject_Z (lane_to_y (target_lane p))
                   <= inject_Z (lane_to_y (LANES - 1)))%Q).
    { rewrite <- !Zle_Qle. rewrite !lane_to_y_eq. unfold LANES in *. lia. }
    assert (Hb : (Qabs (inject_Z (lane_to_y (target_lane p)) - y p) <= 540)%Q).
    { apply Qabs_Qle_condition.
      assert (E0 : inject_Z (lane_to_y 0) = 6%Q) by reflexivity.
      assert (E9 : inject_Z (lane_to_y (LANES - 1)) = 546%Q) by reflexivity.
      rewrite E0, E9 in *. lra. }
    eapply Qle_lt_trans; [exact Hb|]. vm_compute. reflexivity.
  - rewrite settled_updates by exact Hs.
    destruct Hs as [Hl Hyt]. rewrite Hl, Hyt, Htl. repeat split.
Qed.

(** Two lanes down, in 14 frames. *)
Lemma lane_change_completes_witness :
  0 <= target_lane moving_player <= LANES - 1
  /\ (inject_Z (lane_to_y 0) <= y moving_player
      <= inject_Z (lane_to_y (LANES - 1)))%Q
  /\ (14 <= length (replicate 14 0))%nat
  /\ lane (fold_left Player_update (replicate 14 0) moving_player) = 7.
Proof.
  assert (H1 : 0 <= target_lane moving_player <= LANES - 1)
    by (split; vm_compute; discriminate).
  assert (H2 : (inject_Z (lane_to_y 0) <= y moving_player
                <= inject_Z (lane_to_y (LANES - 1)))%Q)
    by (split; vm_compute; discriminate).
  assert (H3 : (14 <= length (replicate 14 0))%nat) by (vm_compute; lia).
  split; [exact H1|]. split; [exact H2|]. split; [exact H3|].
  exact (proj1 (lane_change_completes moving_player (replicate 14 0) H1 H2 H3)).
Defined.

(** X8.  Away from the edges of the field [move_up] and [move_down] undo
    each other; in the first lane [move_up] does nothing, in the last lane
    [move_down] does nothing. *)
Theorem moves_cancel_and_stop_at_edges (p : Player) :
  0 <= target_lane p <= LANES - 1 ->
  (0 < target_lane p -> move_down (move_up p) = p)
  /\ (target_lane p < LANES - 1 -> move_up (move_down p) = p)
  /\ (target_lane p = 0 -> move_up p = p)
  /\ (target_lane p = LANES - 1 -> move_down p = p).
Proof.
  intros Ht. destruct p as [l t yy ms]. cbn [target_lane] in *.
  unfold move_up, move_down, clamp, LANES in *. cbn [lane target_lane y last_lane_change_ms].
  split_and!; intros H; f_equal; lia.
Qed.

(** Up and down from the middle lane. *)
Lemma moves_cancel_and_stop_at_edges_witness :
  0 <= target_lane Player_init <= LANES - 1
  /\ (0 < target_lane Player_init -> move_down (move_up Player_init) = Player_init).
Proof.
  assert (H1 : 0 <= target_lane Player_init <= LANES - 1)
    by (split; vm_compute; discriminate).
  split; [exact H1|].
  exact (proj1 (moves_cancel_and_stop_at_edges Player_init H1)).
Defined.

(** ** Rectangles *)

Lemma row_lane row :
  60 * lane_of_row row <= row < 60 * lane_of_row row + 60.
Proof.
  unfold lane_of_row. change (SCREEN_H / LANES) with 60.
  pose proof (Z.div_mod row 60 ltac:(lia)).
  pose proof (Z.mod_pos_bound row 60 ltac:(lia)). lia.
Qed.

Lemma obstacle_rect_rows o :
  rect_top (Obstacle_get_rect o) = 60 * lane_start o
  /\ rect_height (Obstacle_get_rect o) = 60 * lane_count o.
Proof.
  unfold Obstacle_get_rect. cbn [rect_top rect_height].
  split; apply py_int_inject; rewrite inject_Z_mult, lane_height_60;
    change (inject_Z 60) with 60%Q; ring.
Qed.

Lemma player_rect_rows p :
  settled p ->
  rect_top (Player_get_rect p) = 60 * lane p + 6
  /\ rect_height (Player_get_rect p) = 48.
Proof.
  intros [Hl Hy]. unfold Player_get_rect. cbn [rect_top rect_height].
  split; [|reflexivity].
  rewrite Hy, Hl, <- lane_to_y_eq. apply py_int_inject. reflexivity.
Qed.

(** X9.  The rectangle of an obstacle covers exactly the pixel rows of the
    lanes it occupies.  The rectangle of a player that has arrived in its
    lane lies inside the rows of that lane, so it shares a row with the
    rectangle of an obstacle exactly when the obstacle occupies the
    player's lane. *)
Theorem rectangles_follow_lanes (o : Obstacle) (p : Player) :
  (forall row, in_rows (Obstacle_get_rect o) row
               <-> covers o (lane_of_row row) = true)
  /\ (settled p ->
      (forall row, in_rows (Player_get_rect p) row -> lane_of_row row = lane p)
      /\ ((exists row, in_rows (Player_get_rect p) row
                       /\ in_rows (Obstacle_get_rect o) row)
          <-> covers o (lane p) = true)).
Proof.
  destruct (obstacle_rect_rows o) as [Hot Hoh].
  assert (Hrows : forall row, in_rows (Obstacle_get_rect o) row
                              <-> covers o (lane_of_row row) = true).
  { intros row. unfold in_rows, covers. rewrite Hot, Hoh, in_range_true.
    pose proof (row_lane row). lia. }
  split; [exact Hrows|].
  intros Hs. destruct (player_rect_rows p Hs) as [Hpt Hph].
  assert (Hin : forall row, in_rows (Player_get_rect p) row ->
                            lane_of_row row = lane p).
  { intros row. unfold in_rows. rewrite Hpt, Hph.
    pose proof (row_lane row). lia. }
  split; [exact Hin|]. split.
  - intros (row & Hp & Ho). apply Hrows in Ho. now rewrite (Hin row Hp) in Ho.
  - intros Hc. exists (60 * lane p + 6). split.
    + unfold in_rows. rewrite Hpt, Hph. lia.
    + apply Hrows.
      assert (E : lane_of_row (60 * lane p + 6) = lane p).
      { pose proof (row_lane (60 * lane p + 6)). lia. }
      now rewrite E.
Qed.

(** ** What one call of [spawn_logic] does to the obstacles *)

Lemma placement_search_range obs lc rng start :
  0 <= lc <= LANES ->
  placement_search obs lc rng = Ok (Some start) -> 0 <= start <= LANES - lc.
Proof.
  intros Hlc H.
  destruct (placement_trials_spec obs lc rng 8 0%nat Hlc) as (r & Hr & Hspec).
  unfold placement_search in H. rewrite H in Hr. injection Hr as <-.
  destruct Hspec as (j & _ & _ & Hrange & _). exact Hrange.
Qed.

Lemma audio_outcome_score g ms ratio rng flow :
  audio_outcome g ms ratio rng flow ->
  score (flow_game flow) = score g
  /\ obstacles_dodged (flow_game flow) = obstacles_dodged g.
Proof. intros H. destruct H; repeat split. Qed.

Lemma boredom_score g ms :
  score (boredom g ms) = score g
  /\ obstacles_dodged (boredom g ms) = obstacles_dodged g
  /\ player (boredom g ms)
     = (if bored g ms then set_last_lane_change_ms (player g) ms else player g).
Proof. unfold boredom, bored. destruct (_ && _); repeat split. Qed.

Lemma spawn_logic_shape g ms rng g' :
  spawn_logic g ms rng = Ok g' ->
  exists ratio added f tail,
    energy_ratio (analyzer g) ms = Ok ratio
    /\ obstacles (ob_manager g')
       = map f (obstacles (ob_manager g) ++ added) ++ tail
    /\ (added = [] \/
        exists t0 c t lc start,
          MIN_SPAWN_INTERVAL_MS <= ms - last_spawn_ms (ob_manager g)
          /\ classify_tier ratio (recent_high_count g) (rand rng)
             = Some (Some t0, c)
          /\ heavy_cooldown (Some t0) ms (last_heavy_ms (ob_manager g)) = Some t
          /\ choose_lane_count t (choice rng) = Ok lc
          /\ 0 <= start <= LANES - lc
          /\ added = [Obstacle_init start lc spawn_x])
    /\ ((f = (fun o => o) /\ tail = [] /\ player g' = player g) \/
        (f = push_forward
         /\ tail = [Obstacle_init (lane (player g)) 1 spawn_x]
         /\ 500 < ms - last_lane_change_ms (player g)
         /\ player g' = set_last_lane_change_ms (player g) ms))
    /\ last_heavy_ms (ob_manager g')
       = (if existsb (fun o => lane_count o >=? 4) added then ms
          else last_heavy_ms (ob_manager g))
    /\ spawn_events g ms rng
       = Ok (map (fun _ => (ms, EnergySpawn)) added
             ++ map (fun _ => (ms, BoredomSpawn)) tail)
    /\ score g' = score g
    /\ obstacles_dodged g' = obstacles_dodged g.
Proof.
  intros H. apply spawn_logic_inv in H.
  destruct H as (ratio & flow & Hr & Hfl & Hout & ->).
  destruct (audio_outcome_keeps _ _ _ _ _ Hout) as (_ & Hp & _).
  destruct (audio_outcome_score _ _ _ _ _ Hout) as (Hsc & Hdg).
  assert (Hmid : exists added,
            obstacles (ob_manager (flow_game flow))
              = obstacles (ob_manager g) ++ added
            /\ last_heavy_ms (ob_manager (flow_game flow))
               = (if existsb (fun o => lane_count o >=? 4) added then ms
                  else last_heavy_ms (ob_manager g))
            /\ (added = [] \/
                exists t0 c t lc start,
                  MIN_SPAWN_INTERVAL_MS <= ms - last_spawn_ms (ob_manager g)
                  /\ classify_tier ratio (recent_high_count g) (rand rng)
                     = Some (Some t0, c)
                  /\ heavy_cooldown (Some t0) ms (last_heavy_ms (ob_manager g))
                     = Some t
                  /\ choose_lane_count t (choice rng) = Ok lc
                  /\ 0 <= start <= LANES - lc
                  /\ added = [Obstacle_init start lc spawn_x])).
  { destruct (audio_outcome_obstacles _ _ _ _ _ Hout)
      as [(Ho & _ & Hh) | (t0 & c & t & lc & start & Hg & Hc & Ht & Hlc & Hpl & ->)].
    - exists []. rewrite app_nil_r. split; [exact Ho|].
      split; [exact Hh | now left].
    - exists [Obstacle_init start lc spawn_x]. split; [reflexivity|].
      split; [cbn; now rewrite orb_false_r|].
      right. exists t0, c, t, lc, start.
      pose proof (choose_lane_count_range _ _ _ Hlc) as (Hrange & _).
      assert (Hst : 0 <= start <= LANES - lc).
      { apply (placement_search_range (obstacles (ob_manager g)) lc rng);
          [unfold LANES; lia | exact Hpl]. }
      repeat (split; [assumption|]). reflexivity. }
  destruct Hmid as (added & Hobs & Hheavy & Hadded).
  assert (Hev : (if (obstacle_count g <? obstacle_count (flow_game flow))%nat
                 then [(ms, EnergySpawn)] else [])
                = map (fun _ => (ms, EnergySpawn)) added).
  { unfold obstacle_count. rewrite Hobs, length_app.
    destruct Hadded as [-> | (? & ? & ? & ? & ? & _ & _ & _ & _ & _ & ->)];
      cbn [length map].
    - rewrite Nat.add_0_r, Nat.ltb_irrefl. reflexivity.
    - destruct (_ <? _)%nat eqn:E; [reflexivity|].
      apply Nat.ltb_ge in E. lia. }
  unfold spawn_events. rewrite Hr. cbn [mbind result_bind]. rewrite Hfl.
  cbn [mbind result_bind]. cbv zeta. rewrite Hev.
  exists ratio, added.
  destruct flow as [g1 | g1]; cbn [flow_game] in *.
  - destruct (boredom_keeps g1 ms) as (_ & _ & Hbh & _).
    destruct (boredom_score g1 ms) as (Hbs & Hbd & Hbp).
    destruct (bored g1 ms) eqn:Hb.
    + destruct (boredom_fires g1 ms Hb) as (Ho & _ & _).
      exists push_forward, [Obstacle_init (lane (player g)) 1 spawn_x].
      split; [reflexivity|]. split; [rewrite Ho, Hobs; unfold tiny_of; now rewrite Hp|].
      split; [exact Hadded|]. split.
      { right. split; [reflexivity|]. split; [reflexivity|]. split.
        - unfold bored in Hb. rewrite Hp in Hb. zbool. lia.
        - rewrite Hbp. now rewrite Hp. }
      split; [congruence|]. split; [|split; congruence].
      unfold obstacle_count at 1 2. rewrite Ho, length_app, length_map.
      cbn [length map].
      assert (E : (length (obstacles (ob_manager g1))
                   <? length (obstacles (ob_manager g1)) + 1)%nat = true)
        by (apply Nat.ltb_lt; lia).
      now rewrite E.
    + rewrite (boredom_idle g1 ms Hb).
      exists (fun o => o), []. rewrite map_id, app_nil_r.
      split; [reflexivity|]. split; [exact Hobs|]. split; [exact Hadded|].
      split; [left; repeat split; exact Hp|]. split; [exact Hheavy|].
      rewrite Nat.ltb_irrefl. cbn [map]. repeat split; assumption.
  - exists (fun o => o), []. rewrite map_id, app_nil_r.
    split; [reflexivity|]. split; [exact Hobs|]. split; [exact Hadded|].
    split; [left; repeat split; exact Hp|]. split; [exact Hheavy|].
    cbn [map]. rewrite app_nil_r. repeat split; assumption.
Qed.

Lemma push_forward_same o : same_but_x o (push_forward o).
Proof.
  unfold push_forward, same_but_x. destruct (conflicting o); repeat split.
Qed.

Lemma push_forward_x o :
  x (push_forward o) = x o \/ x (push_forward o) = (x o + 180)%Q.
Proof.
  unfold push_forward. destruct (conflicting o); [right | left]; reflexivity.
Qed.

Lemma push_forward_new start lc :
  push_forward (Obstacle_init start lc spawn_x)
  = Obstacle_init start lc (spawn_x + 180).
Proof. reflexivity. Qed.

(** X10.  One call of [spawn_logic] never removes or reorders an obstacle
    and adds at most two.  An obstacle already there keeps its lanes, its
    width and its [passed] flag; its x position stays or grows by exactly
    180 pixels.  A new obstacle is not passed, 40 pixels wide, and sits at
    the spawn position [SCREEN_W + SPAWN_AHEAD_PIXELS] or 180 pixels
    further (an energy-driven spawn that the boredom spawn of the same call
    pushes forward). *)
Theorem spawn_logic_adds_at_most_two (g g' : Game) (ms : Z) (rng : Rng) :
  spawn_logic g ms rng = Ok g' ->
  let obs := obstacles (ob_manager g) in
  let obs' := obstacles (ob_manager g') in
  (length obs <= length obs' <= length obs + 2)%nat
  /\ (forall j o, obs !! j = Some o ->
        exists o', obs' !! j = Some o' /\ same_but_x o o'
                   /\ (x o' = x o \/ x o' = (x o + 180)%Q))
  /\ Forall (fun o => passed o = false /\ width o = 40%Q
                      /\ (x o = spawn_x \/ x o = (spawn_x + 180)%Q))
            (skipn (length obs) obs').
Proof.
  intros H. cbv zeta.
  destruct (spawn_logic_shape g ms rng g' H)
    as (ratio & added & f & tail & _ & Ho & Hadded & Hf & _).
  rewrite Ho, map_app, <- app_assoc.
  assert (Hf' : forall o, same_but_x o (f o)
                          /\ (x (f o) = x o \/ x (f o) = (x o + 180)%Q)).
  { intros o. destruct Hf as [(-> & _) | (-> & _)].
    - split; [repeat split | now left].
    - split; [apply push_forward_same | apply push_forward_x]. }
  assert (Hla : (length added <= 1)%nat).
  { destruct Hadded as [-> | (? & ? & ? & ? & ? & _ & _ & _ & _ & _ & ->)];
      cbn; lia. }
  assert (Hlt : (length tail <= 1)%nat).
  { destruct Hf as [(_ & -> & _) | (_ & -> & _)]; cbn; lia. }
  split; [rewrite !length_app, !length_map; lia|]. split.
  - intros j o Hj. exists (f o). split; [|apply Hf'].
    rewrite lookup_app_l by (rewrite length_map; eapply lookup_lt_Some, Hj).
    now rewrite list_lookup_fmap, Hj.
  - rewrite <- (length_map f (obstacles (ob_manager g))) at 1.
    rewrite skipn_app, Nat.sub_diag, skipn_all. cbn [app skipn].
    apply Forall_app. split.
    + destruct Hadded as [-> | (? & ? & ? & lc & start & _ & _ & _ & _ & _ & ->)];
        [constructor|].
      cbn [map]. constructor; [|constructor].
      destruct Hf as [(-> & _) | (-> & _)].
      * split; [reflexivity|]. split; [reflexivity | now left].
      * rewrite push_forward_new. split; [reflexivity|].
        split; [reflexivity | now right].
    + destruct Hf as [(_ & -> & _) | (_ & -> & _)]; [constructor|].
      constructor; [|constructor].
      split; [reflexivity|]. split; [reflexivity | now left].
Qed.

(** The call of [cooldown_game]. *)
Lemma spawn_logic_adds_at_most_two_witness :
  spawn_logic cooldown_game 1300 (const_rng (1 # 2) 1 0) = Ok cooldown_game'
  /\ (length (obstacles (ob_manager cooldown_game))
      <= length (obstacles (ob_manager cooldown_game'))
      <= length (obstacles (ob_manager cooldown_game)) + 2)%nat.
Proof.
  assert (H1 : spawn_logic cooldown_game 1300 (const_rng (1 # 2) 1 0)
               = Ok cooldown_game') by (vm_compute; reflexivity).
  split; [exact H1|].
  exact (proj1 (spawn_logic_adds_at_most_two _ _ _ _ H1)).
Defined.

(** ** Obstacles stay inside the field *)

Lemma same_but_x_in_field o o' :
  same_but_x o o' -> obstacle_in_field o -> obstacle_in_field o'.
Proof.
  intros (H1 & H2 & H3 & _) (A & B & C & D). unfold obstacle_in_field.
  rewrite H1, H2, H3. repeat split; try assumption; lia.
Qed.

Lemma spawn_logic_in_field g ms rng g' :
  spawn_logic g ms rng = Ok g' ->
  0 <= lane (player g) <= LANES - 1 ->
  Forall obstacle_in_field (obstacles (ob_manager g)) ->
  Forall obstacle_in_field (obstacles (ob_manager g')).
Proof.
  intros H Hp Hobs.
  destruct (spawn_logic_shape g ms rng g' H)
    as (ratio & added & f & tail & _ & Ho & Hadded & Hf & _).
  rewrite Ho.
  assert (Hf' : forall o, same_but_x o (f o)).
  { intros o. destruct Hf as [(-> & _) | (-> & _)];
      [repeat split | apply push_forward_same]. }
  apply Forall_app. split.
  - apply Forall_map. apply Forall_app. split.
    + eapply Forall_impl; [exact Hobs|]. intros o Ho'. cbv beta.
      eapply same_but_x_in_field; [apply Hf' | exact Ho'].
    + destruct Hadded as [-> | (? & ? & t & lc & start & _ & _ & _ & Hlc & Hst & ->)];
        [constructor|].
      constructor; [|constructor].
      eapply same_but_x_in_field; [apply Hf'|].
      pose proof (choose_lane_count_range _ _ _ Hlc) as (Hrange & _).
      unfold obstacle_in_field. cbn [Obstacle_init lane_count lane_start width].
      repeat split; try lia.
  - destruct Hf as [(_ & -> & _) | (_ & -> & _)]; [constructor|].
    constructor; [|constructor].
    unfold obstacle_in_field. cbn [Obstacle_init lane_count lane_start width].
    repeat split; lia.
Qed.

Lemma update_in_field om dt ms :
  Forall obstacle_in_field (obstacles om) ->
  Forall obstacle_in_field (obstacles (update om dt ms)).
Proof.
  intros H. unfold update. cbn [obstacles].
  apply List.Forall_forall. intros o Ho.
  apply filter_In in Ho. destruct Ho as [Ho _].
  apply in_map_iff in Ho. destruct Ho as (o0 & <- & Ho0).
  rewrite List.Forall_forall in H. exact (H o0 Ho0).
Qed.

Lemma mark_in_field o : obstacle_in_field o -> obstacle_in_field (mark o).
Proof. unfold mark. destruct (just_passed o); auto. Qed.

Lemma mark_passed_in_field om l :
  Forall obstacle_in_field (obstacles om) ->
  Forall obstacle_in_field (obstacles (snd (mark_passed_and_count om l))).
Proof.
  intros H. unfold mark_passed_and_count.
  rewrite mark_passed_loop_spec. cbn [snd obstacles].
  apply Forall_map. eapply Forall_impl; [exact H|]. apply mark_in_field.
Qed.

Lemma tick_obstacles g i g' :
  tick g i = Ok g' ->
  exists g1,
    spawn_logic (before_spawn g i) (music_pos i) (rng i) = Ok g1
    /\ ob_manager g'
       = snd (mark_passed_and_count
                (update (ob_manager g1) (inject_Z (dt_ms i) / 1000)
                        (music_pos i))
                (lane (player g1)))
    /\ obstacles_dodged g'
       = obstacles_dodged g1
         + fst (mark_passed_and_count
                  (update (ob_manager g1) (inject_Z (dt_ms i) / 1000)
                          (music_pos i))
                  (lane (player g1)))
    /\ score g' = (score g1 + inject_Z (dt_ms i) / 1000 * 1)%Q
    /\ player g' = player g1.
Proof.
  intros H. unfold tick in H. fold (before_spawn g i) in H.
  destruct (spawn_logic _ (music_pos i) (rng i)) as [g1|] eqn:E; [|discriminate].
  cbn [mbind result_bind] in H. exists g1. split; [reflexivity|].
  destruct (mark_passed_and_count _ _) as [count om]. injection H as <-.
  cbn. repeat split.
Qed.

Lemma tick_field_inv g i g' :
  tick g i = Ok g' ->
  player_in_field (player g) ->
  Forall obstacle_in_field (obstacles (ob_manager g)) ->
  Forall obstacle_in_field (obstacles (ob_manager g')).
Proof.
  intros H Hp Hobs.
  destruct (tick_obstacles g i g' H) as (g1 & Hs & -> & _).
  apply mark_passed_in_field, update_in_field.
  apply (spawn_logic_in_field _ _ _ _ Hs).
  - unfold before_spawn. cbn [player set_player].
    apply (Player_update_in_field _ (pygame_ticks i)
             (moves_in_field (moves i) _ Hp)).
  - exact Hobs.
Qed.

Lemma run_field_inv inputs : forall g g',
  run g inputs = Ok g' ->
  player_in_field (player g) ->
  Forall obstacle_in_field (obstacles (ob_manager g)) ->
  Forall obstacle_in_field (obstacles (ob_manager g')).
Proof.
  induction inputs as [|i rest IH]; intros g g' H Hp Hobs.
  - injection H as <-. exact Hobs.
  - rewrite run_cons in H. destruct (tick g i) as [g1|] eqn:E; [|discriminate].
    cbn [mbind result_bind] in H.
    apply (IH g1 g' H).
    + eapply tick_in_field; eassumption.
    + eapply tick_field_inv; eassumption.
Qed.

(** X11.  On every run from the initial state every obstacle of the
    manager lies inside the field: it occupies between 1 and 6 lanes, all of
    them in [[0, LANES)], and it is 40 pixels wide. *)
Theorem obstacles_stay_in_field (a : AudioAnalyzer) (inputs : list TickInput)
    (g : Game) :
  run (Game_init a) inputs = Ok g ->
  Forall (fun o => 1 <= lane_count o <= 6
                   /\ 0 <= lane_start o
                   /\ lane_start o + lane_count o <= LANES
                   /\ width o = 40%Q)
         (obstacles (ob_manager g)).
Proof.
  intros H. apply (run_field_inv inputs (Game_init a) g H).
  - apply Player_init_in_field.
  - constructor.
Qed.

(** The obstacles at the end of the run of [wall_inputs]. *)
Lemma obstacles_stay_in_field_witness :
  run (Game_init wall_analyzer) wall_inputs = Ok wall_game
  /\ Forall (fun o => 1 <= lane_count o <= 6
                      /\ 0 <= lane_start o
                      /\ lane_start o + lane_count o <= LANES
                      /\ width o = 40%Q)
            (obstacles (ob_manager wall_game)).
Proof.
  assert (H1 : run (Game_init wall_analyzer) wall_inputs = Ok wall_game)
    by (vm_compute; reflexivity).
  split; [exact H1|].
  exact (obstacles_stay_in_field _ _ _ H1).
Defined.

(** ** Calls that add no heavy obstacle *)

Lemma classify_tier_high ratio c u c' :
  classify_tier ratio c u = Some (Some high, c') ->
  c = 0 /\ (HIGH_TH <= ratio)%Q.
Proof.
  unfold classify_tier.
  destruct (Qgeb ratio HIGH_TH) eqn:E1.
  - apply Qgeb_ge in E1. destruct (c =? 0) eqn:E2.
    + zbool. intros _. split; [exact E2 | exact E1].
    + destruct (c =? 1); discriminate.
  - destruct (Qgeb ratio MEDIUM_TH); [discriminate|].
    destruct (Qgeb ratio LOW_TH); [discriminate|].
    destruct (Qltb u (5 # 100)); discriminate.
Qed.

Lemma spawn_logic_light g ms rng g' :
  spawn_logic g ms rng = Ok g' ->
  (forall ratio c,
     energy_ratio (analyzer g) ms = Ok ratio ->
     classify_tier ratio (recent_high_count g) (rand rng)
     <> Some (Some high, c)) ->
  Forall (fun o => lane_count o < 4)
         (skipn (obstacle_count g) (obstacles (ob_manager g')))
  /\ last_heavy_ms (ob_manager g') = last_heavy_ms (ob_manager g).
Proof.
  intros H Hno.
  destruct (spawn_logic_shape g ms rng g' H)
    as (ratio & added & f & tail & Hr & Ho & Hadded & Hf & Hh & _).
  assert (Hlight : Forall (fun o => lane_count o < 4) added).
  { destruct Hadded as [-> | (t0 & c & t & lc & start & _ & Hc & Ht & Hlc & _ & ->)];
      [constructor|].
    constructor; [|constructor]. cbn [Obstacle_init lane_count].
    destruct (heavy_cooldown_Some t0 ms (last_heavy_ms (ob_manager g)))
      as (t' & Ht' & _ & Hsame).
    rewrite Ht in Ht'. injection Ht' as <-.
    assert (Ht0 : t0 <> high).
    { intros ->. exact (Hno ratio c Hr Hc). }
    rewrite (Hsame Ht0) in Hlc.
    pose proof (choose_lane_count_range _ _ _ Hlc) as (_ & Hlow & _).
    now apply Hlow. }
  assert (Hfl : forall o, lane_count (f o) = lane_count o).
  { intros o. destruct Hf as [(-> & _) | (-> & _)];
      [reflexivity | apply push_forward_lanes]. }
  split.
  - unfold obstacle_count. rewrite Ho, map_app, <- app_assoc.
    rewrite <- (length_map f (obstacles (ob_manager g))) at 1.
    rewrite skipn_app, Nat.sub_diag, skipn_all. cbn [app skipn].
    apply Forall_app. split.
    + apply Forall_map. eapply Forall_impl; [exact Hlight|].
      intros o Hlt. cbv beta. now rewrite Hfl.
    + destruct Hf as [(_ & -> & _) | (_ & -> & _)]; [constructor|].
      constructor; [|constructor]. cbn. lia.
  - rewrite Hh.
    assert (E : existsb (fun o => lane_count o >=? 4) added = false).
    { clear -Hlight. induction Hlight as [|o l Hlt _ IH]; [reflexivity|].
      cbn [existsb]. rewrite IH, orb_false_r.
      destruct (lane_count o >=? 4) eqn:E; [zbool; zbool; lia | reflexivity]. }
    now rewrite E.
Qed.

(** X12.  While the streak counter is not zero a call of [spawn_logic] adds
    no obstacle of 4 lanes or more, however high the ratio and however long
    ago the last heavy obstacle: the tier [high] needs a counter of zero. *)
Theorem streak_blocks_heavy (g g' : Game) (ms : Z) (rng : Rng) :
  spawn_logic g ms rng = Ok g' ->
  recent_high_count g <> 0 ->
  Forall (fun o => lane_count o < 4)
         (skipn (obstacle_count g) (obstacles (ob_manager g')))
  /\ last_heavy_ms (ob_manager g') = last_heavy_ms (ob_manager g).
Proof.
  intros H Hc. apply (spawn_logic_light g ms rng g' H).
  intros ratio c _ Hcl. apply classify_tier_high in Hcl. tauto.
Qed.

(** A high ratio 700 ms after the last heavy spawn, with a streak counter of 1:
    3 lanes. *)
Lemma streak_blocks_heavy_witness :
  spawn_logic second_high_game 1700 (const_rng (1 # 2) 1 0)
  = Ok second_high_game'
  /\ recent_high_count second_high_game <> 0
  /\ HEAVY_COOLDOWN_MS <= 1700 - last_heavy_ms (ob_manager second_high_game)
  /\ Forall (fun o => lane_count o < 4)
            (skipn (obstacle_count second_high_game)
                   (obstacles (ob_manager second_high_game'))).
Proof.
  assert (H1 : spawn_logic second_high_game 1700 (const_rng (1 # 2) 1 0)
               = Ok second_high_game') by (vm_compute; reflexivity).
  assert (H2 : recent_high_count second_high_game <> 0)
    by (vm_compute; discriminate).
  split; [exact H1|]. split; [exact H2|].
  split; [vm_compute; discriminate|].
  exact (proj1 (streak_blocks_heavy _ _ _ _ H1 H2)).
Defined.

(** X13.  During the first two windows of a constructed analyzer a call of
    [spawn_logic] adds no obstacle of 4 lanes or more: the ratio of window
    [i] is below [i + 1], so it cannot reach [HIGH_TH] before the third
    window. *)
Theorem early_windows_never_heavy audio window_ms (g g' : Game) (ms i : Z)
    (rng : Rng) :
  AudioAnalyzer_init audio window_ms = Ok (analyzer g) ->
  get_window_index_for_ms (analyzer g) ms = Ok i ->
  i <= 1 ->
  spawn_logic g ms rng = Ok g' ->
  Forall (fun o => lane_count o < 4)
         (skipn (obstacle_count g) (obstacles (ob_manager g')))
  /\ last_heavy_ms (ob_manager g') = last_heavy_ms (ob_manager g).
Proof.
  intros Hinit Hidx Hi H. apply (spawn_logic_light g ms rng g' H).
  intros ratio c Hr Hcl. apply classify_tier_high in Hcl.
  destruct Hcl as [_ Hhigh].
  destruct (ratio_bound _ _ _ _ _ _ Hinit Hidx Hr) as [_ Hlt].
  assert (Hle : (inject_Z (Z.min (i + 1) (Z.of_nat ENERGY_BASELINE_BUFFER))
                 <= inject_Z 2)%Q) by (rewrite <- Zle_Qle; lia).
  change (inject_Z 2) with 2%Q in Hle. unfold HIGH_TH in Hhigh. lra.
Qed.

(** The first spawn on [wall_audio], at 150 ms: 3 lanes. *)
Lemma early_windows_never_heavy_witness :
  AudioAnalyzer_init wall_audio WINDOW_MS
  = Ok (analyzer (Game_init wall_analyzer))
  /\ get_window_index_for_ms (analyzer (Game_init wall_analyzer)) 150 = Ok 1
  /\ 1 <= 1
  /\ spawn_logic (Game_init wall_analyzer) 150 (const_rng (1 # 2) 1 0)
     = Ok early_game'
  /\ Forall (fun o => lane_count o < 4)
            (skipn (obstacle_count (Game_init wall_analyzer))
                   (obstacles (ob_manager early_game'))).
Proof.
  assert (H1 : AudioAnalyzer_init wall_audio WINDOW_MS
               = Ok (analyzer (Game_init wall_analyzer)))
    by (vm_compute; reflexivity).
  assert (H2 : get_window_index_for_ms (analyzer (Game_init wall_analyzer)) 150
               = Ok 1) by (vm_compute; reflexivity).
  assert (H3 : 1 <= 1) by lia.
  assert (H4 : spawn_logic (Game_init wall_analyzer) 150 (const_rng (1 # 2) 1 0)
               = Ok early_game') by (vm_compute; reflexivity).
  split; [exact H1|]. split; [exact H2|]. split; [exact H3|]. split; [exact H4|].
  exact (proj1 (early_windows_never_heavy _ _ _ _ _ _ _ H1 H2 H3 H4)).
Defined.

(** ** The quiet return *)

Lemma classify_tier_quiet ratio c u :
  (ratio < LOW_TH)%Q -> (5 # 100 <= u)%Q -> classify_tier ratio c u = None.
Proof.
  intros Hr Hu. unfold classify_tier.
  assert (E1 : Qgeb ratio HIGH_TH = false).
  { destruct (Qgeb ratio HIGH_TH) eqn:E; [|reflexivity].
    apply Qgeb_ge in E. unfold HIGH_TH, LOW_TH in *. lra. }
  assert (E2 : Qgeb ratio MEDIUM_TH = false).
  { destruct (Qgeb ratio MEDIUM_TH) eqn:E; [|reflexivity].
    apply Qgeb_ge in E. unfold MEDIUM_TH, LOW_TH in *. lra. }
  assert (E3 : Qgeb ratio LOW_TH = false).
  { destruct (Qgeb ratio LOW_TH) eqn:E; [|reflexivity].
    apply Qgeb_ge in E. lra. }
  assert (E4 : Qltb u (5 # 100) = false).
  { destruct (Qltb u (5 # 100)) eqn:E; [|reflexivity].
    apply Qltb_lt in E. lra. }
  now rewrite E1, E2, E3, E4.
Qed.

(** X14.  When the spawn gate is open, the ratio is below [LOW_TH] and the
    5% draw fails, [spawn_logic] returns at once: the state is unchanged,
    and no boredom spawn is made even when one is due.  When the gate is
    closed the call is the boredom block alone. *)
Theorem quiet_call_returns_early (g : Game) (ms : Z) (rng : Rng) (ratio : Q) :
  energy_ratio (analyzer g) ms = Ok ratio ->
  (MIN_SPAWN_INTERVAL_MS <= ms - last_spawn_ms (ob_manager g) ->
   (ratio < LOW_TH)%Q -> (5 # 100 <= rand rng)%Q ->
   spawn_logic g ms rng = Ok g)
  /\ (ms - last_spawn_ms (ob_manager g) < MIN_SPAWN_INTERVAL_MS ->
      spawn_logic g ms rng = Ok (boredom g ms)).
Proof.
  intros Hr. unfold spawn_logic. rewrite Hr. cbn [mbind result_bind].
  unfold audio_driven. split.
  - intros Hgate Hq Hu.
    destruct (ms - last_spawn_ms (ob_manager g) >=? MIN_SPAWN_INTERVAL_MS) eqn:E;
      [|zbool; zbool; lia].
    now rewrite classify_tier_quiet.
  - intros Hgate.
    destruct (ms - last_spawn_ms (ob_manager g) >=? MIN_SPAWN_INTERVAL_MS) eqn:E;
      [zbool; zbool; lia|]. reflexivity.
Qed.

(** The call at 459 ms of the run of [quiet_inputs]. *)
Lemma quiet_call_returns_early_witness :
  energy_ratio (analyzer quiet_game) (music_pos quiet_tick) = Ok quiet_ratio
  /\ MIN_SPAWN_INTERVAL_MS
     <= music_pos quiet_tick - last_spawn_ms (ob_manager quiet_game)
  /\ (quiet_ratio < LOW_TH)%Q
  /\ (5 # 100 <= rand (rng quiet_tick))%Q
  /\ spawn_logic quiet_game (music_pos quiet_tick) (rng quiet_tick)
     = Ok quiet_game.
Proof.
  assert (H1 : energy_ratio (analyzer quiet_game) (music_pos quiet_tick)
               = Ok quiet_ratio) by (vm_compute; reflexivity).
  assert (H2 : MIN_SPAWN_INTERVAL_MS
               <= music_pos quiet_tick - last_spawn_ms (ob_manager quiet_game))
    by (vm_compute; discriminate).
  assert (H3 : (quiet_ratio < LOW_TH)%Q) by (vm_compute; reflexivity).
  assert (H4 : (5 # 100 <= rand (rng quiet_tick))%Q) by (vm_compute; discriminate).
  split; [exact H1|]. split; [exact H2|]. split; [exact H3|]. split; [exact H4|].
  exact (proj1 (quiet_call_returns_early _ _ _ _ H1) H2 H3 H4).
Defined.

(** ** The boredom spawn *)

Lemma push_forward_clear o :
  (x (push_forward o) <= spawn_x - 120 \/ spawn_x + 60 < x (push_forward o))%Q.
Proof.
  unfold push_forward. destruct (conflicting o) eqn:E.
  - right. unfold conflicting in E. apply andb_true_iff in E.
    destruct E as [_ E]. apply Qltb_lt in E.
    cbn [set_x x].
    assert (Hs : spawn_x = 1700%Q) by reflexivity.
    assert (Hsh : inject_Z shift_amount = 180%Q) by reflexivity.
    assert (Hsp : inject_Z OBSTACLE_SPEED = 300%Q) by reflexivity.
    rewrite Hs, Hsh in *. rewrite Hsp in E.
    set (d := (x o - 1700)%Q) in *.
    assert (Hd : (Qabs d < 120)%Q).
    { assert (E' : (Qabs (d / 300) == Qabs d * (1 # 300))%Q).
      { unfold Qdiv. rewrite Qabs_Qmult. reflexivity. }
      rewrite E' in E. lra. }
    apply Qabs_Qlt_condition in Hd. unfold d in Hd. lra.
  - unfold conflicting in E. apply andb_false_iff in E.
    assert (Hs : spawn_x = 1700%Q) by reflexivity.
    assert (Hsp : inject_Z OBSTACLE_SPEED = 300%Q) by reflexivity.
    assert (Hpx : inject_Z PLAYER_X = 100%Q) by reflexivity.
    rewrite Hs in *. rewrite Hsp, Hpx in E.
    destruct E as [E | E].
    + left. destruct (Qlt_le_dec 100 (x o)) as [H | H]; [|lra].
      apply Qgtb_gt in H. congruence.
    + set (d := (x o - 1700)%Q) in *.
      assert (Hd : (120 <= Qabs d)%Q).
      { destruct (Qlt_le_dec (Qabs d) 120) as [H | H]; [|exact H].
        exfalso.
        assert (Hlt : Qltb (Qabs (d / 300)) (4 # 10) = true).
        { apply Qltb_lt.
          assert (E' : (Qabs (d / 300) == Qabs d * (1 # 300))%Q).
          { unfold Qdiv. rewrite Qabs_Qmult. reflexivity. }
          rewrite E'. lra. }
        congruence. }
      destruct (Qlt_le_dec d 0) as [Hneg | Hpos].
      * left. rewrite Qabs_neg in Hd by lra. unfold d in *. lra.
      * right. rewrite Qabs_pos in Hd by lra. unfold d in *. lra.
Qed.

(** X15.  A boredom spawn resets both [last_spawn_ms] and the player's
    [last_lane_change_ms] to the current time, so that no boredom spawn is
    due during the next 500 ms; it puts its one-lane obstacle in the
    player's lane at the spawn position, and leaves that position clear: every other obstacle is afterwards at least 120 pixels before it
    or more than 60 pixels behind it, so no 40 pixel wide obstacle overlaps
    the new one horizontally. *)
Theorem boredom_spawn_clears_column (g : Game) (ms : Z) :
  bored g ms = true ->
  let g' := boredom g ms in
  obstacles (ob_manager g')
  = map push_forward (obstacles (ob_manager g))
    ++ [Obstacle_init (lane (player g)) 1 spawn_x]
  /\ last_spawn_ms (ob_manager g') = ms
  /\ last_lane_change_ms (player g') = ms
  /\ (forall ms', ms' <= ms + 500 -> bored g' ms' = false)
  /\ Forall (fun o => (x o <= spawn_x - 120 \/ spawn_x + 60 < x o)%Q
                      /\ (width o == 40 ->
                          x o + width o < spawn_x \/ spawn_x + 40 < x o)%Q)
            (map push_forward (obstacles (ob_manager g))).
Proof.
  intros Hb. cbv zeta.
  destruct (boredom_fires g ms Hb) as (Ho & Hs & _).
  split; [exact Ho|]. split; [exact Hs|].
  assert (Hl : last_lane_change_ms (player (boredom g ms)) = ms).
  { unfold boredom. unfold bored in Hb. rewrite Hb. reflexivity. }
  split; [exact Hl|]. split.
  - intros ms' Hms'. unfold bored. rewrite Hl.
    destruct (ms' - ms >? 500) eqn:E; [zbool; lia | reflexivity].
  - apply Forall_map. apply List.Forall_forall. intros o _. cbv beta.
    pose proof (push_forward_clear o) as Hc.
    split; [exact Hc|]. intros Hw. rewrite Hw. lra.
Qed.

(** The boredom spawn at 510 ms of the run of [wall_inputs]. *)
Lemma boredom_spawn_clears_column_witness :
  bored (before_spawn wall_game wall_tick) (music_pos wall_tick) = true
  /\ last_spawn_ms (ob_manager (boredom (before_spawn wall_game wall_tick)
                                        (music_pos wall_tick)))
     = music_pos wall_tick.
Proof.
  assert (H1 : bored (before_spawn wall_game wall_tick) (music_pos wall_tick)
               = true) by (vm_compute; reflexivity).
  split; [exact H1|].
  exact (proj1 (proj2 (boredom_spawn_clears_column _ _ H1))).
Defined.

(** ** When a heavy obstacle is spawned *)

(** X16.  A call of [spawn_logic] adds an obstacle of 4 lanes or more only
    when the spawn gate is open, the ratio has reached [HIGH_TH], the
    streak counter is zero and the last heavy spawn is at least
    [HEAVY_COOLDOWN_MS] back; the call then sets [last_heavy_ms] to the
    current time and the streak counter to 1. *)
Theorem heavy_spawn_conditions (g g' : Game) (ms : Z) (rng : Rng) (ratio : Q) :
  spawn_logic g ms rng = Ok g' ->
  energy_ratio (analyzer g) ms = Ok ratio ->
  existsb (fun o => 4 <=? lane_count o)
          (skipn (obstacle_count g) (obstacles (ob_manager g'))) = true ->
  MIN_SPAWN_INTERVAL_MS <= ms - last_spawn_ms (ob_manager g)
  /\ (HIGH_TH <= ratio)%Q
  /\ recent_high_count g = 0
  /\ HEAVY_COOLDOWN_MS <= ms - last_heavy_ms (ob_manager g)
  /\ last_heavy_ms (ob_manager g') = ms
  /\ recent_high_count g' = 1.
Proof.
  intros H Hr Hexb.
  assert (Hex : Exists (fun o => 4 <= lane_count o)
                  (skipn (obstacle_count g) (obstacles (ob_manager g')))).
  { apply List.Exists_exists. apply existsb_exists in Hexb.
    destruct Hexb as (o & Hin & Hle). exists o. split; [exact Hin|].
    zbool. lia. }
  clear Hexb.
  pose proof (spawn_logic_streak g ms rng g' ratio H Hr) as (_ & _ & Hstreak & _).
  destruct (spawn_logic_shape g ms rng g' H)
    as (ratio' & added & f & tail & Hr' & Ho & Hadded & Hf & Hh & _).
  rewrite Hr in Hr'. injection Hr' as <-.
  assert (Hfl : forall o, lane_count (f o) = lane_count o).
  { intros o. destruct Hf as [(-> & _) | (-> & _)];
      [reflexivity | apply push_forward_lanes]. }
  unfold obstacle_count in Hex. rewrite Ho, map_app, <- app_assoc in Hex.
  rewrite <- (length_map f (obstacles (ob_manager g))) in Hex at 1.
  rewrite skipn_app, Nat.sub_diag, skipn_all in Hex. cbn [app skipn] in Hex.
  apply Exists_app in Hex.
  assert (Hheavy : Exists (fun o => 4 <= lane_count o) added).
  { destruct Hex as [Hex | Hex].
    - apply List.Exists_exists in Hex. destruct Hex as (o' & Hin & Hlc).
      apply in_map_iff in Hin. destruct Hin as (o & <- & Hin).
      rewrite Hfl in Hlc. apply List.Exists_exists. eauto.
    - exfalso. destruct Hf as [(_ & -> & _) | (_ & -> & _)].
      + inversion Hex.
      + inversion Hex as [? ? Hlc | ? ? Hn]; [cbn in Hlc; lia | inversion Hn]. }
  destruct Hadded as [-> | (t0 & c & t & lc & start & Hgate & Hc & Ht & Hlc & _ & ->)];
    [inversion Hheavy|].
  inversion Hheavy as [? ? Hlc4 | ? ? Hn]; [|inversion Hn].
  cbn [Obstacle_init lane_count] in Hlc4.
  pose proof (choose_lane_count_range _ _ _ Hlc) as (_ & Hlow & _).
  assert (Hth : t = high).
  { destruct (Tier_eq_dec t high) as [E | E]; [exact E|].
    specialize (Hlow E). lia. }
  subst t.
  destruct (heavy_cooldown_Some t0 ms (last_heavy_ms (ob_manager g)))
    as (t' & Ht' & Hcool & Hsame).
  rewrite Ht in Ht'. injection Ht' as <-.
  assert (Ht0 : t0 = high).
  { destruct (Tier_eq_dec t0 high) as [E | E]; [exact E|].
    symmetry. now apply Hsame. }
  subst t0. apply classify_tier_high in Hc. destruct Hc as [Hc0 Hhigh].
  split; [exact Hgate|]. split; [exact Hhigh|]. split; [exact Hc0|]. split.
  - destruct (Z_lt_le_dec (ms - last_heavy_ms (ob_manager g)) HEAVY_COOLDOWN_MS)
      as [Hlt | Hge]; [|exact Hge].
    exfalso. now apply (Hcool Hlt).
  - split.
    + rewrite Hh. cbn [existsb Obstacle_init lane_count].
      destruct (lc >=? 4) eqn:E; [reflexivity | zbool; zbool; lia].
    + rewrite (Hstreak Hgate Hhigh), Hc0. reflexivity.
Qed.

(** A spawn of 5 lanes, 700 ms after the last heavy one. *)
Lemma heavy_spawn_conditions_witness :
  spawn_logic cooldown_game 1700 (const_rng (1 # 2) 1 0) = Ok heavy_game'
  /\ energy_ratio (analyzer cooldown_game) 1700 = Ok spike_ratio
  /\ existsb (fun o => 4 <=? lane_count o)
             (skipn (obstacle_count cooldown_game)
                    (obstacles (ob_manager heavy_game'))) = true
  /\ last_heavy_ms (ob_manager heavy_game') = 1700.
Proof.
  assert (H1 : spawn_logic cooldown_game 1700 (const_rng (1 # 2) 1 0)
               = Ok heavy_game') by (vm_compute; reflexivity).
  assert (H2 : energy_ratio (analyzer cooldown_game) 1700 = Ok spike_ratio)
    by (vm_compute; reflexivity).
  assert (H3 : existsb (fun o => 4 <=? lane_count o)
                 (skipn (obstacle_count cooldown_game)
                        (obstacles (ob_manager heavy_game'))) = true)
    by (vm_compute; reflexivity).
  split; [exact H1|]. split; [exact H2|]. split; [exact H3|].
  exact (proj1 (proj2 (proj2 (proj2 (proj2
           (heavy_spawn_conditions _ _ _ _ _ H1 H2 H3)))))).
Defined.

(** ** Moving the obstacles *)

Lemma moved_twice (obs : list Obstacle) dt1 dt2 :
  (0 <= dt2)%Q ->
  Forall2 same_obstacle
    (List.filter (fun o => Qgtb (x o + width o) (-50))
       (map (fun o => Obstacle_update o dt2)
          (List.filter (fun o => Qgtb (x o + width o) (-50))
             (map (fun o => Obstacle_update o dt1) obs))))
    (List.filter (fun o => Qgtb (x o + width o) (-50))
       (map (fun o => Obstacle_update o (dt1 + dt2)) obs)).
Proof.
  intros Hdt. induction obs as [|o obs IH]; [constructor|].
  cbn [map List.filter].
  assert (Hsp : inject_Z OBSTACLE_SPEED = 300%Q) by reflexivity.
  destruct (Qgtb (x (Obstacle_update o dt1) + width (Obstacle_update o dt1)) (-50))
    eqn:E1;
  destruct (Qgtb (x (Obstacle_update o (dt1 + dt2))
                  + width (Obstacle_update o (dt1 + dt2))) (-50)) eqn:E12;
  cbn [map List.filter].
  - destruct (Qgtb (x (Obstacle_update (Obstacle_update o dt1) dt2)
                    + width (Obstacle_update (Obstacle_update o dt1) dt2)) (-50))
      eqn:E2.
    + constructor; [|exact IH].
      unfold same_obstacle, Obstacle_update, set_x.
      cbn [lane_start lane_count x width passed]. rewrite Hsp.
      split_and!; try reflexivity. ring.
    + exfalso. apply Qgtb_gt in E12.
      assert (Hn : ~ (-50 < x (Obstacle_update (Obstacle_update o dt1) dt2)
                      + width (Obstacle_update (Obstacle_update o dt1) dt2))%Q).
      { intros Hc. apply Qgtb_gt in Hc. congruence. }
      apply Hn. unfold Obstacle_update, set_x in *.
      cbn [x width] in *. rewrite Hsp in *. lra.
  - destruct (Qgtb (x (Obstacle_update (Obstacle_update o dt1) dt2)
                    + width (Obstacle_update (Obstacle_update o dt1) dt2)) (-50))
      eqn:E2; [|exact IH].
    exfalso. apply Qgtb_gt in E2.
    assert (Hn : ~ (-50 < x (Obstacle_update o (dt1 + dt2))
                    + width (Obstacle_update o (dt1 + dt2)))%Q).
    { intros Hc. apply Qgtb_gt in Hc. congruence. }
    apply Hn. unfold Obstacle_update, set_x in *.
    cbn [x width] in *. rewrite Hsp in *. lra.
  - exfalso. apply Qgtb_gt in E12.
    assert (Hn : ~ (-50 < x (Obstacle_update o dt1)
                    + width (Obstacle_update o dt1))%Q).
    { intros Hc. apply Qgtb_gt in Hc. congruence. }
    apply Hn. unfold Obstacle_update, set_x in *.
    cbn [x width] in *. rewrite Hsp in *. lra.
  - exact IH.
Qed.

(** X17.  Moving the obstacles is independent of how the time is cut into
    frames: two calls of [ObstacleManager.update] with frame times [dt1]
    and [dt2 >= 0] leave the same obstacles, in the same order and at the
    same positions, as one call with [dt1 + dt2]; an obstacle removed by
    the first call would have been removed by the single call too. *)
Theorem update_composes (om : ObstacleManager) (dt1 dt2 : Q) (ms1 ms2 ms : Z) :
  (0 <= dt2)%Q ->
  Forall2 same_obstacle
    (obstacles (update (update om dt1 ms1) dt2 ms2))
    (obstacles (update om (dt1 + dt2) ms))
  /\ last_spawn_ms (update (update om dt1 ms1) dt2 ms2) = last_spawn_ms om
  /\ last_heavy_ms (update (update om dt1 ms1) dt2 ms2) = last_heavy_ms om.
Proof.
  intros Hdt. split; [|split; reflexivity].
  unfold update. cbn [obstacles]. now apply moved_twice.
Qed.

(** Two frames of 17 ms and one of 34 ms. *)
Lemma update_composes_witness :
  (0 <= 17 # 1000)%Q
  /\ Forall2 same_obstacle
       (obstacles (update (update (spawn ObstacleManager_init 4 2 0)
                                  (17 # 1000) 17) (17 # 1000) 34))
       (obstacles (update (spawn ObstacleManager_init 4 2 0)
                          ((17 # 1000) + (17 # 1000)) 34)).
Proof.
  assert (H1 : (0 <= 17 # 1000)%Q) by (vm_compute; discriminate).
  split; [exact H1|].
  exact (proj1 (update_composes (spawn ObstacleManager_init 4 2 0)
                  (17 # 1000) (17 # 1000) 17 34 34 H1)).
Defined.

(** ** Obstacles that have not passed yet *)

Lemma mark_awaiting o : awaiting (mark o).
Proof.
  unfold mark, awaiting. destruct (just_passed o) eqn:E.
  - cbn. discriminate.
  - intros Hp. unfold just_passed in E. rewrite Hp in E. cbn in E.
    destruct (Qlt_le_dec (x o + width o) (inject_Z PLAYER_X)) as [H | H];
      [|exact H].
    apply Qltb_lt in H. congruence.
Qed.

Lemma mark_passed_awaiting om l :
  Forall awaiting (obstacles (snd (mark_passed_and_count om l))).
Proof.
  unfold mark_passed_and_count. rewrite mark_passed_loop_spec.
  cbn [snd obstacles]. apply Forall_map, List.Forall_forall.
  intros o _. apply mark_awaiting.
Qed.

Lemma spawn_logic_awaiting g ms rng g' :
  spawn_logic g ms rng = Ok g' ->
  Forall awaiting (obstacles (ob_manager g)) ->
  Forall awaiting (obstacles (ob_manager g')).
Proof.
  intros H Hobs.
  destruct (spawn_logic_shape g ms rng g' H)
    as (ratio & added & f & tail & _ & Ho & Hadded & Hf & _).
  rewrite Ho.
  assert (Hf' : forall o, awaiting o -> awaiting (f o)).
  { intros o Hw. destruct Hf as [(-> & _) | (-> & _)]; [exact Hw|].
    destruct (push_forward_same o) as (_ & _ & Hwd & Hpa).
    unfold awaiting in *. rewrite Hwd, Hpa. intros Hp. specialize (Hw Hp).
    destruct (push_forward_x o) as [-> | ->]; lra. }
  apply Forall_app. split.
  - apply Forall_map. apply Forall_app. split.
    + eapply Forall_impl; [exact Hobs|]. exact Hf'.
    + destruct Hadded as [-> | (? & ? & ? & lc & start & _ & _ & _ & _ & _ & ->)];
        [constructor|].
      constructor; [|constructor]. apply Hf'. intros _. cbn. discriminate.
  - destruct Hf as [(_ & -> & _) | (_ & -> & _)]; [constructor|].
    constructor; [|constructor]. intros _. cbn. discriminate.
Qed.

Lemma update_keeps_unpassed (obs : list Obstacle) (dt : Q) :
  (dt < 1 # 2)%Q -> Forall awaiting obs ->
  unpassed (List.filter (fun o => Qgtb (x o + width o) (-50))
                        (map (fun o => Obstacle_update o dt) obs))
  = map (fun o => Obstacle_update o dt) (unpassed obs).
Proof.
  intros Hdt Hobs. unfold unpassed.
  induction Hobs as [|o obs Ho _ IH]; [reflexivity|].
  cbn [map List.filter].
  assert (Hsp : inject_Z OBSTACLE_SPEED = 300%Q) by reflexivity.
  assert (Hpx : inject_Z PLAYER_X = 100%Q) by reflexivity.
  destruct (passed o) eqn:Hp; cbn [negb].
  - destruct (Qgtb _ _); cbn [List.filter]; [|exact IH].
    unfold Obstacle_update at 1. cbn [set_x passed]. rewrite Hp. exact IH.
  - assert (E : Qgtb (x (Obstacle_update o dt) + width (Obstacle_update o dt))
                     (-50) = true).
    { apply Qgtb_gt. specialize (Ho Hp). unfold Obstacle_update, set_x.
      cbn [x width]. rewrite Hsp. rewrite Hpx in Ho. lra. }
    rewrite E. cbn [List.filter].
    unfold Obstacle_update at 1. cbn [set_x passed]. rewrite Hp. cbn [negb map].
    f_equal. exact IH.
Qed.

Lemma tick_awaiting g i g' :
  tick g i = Ok g' -> Forall awaiting (obstacles (ob_manager g')).
Proof.
  intros H. destruct (tick_obstacles g i g' H) as (g1 & _ & -> & _).
  apply mark_passed_awaiting.
Qed.

Lemma run_awaiting inputs : forall g g',
  run g inputs = Ok g' ->
  Forall awaiting (obstacles (ob_manager g)) ->
  Forall awaiting (obstacles (ob_manager g')).
Proof.
  induction inputs as [|i rest IH]; intros g g' H Hobs.
  - injection H as <-. exact Hobs.
  - rewrite run_cons in H. destruct (tick g i) as [g1|] eqn:E; [|discriminate].
    cbn [mbind result_bind] in H.
    apply (IH g1 g' H). eapply tick_awaiting, E.
Qed.

(** X18.  No obstacle leaves the field before [mark_passed_and_count] has
    seen it pass.  After every run, each obstacle that is not yet passed
    has its trailing edge at the player's x or ahead of it; so in the next
    iteration, if its frame is shorter than 500 ms, [update] removes no
    obstacle that is not passed. *)
Theorem unpassed_obstacles_survive (a : AudioAnalyzer)
    (inputs : list TickInput) (g g1 : Game) (i : TickInput) :
  run (Game_init a) inputs = Ok g ->
  spawn_logic (before_spawn g i) (music_pos i) (rng i) = Ok g1 ->
  dt_ms i < 500 ->
  Forall (fun o => passed o = false -> (inject_Z PLAYER_X <= x o + width o)%Q)
         (obstacles (ob_manager g))
  /\ unpassed (obstacles (update (ob_manager g1) (inject_Z (dt_ms i) / 1000)
                                 (music_pos i)))
     = map (fun o => Obstacle_update o (inject_Z (dt_ms i) / 1000))
           (unpassed (obstacles (ob_manager g1))).
Proof.
  intros Hrun Hs Hdt.
  assert (Hg : Forall awaiting (obstacles (ob_manager g))).
  { apply (run_awaiting inputs (Game_init a) g Hrun). constructor. }
  split; [exact Hg|].
  unfold update. cbn [obstacles]. apply update_keeps_unpassed.
  - assert (H : (inject_Z (dt_ms i) < inject_Z 500)%Q) by now rewrite <- Zlt_Qlt.
    change (inject_Z 500) with 500%Q in H.
    apply Qlt_shift_div_r; [reflexivity|]. lra.
  - apply (spawn_logic_awaiting _ _ _ _ Hs). exact Hg.
Qed.

(** The run of [wall_inputs] and its next frame. *)
Lemma unpassed_obstacles_survive_witness :
  run (Game_init wall_analyzer) wall_inputs = Ok wall_game
  /\ spawn_logic (before_spawn wall_game wall_tick) (music_pos wall_tick)
                 (rng wall_tick) = Ok wall_game'
  /\ dt_ms wall_tick < 500
  /\ Forall (fun o => passed o = false
                      -> (inject_Z PLAYER_X <= x o + width o)%Q)
            (obstacles (ob_manager wall_game)).
Proof.
  assert (H1 : run (Game_init wall_analyzer) wall_inputs = Ok wall_game)
    by (vm_compute; reflexivity).
  assert (H2 : spawn_logic (before_spawn wall_game wall_tick)
                 (music_pos wall_tick) (rng wall_tick) = Ok wall_game')
    by (vm_compute; reflexivity).
  assert (H3 : dt_ms wall_tick < 500) by (vm_compute; reflexivity).
  split; [exact H1|]. split; [exact H2|]. split; [exact H3|].
  exact (proj1 (unpassed_obstacles_survive _ _ _ _ _ H1 H2 H3)).
Defined.

(** ** Counting the dodged obstacles *)

Lemma unpassed_app l1 l2 : unpassed (l1 ++ l2) = unpassed l1 ++ unpassed l2.
Proof. unfold unpassed. apply List.filter_app. Qed.

Lemma unpassed_map_length (f : Obstacle -> Obstacle) obs :
  (forall o, passed (f o) = passed o) ->
  length (unpassed (map f obs)) = length (unpassed obs).
Proof.
  intros Hf. unfold unpassed. induction obs as [|o obs IH]; [reflexivity|].
  cbn [map List.filter]. rewrite Hf.
  destruct (negb (passed o)); cbn [length]; now rewrite IH.
Qed.

Lemma spawn_logic_unpassed g ms rng g' :
  spawn_logic g ms rng = Ok g' ->
  exists ev, spawn_events g ms rng = Ok ev
    /\ length (unpassed (obstacles (ob_manager g')))
       = (length (unpassed (obstacles (ob_manager g))) + length ev)%nat
    /\ obstacles_dodged g' = obstacles_dodged g.
Proof.
  intros H.
  destruct (spawn_logic_shape g ms rng g' H)
    as (ratio & added & f & tail & _ & Ho & Hadded & Hf & _ & Hev & _ & Hd).
  eexists. split; [exact Hev|]. split; [|exact Hd].
  assert (Hfp : forall o, passed (f o) = passed o).
  { intros o. destruct Hf as [(-> & _) | (-> & _)]; [reflexivity|].
    apply push_forward_same. }
  rewrite Ho, unpassed_app, length_app, unpassed_map_length by exact Hfp.
  rewrite unpassed_app, !length_app, !length_map.
  assert (Ha : length (unpassed added) = length added).
  { destruct Hadded as [-> | (? & ? & ? & ? & ? & _ & _ & _ & _ & _ & ->)];
      reflexivity. }
  assert (Ht : length (unpassed tail) = length tail).
  { destruct Hf as [(_ & -> & _) | (_ & -> & _)]; reflexivity. }
  lia.
Qed.

Lemma update_unpassed_le om dt ms :
  (length (unpassed (obstacles (update om dt ms)))
   <= length (unpassed (obstacles om)))%nat.
Proof.
  unfold update, unpassed. cbn [obstacles].
  induction (obstacles om) as [|o obs IH]; [cbn; lia|].
  cbn [map List.filter].
  assert (Hp : passed (Obstacle_update o dt) = passed o) by reflexivity.
  destruct (Qgtb _ _); cbn [List.filter]; rewrite ?Hp;
    destruct (negb (passed o)); cbn [length]; lia.
Qed.

Lemma mark_unpassed obs l :
  0 <= Z.of_nat (length (List.filter (counted l) obs))
  /\ Z.of_nat (length (List.filter (counted l) obs))
     + Z.of_nat (length (unpassed (map mark obs)))
     <= Z.of_nat (length (unpassed obs)).
Proof.
  split; [lia|]. unfold unpassed.
  induction obs as [|o obs IH]; [cbn; lia|].
  cbn [map List.filter]. unfold counted at 1, mark at 1, just_passed.
  destruct (passed o) eqn:Hp; cbn [negb andb].
  - rewrite Hp. cbn [negb]. exact IH.
  - destruct (Qltb (x o + width o) (inject_Z PLAYER_X)); cbn [andb].
    + cbn [set_passed passed negb].
      destruct (lane_dist o l <=? 1); cbn [length]; lia.
    + rewrite Hp. cbn [negb length]. lia.
Qed.

Lemma tick_dodged g i g' :
  tick g i = Ok g' ->
  exists ev,
    spawn_events (before_spawn g i) (music_pos i) (rng i) = Ok ev
    /\ obstacles_dodged g <= obstacles_dodged g'
    /\ obstacles_dodged g'
       + Z.of_nat (length (unpassed (obstacles (ob_manager g'))))
       <= obstacles_dodged g
          + Z.of_nat (length (unpassed (obstacles (ob_manager g))))
          + Z.of_nat (length ev).
Proof.
  intros H. destruct (tick_obstacles g i g' H) as (g1 & Hs & Hom & Hd & _).
  destruct (spawn_logic_unpassed _ _ _ _ Hs) as (ev & Hev & Hlen & Hd1).
  exists ev. split; [exact Hev|].
  change (ob_manager (before_spawn g i)) with (ob_manager g) in Hlen.
  change (obstacles_dodged (before_spawn g i)) with (obstacles_dodged g) in Hd1.
  rewrite Hd, Hom, Hd1. unfold mark_passed_and_count.
  rewrite mark_passed_loop_spec. cbn [fst snd obstacles].
  set (om := update (ob_manager g1) _ _).
  pose proof (update_unpassed_le (ob_manager g1) (inject_Z (dt_ms i) / 1000)
                (music_pos i)) as Hu. fold om in Hu.
  pose proof (mark_unpassed (obstacles om) (lane (player g1))) as [H0 Hm].
  lia.
Qed.

(** X19.  No obstacle is counted twice in its life: at the end of a run
    from the initial state, [obstacles_dodged] plus the number of obstacles
    still waiting to pass is at most the number of spawns of the run; and
    [obstacles_dodged] never decreases. *)
Theorem dodged_at_most_spawned (a : AudioAnalyzer) (inputs : list TickInput)
    (g : Game) (log : list (Z * SpawnKind)) :
  run_log (Game_init a) inputs = Ok (g, log) ->
  0 <= obstacles_dodged g
  /\ obstacles_dodged g
     + Z.of_nat (length (unpassed (obstacles (ob_manager g))))
     <= Z.of_nat (length log).
Proof.
  assert (Hgen : forall inputs g0 g log,
    run_log g0 inputs = Ok (g, log) ->
    obstacles_dodged g0 <= obstacles_dodged g
    /\ obstacles_dodged g
       + Z.of_nat (length (unpassed (obstacles (ob_manager g))))
       <= obstacles_dodged g0
          + Z.of_nat (length (unpassed (obstacles (ob_manager g0))))
          + Z.of_nat (length log)).
  { clear. induction inputs as [|i rest IH]; intros g0 g log H.
    - injection H as <- <-. cbn [length]. lia.
    - cbn [run_log] in H.
      destruct (spawn_events _ _ _) as [ev|] eqn:Hev; [|discriminate].
      cbn [mbind result_bind] in H.
      destruct (tick g0 i) as [g1|] eqn:Ht; [|discriminate].
      cbn [mbind result_bind] in H.
      destruct (run_log g1 rest) as [[g2 log2]|] eqn:Hrest; [|discriminate].
      cbn [mbind result_bind] in H. injection H as <- <-.
      destruct (IH _ _ _ Hrest) as [H1 H2].
      destruct (tick_dodged _ _ _ Ht) as (ev' & Hev' & H3 & H4).
      rewrite Hev in Hev'. injection Hev' as <-.
      rewrite length_app. lia. }
  intros H. destruct (Hgen inputs (Game_init a) g log H) as [H1 H2].
  cbn in H1, H2. lia.
Qed.

(** The run of [flat_inputs]: five spawns. *)
Lemma dodged_at_most_spawned_witness :
  run_log (Game_init flat_analyzer) flat_inputs
  = Ok (flat_game,
        [(0, EnergySpawn); (153, EnergySpawn); (306, EnergySpawn);
         (459, EnergySpawn); (510, BoredomSpawn)])
  /\ obstacles_dodged flat_game
     + Z.of_nat (length (unpassed (obstacles (ob_manager flat_game)))) <= 5.
Proof.
  assert (H1 : run_log (Game_init flat_analyzer) flat_inputs
               = Ok (flat_game,
                     [(0, EnergySpawn); (153, EnergySpawn); (306, EnergySpawn);
                      (459, EnergySpawn); (510, BoredomSpawn)]))
    by (vm_compute; reflexivity).
  split; [exact H1|].
  exact (proj2 (dodged_at_most_spawned _ _ _ _ H1)).
Defined.

(** ** The score *)

Lemma tick_score g i g' :
  tick g i = Ok g' ->
  (score g' == score g + inject_Z (dt_ms i) / 1000)%Q.
Proof.
  intros H. destruct (tick_obstacles g i g' H) as (g1 & Hs & _ & _ & Hsc & _).
  destruct (spawn_logic_shape _ _ _ _ Hs)
    as (_ & _ & _ & _ & _ & _ & _ & _ & _ & _ & Hsc1 & _).
  rewrite Hsc, Hsc1. change (score (before_spawn g i)) with (score g). ring.
Qed.

(** X20.  The score is the time played: after a run it has grown by the
    sum of the frame times, in seconds; neither the spawns nor the dodged
    obstacles change it. *)
Theorem score_is_time_played (g g' : Game) (inputs : list TickInput) :
  run g inputs = Ok g' ->
  (score g' == score g + inject_Z (elapsed_ms inputs) / 1000)%Q.
Proof.
  revert g. induction inputs as [|i rest IH]; intros g H.
  - injection H as <-. unfold elapsed_ms. cbn. unfold Qdiv. ring.
  - rewrite run_cons in H. destruct (tick g i) as [g1|] eqn:E; [|discriminate].
    cbn [mbind result_bind] in H.
    rewrite (IH g1 H), (tick_score g i g1 E).
    unfold elapsed_ms. cbn [map fold_right]. rewrite inject_Z_plus.
    unfold Qdiv. ring.
Qed.

(** The score of the run of [flat_inputs]. *)
Lemma score_is_time_played_witness :
  run (Game_init flat_analyzer) flat_inputs = Ok flat_game
  /\ (score flat_game
      == score (Game_init flat_analyzer)
         + inject_Z (elapsed_ms flat_inputs) / 1000)%Q.
Proof.
  assert (H1 : run (Game_init flat_analyzer) flat_inputs = Ok flat_game)
    by (vm_compute; reflexivity).
  split; [exact H1|].
  exact (score_is_time_played _ _ _ H1).
Defined.

(** ** The pace of the boredom spawns *)

Lemma boredom_gaps_ok_app prev l1 l2 :
  boredom_gaps_ok prev l1 -> boredom_gaps_ok (last_boredom prev l1) l2 ->
  boredom_gaps_ok prev (l1 ++ l2).
Proof.
  revert prev. induction l1 as [|[t k] l1 IH]; intros prev H1 H2; [exact H2|].
  destruct k; cbn in *.
  - now apply IH.
  - destruct H1 as [Hgap H1]. split; [exact Hgap|]. now apply IH.
Qed.

Lemma last_boredom_app prev l1 l2 :
  last_boredom prev (l1 ++ l2) = last_boredom (last_boredom prev l1) l2.
Proof.
  revert prev. induction l1 as [|[t k] l1 IH]; intros prev; [reflexivity|].
  destruct k; cbn; apply IH.
Qed.

Lemma set_last_lane_change_ms_same p :
  set_last_lane_change_ms p (last_lane_change_ms p) = p.
Proof. now destruct p. Qed.

Lemma spawn_logic_boredom_gap g ms rng g' :
  spawn_logic g ms rng = Ok g' ->
  exists ev, spawn_events g ms rng = Ok ev
    /\ boredom_gaps_ok (last_lane_change_ms (player g)) ev
    /\ player g'
       = set_last_lane_change_ms (player g)
           (last_boredom (last_lane_change_ms (player g)) ev).
Proof.
  intros H.
  destruct (spawn_logic_shape g ms rng g' H)
    as (ratio & added & f & tail & _ & _ & Hadded & Hf & _ & Hev & _).
  eexists. split; [exact Hev|].
  assert (Ha : forall prev l,
            boredom_gaps_ok prev (map (fun _ => (ms, EnergySpawn)) added ++ l)
            = boredom_gaps_ok prev l
            /\ last_boredom prev (map (fun _ => (ms, EnergySpawn)) added ++ l)
               = last_boredom prev l).
  { intros prev l.
    destruct Hadded as [-> | (? & ? & ? & ? & ? & _ & _ & _ & _ & _ & ->)];
      split; reflexivity. }
  rewrite (proj1 (Ha _ _)), (proj2 (Ha _ _)).
  destruct Hf as [(_ & -> & Hp) | (_ & -> & Hgap & Hp)]; rewrite Hp;
    cbn [map boredom_gaps_ok last_boredom].
  - split; [exact I|]. symmetry. apply set_last_lane_change_ms_same.
  - split; [split; [exact Hgap | exact I] | reflexivity].
Qed.

Lemma run_log_boredom inputs : forall g g' log,
  run_log g inputs = Ok (g', log) ->
  Forall (fun i => moves i = []) inputs ->
  settled (player g) ->
  boredom_gaps_ok (last_lane_change_ms (player g)) log
  /\ player g'
     = set_last_lane_change_ms (player g)
         (last_boredom (last_lane_change_ms (player g)) log).
Proof.
  induction inputs as [|i rest IH]; intros g g' log H Hm Hs.
  - injection H as <- <-. split; [exact I|].
    symmetry. apply set_last_lane_change_ms_same.
  - cbn [run_log] in H.
    destruct (spawn_events _ _ _) as [ev|] eqn:Hev; [|discriminate].
    cbn [mbind result_bind] in H.
    destruct (tick g i) as [g1|] eqn:Ht; [|discriminate].
    cbn [mbind result_bind] in H.
    destruct (run_log g1 rest) as [[g2 log2]|] eqn:Hrest; [|discriminate].
    cbn [mbind result_bind] in H. injection H as <- <-.
    apply Forall_cons in Hm. destruct Hm as [Hmi Hm].
    destruct (tick_obstacles g i g1 Ht) as (g0 & Hsl & _ & _ & _ & Hp).
    destruct (spawn_logic_boredom_gap _ _ _ _ Hsl) as (ev' & Hev' & Hg & Hl).
    rewrite Hev in Hev'. injection Hev' as <-.
    assert (Hbefore : player (before_spawn g i) = player g).
    { unfold before_spawn. cbn [player set_player]. rewrite Hmi.
      cbn [fold_left]. now apply settled_update. }
    rewrite Hbefore in Hg, Hl. rewrite <- Hp in Hl.
    assert (Hs1 : settled (player g1)) by (rewrite Hl; exact Hs).
    destruct (IH g1 g2 log2 Hrest Hm Hs1) as (Hg2 & Hl2).
    rewrite Hl in Hg2, Hl2. cbn [set_last_lane_change_ms last_lane_change_ms] in Hg2, Hl2.
    split; [now apply boredom_gaps_ok_app|].
    rewrite last_boredom_app. rewrite Hl2. reflexivity.
Qed.

(** X21.  As long as no key is pressed, the boredom spawns of a run from
    the initial state are more than 500 ms apart, the first one more than
    500 ms after the start; the player rests in the middle lane, and its
    [last_lane_change_ms] is the time of the last boredom spawn. *)
Theorem boredom_spawns_spaced (a : AudioAnalyzer) (inputs : list TickInput)
    (g : Game) (log : list (Z * SpawnKind)) :
  run_log (Game_init a) inputs = Ok (g, log) ->
  Forall (fun i => moves i = []) inputs ->
  boredom_gaps_ok 0 log
  /\ player g = set_last_lane_change_ms Player_init (last_boredom 0 log).
Proof.
  intros H Hm.
  assert (Hs : settled (player (Game_init a))) by (split; reflexivity).
  exact (run_log_boredom inputs _ _ _ H Hm Hs).
Qed.

(** The run of [flat_inputs]: one boredom spawn, at 510 ms. *)
Lemma boredom_spawns_spaced_witness :
  run_log (Game_init flat_analyzer) flat_inputs
  = Ok (flat_game,
        [(0, EnergySpawn); (153, EnergySpawn); (306, EnergySpawn);
         (459, EnergySpawn); (510, BoredomSpawn)])
  /\ Forall (fun i => moves i = []) flat_inputs
  /\ boredom_gaps_ok 0
       [(0, EnergySpawn); (153, EnergySpawn); (306, EnergySpawn);
        (459, EnergySpawn); (510, BoredomSpawn)].
Proof.
  assert (H1 : run_log (Game_init flat_analyzer) flat_inputs
               = Ok (flat_game,
                     [(0, EnergySpawn); (153, EnergySpawn); (306, EnergySpawn);
                      (459, EnergySpawn); (510, BoredomSpawn)]))
    by (vm_compute; reflexivity).
  assert (H2 : Forall (fun i => moves i = []) flat_inputs).
  { apply List.Forall_forall. intros i Hi. unfold flat_inputs in Hi.
    apply in_map_iff in Hi. destruct Hi as (k & <- & _). reflexivity. }
  split; [exact H1|]. split; [exact H2|].
  exact (proj1 (boredom_spawns_spaced _ _ _ _ H1 H2)).
Defined.

(** ** The first draw of the placement search *)

Lemma free_lane_outside start lc :
  1 <= lc <= 6 -> 0 <= start <= LANES - lc ->
  exists l, 0 <= l < LANES /\ ~ (start <= l < start + lc).
Proof.
  intros Hlc Hst. unfold LANES in *.
  destruct (Z.eq_dec start 0) as [-> | Hne].
  - exists lc. lia.
  - exists 0. lia.
Qed.

(** X22.  When the slice test of the code puts no obstacle within 0.6 s of
    the spawn position, the placement search accepts its first draw: the
    obstacle is placed at the first [lane_start] drawn, whatever its lane
    count. *)
Theorem empty_slice_first_draw (obs : list Obstacle) (lc : Z) (rng : Rng) :
  1 <= lc <= 6 ->
  Forall (fun o => in_slice o = false) obs ->
  placement_search obs lc rng = Ok (Some (draw_start rng lc 0)).
Proof.
  intros Hlc Hobs.
  assert (Hfree : forall k, all_blocked obs (draw_start rng lc k) lc = false).
  { intros k. apply all_blocked_false.
    assert (Hst : 0 <= draw_start rng lc k <= LANES - lc).
    { unfold draw_start.
      pose proof (Z.mod_pos_bound (Z.of_nat (randint rng k)) (LANES - lc + 1)
                    ltac:(unfold LANES; lia)). lia. }
    destruct (free_lane_outside _ lc Hlc Hst) as (l & Hl & Hout).
    exists l. split; [exact Hl|]. apply blocked_false. split; [exact Hout|].
    intros o Ho Hs. rewrite List.Forall_forall in Hobs.
    rewrite (Hobs o Ho) in Hs. discriminate. }
  destruct (placement_trials_spec obs lc rng 8 0%nat ltac:(unfold LANES; lia))
    as (r & Hr & Hspec).
  unfold placement_search. rewrite Hr. destruct r as [start|].
  - destruct Hspec as (j & Hj & -> & _ & _ & Hmin).
    destruct j as [|j]; [reflexivity|].
    specialize (Hmin 0%nat ltac:(lia)). rewrite Hfree in Hmin. discriminate.
  - specialize (Hspec 0%nat ltac:(lia)). rewrite Hfree in Hspec. discriminate.
Qed.

(** Two obstacles outside the slice: one a second ahead of the spawn
    column, one pushed 180 pixels behind it by a boredom spawn. *)
Lemma empty_slice_first_draw_witness :
  1 <= 2 <= 6
  /\ Forall (fun o => in_slice o = false)
            [Obstacle_init 0 5 1400; Obstacle_init 5 5 1880]
  /\ placement_search [Obstacle_init 0 5 1400; Obstacle_init 5 5 1880] 2
                      (const_rng (1 # 2) 0 7)
     = Ok (Some (draw_start (const_rng (1 # 2) 0 7) 2 0)).
Proof.
  assert (H1 : 1 <= 2 <= 6) by lia.
  assert (H2 : Forall (fun o => in_slice o = false)
                 [Obstacle_init 0 5 1400; Obstacle_init 5 5 1880])
    by (repeat constructor).
  split; [exact H1|]. split; [exact H2|].
  exact (empty_slice_first_draw _ 2 (const_rng (1 # 2) 0 7) H1 H2).
Defined.

(** ** The windows partition the samples *)

Lemma windows_concat (W : nat) : forall (n : nat) (l : list Q),
  (length l <= n * W)%nat ->
  concat (map (window_samples l W) (seq 0 n)) = l.
Proof.
  induction n as [|n IH]; intros l Hl.
  - destruct l; [reflexivity | cbn in Hl; lia].
  - cbn [seq map concat]. rewrite <- seq_shift, map_map.
    assert (E0 : window_samples l W 0 = firstn W l) by reflexivity.
    assert (E : map (fun i => window_samples l W (S i)) (seq 0 n)
                = map (window_samples (skipn W l) W) (seq 0 n)).
    { apply map_ext. intros i. unfold window_samples. f_equal.
      rewrite skipn_skipn. f_equal. lia. }
    rewrite E0, E, IH by (rewrite length_skipn; lia). apply firstn_skipn.
Qed.

Lemma window_count_bounds (len W : Z) :
  1 <= len -> 1 <= W ->
  let nw := Z.max 1 (py_ceil (inject_Z len / inject_Z W)) in
  (nw - 1) * W < len <= nw * W.
Proof.
  intros Hlen HW. cbv zeta. unfold py_ceil.
  set (q := (inject_Z len / inject_Z W)%Q).
  assert (HWq : (0 < inject_Z W)%Q)
    by (change 0%Q with (inject_Z 0); rewrite <- Zlt_Qlt; lia).
  assert (Hq : (q * inject_Z W == inject_Z len)%Q) by (unfold q; field; lra).
  pose proof (Qle_ceiling q) as Hup.
  pose proof (Qceiling_lt q) as Hlo.
  assert (Hqpos : (0 < q)%Q).
  { unfold q. apply Qlt_shift_div_l; [exact HWq|]. rewrite Qmult_0_l.
    change 0%Q with (inject_Z 0). rewrite <- Zlt_Qlt. lia. }
  assert (Hc1 : 1 <= Qceiling q).
  { assert (H : (inject_Z 0 < inject_Z (Qceiling q))%Q).
    { change (inject_Z 0) with 0%Q. lra. }
    rewrite <- Zlt_Qlt in H. lia. }
  rewrite Z.max_r by lia. split.
  - rewrite Zlt_Qlt, inject_Z_mult. rewrite <- Hq.
    apply Qmult_lt_compat_r; [exact HWq | exact Hlo].
  - rewrite Zle_Qle, inject_Z_mult. rewrite <- Hq.
    apply Qmult_le_compat_r; [exact Hup | lra].
Qed.

(** X23.  With a positive window length the windows of a constructed
    analyzer partition its samples: the slices [samples[start:end]] that
    [_compute_energy] takes, concatenated in order, give back the samples;
    every window but the last holds exactly [samples_per_window] samples,
    and the last one holds at least one and at most that many. *)
Theorem windows_partition_samples audio window_ms a :
  AudioAnalyzer_init audio window_ms = Ok a ->
  0 < samples_per_window a ->
  let W := Z.to_nat (samples_per_window a) in
  let n := Z.to_nat (num_windows a) in
  (forall i : nat,
     py_slice (samples a) (Z.of_nat i * samples_per_window a)
              (Z.of_nat i * samples_per_window a + samples_per_window a)
     = window_samples (samples a) W i)
  /\ concat (map (window_samples (samples a) W) (seq 0 n)) = samples a
  /\ (forall i, (i < n - 1)%nat ->
        length (window_samples (samples a) W i) = W)
  /\ (1 <= length (window_samples (samples a) W (n - 1)) <= W)%nat.
Proof.
  intros Hinit HW. cbv zeta.
  split; [intros i; now apply py_slice_window|].
  pose proof (AudioAnalyzer_init_inv _ _ _ Hinit)
    as (s1 & m & _ & Hmax & _ & _ & Hs & _ & _ & Hnw & _).
  assert (Hlen : 1 <= Z.of_nat (length (samples a))).
  { rewrite Hs, length_map. destruct s1; [discriminate | cbn [length]; lia]. }
  assert (HW' : 1 <= samples_per_window a) by lia.
  pose proof (window_count_bounds _ _ Hlen HW') as Hb.
  cbv zeta in Hb. rewrite <- Hnw in Hb.
  set (W := Z.to_nat (samples_per_window a)) in *.
  set (n := Z.to_nat (num_windows a)) in *.
  assert (HWn : Z.of_nat W = samples_per_window a) by (unfold W; lia).
  assert (Hn : Z.of_nat n = num_windows a) by (unfold n; lia).
  assert (HW1 : (1 <= W)%nat) by lia.
  rewrite <- HWn, <- Hn in Hb. clearbody W n.
  destruct n as [|k]; [lia|].
  replace (S k - 1)%nat with k by lia.
  assert (Hb' : (k * W < length (samples a) <= S k * W)%nat).
  { split.
    - apply Nat2Z.inj_lt. rewrite Nat2Z.inj_mul. lia.
    - apply Nat2Z.inj_le. rewrite Nat2Z.inj_mul. lia. }
  split; [apply windows_concat; lia|]. split.
  - intros i Hi. unfold window_samples.
    rewrite length_firstn, length_skipn.
    assert (S i * W <= k * W)%nat by (apply Nat.mul_le_mono_r; lia). lia.
  - unfold window_samples. rewrite length_firstn, length_skipn. lia.
Qed.

(** The windows of [wall_audio]. *)
Lemma windows_partition_samples_witness :
  AudioAnalyzer_init wall_audio WINDOW_MS = Ok wall_analyzer
  /\ 0 < samples_per_window wall_analyzer
  /\ concat (map (window_samples (samples wall_analyzer)
                    (Z.to_nat (samples_per_window wall_analyzer)))
                 (seq 0 (Z.to_nat (num_windows wall_analyzer))))
     = samples wall_analyzer.
Proof.
  assert (H1 : AudioAnalyzer_init wall_audio WINDOW_MS = Ok wall_analyzer)
    by (vm_compute; reflexivity).
  assert (H2 : 0 < samples_per_window wall_analyzer) by (vm_compute; reflexivity).
  split; [exact H1|]. split; [exact H2|].
  exact (proj1 (proj2 (windows_partition_samples _ _ _ H1 H2))).
Defined.

(** ** A silent track *)

Lemma np_sum_zero (l : list Q) :
  Forall (fun v => v == 0)%Q l -> (np_sum l == 0)%Q.
Proof.
  induction 1 as [|v l Hv _ IH]; [reflexivity|].
  cbn [np_sum fold_right]. fold (np_sum l). rewrite Hv, IH. reflexivity.
Qed.

Lemma reshape_rows_zero n c : forall l,
  Forall (fun v => v == 0)%Q l ->
  Forall (Forall (fun v => v == 0)%Q) (reshape_rows n c l).
Proof.
  induction n as [|n IH]; intros l Hl; [constructor|].
  cbn [reshape_rows]. constructor; [now apply Forall_take|].
  apply IH. now apply Forall_drop.
Qed.

Lemma mono_samples_zero audio mono :
  mono_samples audio = Ok mono ->
  Forall (fun v => v = 0) (array_of_samples audio) ->
  Forall (fun v => v == 0)%Q mono.
Proof.
  intros Hm Hz.
  assert (Hq : Forall (fun v => v == 0)%Q (map inject_Z (array_of_samples audio))).
  { apply Forall_map. eapply Forall_impl; [exact Hz|].
    intros v ->. reflexivity. }
  unfold mono_samples in Hm. destruct (channels audio >? 1).
  - unfold mono_mix in Hm. destruct (negb _); [discriminate|].
    injection Hm as <-. apply Forall_map.
    eapply Forall_impl; [apply reshape_rows_zero, Hq|].
    intros row Hrow. cbv beta. rewrite (np_sum_zero row Hrow).
    unfold Qdiv. ring.
  - injection Hm as <-. exact Hq.
Qed.

Lemma window_energy_zero samples spw i :
  Forall (fun v => v == 0)%Q samples -> (window_energy samples spw i == 0)%Q.
Proof.
  intros H. unfold window_energy.
  set (w := py_slice samples _ _).
  assert (Hw : Forall (fun v => v == 0)%Q w).
  { unfold w, py_slice. apply Forall_take, Forall_drop, H. }
  rewrite np_sum_zero.
  - unfold Qdiv. ring.
  - apply Forall_map. eapply Forall_impl; [exact Hw|].
    intros v Hv. cbv beta. rewrite Hv. reflexivity.
Qed.

(** X24.  A silent track is analysed without a division by zero: the peak
    falls back to 1, every sample and every window energy is 0, every
    baseline entry is [eps], and the ratio of [spawn_logic] is 0 at every
    time. *)
Theorem silent_track_ratio_zero audio window_ms a :
  AudioAnalyzer_init audio window_ms = Ok a ->
  Forall (fun v => v = 0) (array_of_samples audio) ->
  Forall (fun s => s == 0)%Q (samples a)
  /\ Forall (fun e => e == 0)%Q (energy a)
  /\ Forall (fun b => b == eps)%Q (baseline a)
  /\ forall ms r, energy_ratio a ms = Ok r -> (r == 0)%Q.
Proof.
  intros Hinit Hz.
  pose proof (AudioAnalyzer_init_ok _ _ _ Hinit) as Hok.
  pose proof (AudioAnalyzer_init_inv _ _ _ Hinit)
    as (s1 & m & Hmono & _ & _ & _ & Hs & _ & _ & _ & He & Hb).
  pose proof (mono_samples_zero audio s1 Hmono Hz) as Hs1.
  assert (Hsa : Forall (fun s => s == 0)%Q (samples a)).
  { rewrite Hs. apply Forall_map. eapply Forall_impl; [exact Hs1|].
    intros v Hv. cbv beta. rewrite Hv. unfold Qdiv. ring. }
  assert (Hen : Forall (fun e => e == 0)%Q (energy a)).
  { rewrite He.
    destruct (compute_energy_spec (samples a) (samples_per_window a)
                (num_windows a)) as [Hlen Hget].
    apply Forall_lookup_2. intros i e Hi.
    assert (Hlt : (i < Z.to_nat (num_windows a))%nat).
    { pose proof (lookup_lt_Some _ _ _ Hi) as Hl. cbv zeta in Hlen.
      now rewrite Hlen in Hl. }
    rewrite (Hget i Hlt) in Hi. injection Hi as <-.
    now apply window_energy_zero. }
  assert (Hba : Forall (fun b => b == eps)%Q (baseline a)).
  { rewrite Hb. unfold _compute_running_baseline.
    apply Forall_lookup_2. intros i b Hi.
    assert (Hlt : (i < length (energy a))%nat).
    { pose proof (lookup_lt_Some _ _ _ Hi) as Hl.
      rewrite running_baseline_length in Hl by apply buffer_ge_1. exact Hl. }
    destruct (running_baseline_spec ENERGY_BASELINE_BUFFER buffer_ge_1
                (energy a) i Hlt) as (v & Hv & Hvm).
    rewrite Hv in Hi. injection Hi as <-. rewrite Hvm.
    unfold mean. rewrite np_sum_zero.
    - unfold Qdiv. ring.
    - rewrite trailing_window_eq. now apply Forall_firstn_skipn. }
  split; [exact Hsa|]. split; [exact Hen|]. split; [exact Hba|].
  intros ms r Hr.
  destruct (energy_ratio_inv a ms r Hok Hr) as (i & e & b & _ & _ & He' & _ & ->).
  pose proof (Forall_lookup_1 _ _ _ _ Hen He') as He0. cbv beta in He0.
  rewrite He0. unfold Qdiv. ring.
Qed.

(** The baseline of [silent_audio]. *)
Lemma silent_track_ratio_zero_witness :
  AudioAnalyzer_init silent_audio WINDOW_MS = Ok silent_analyzer
  /\ Forall (fun v => v = 0) (array_of_samples silent_audio)
  /\ Forall (fun b => b == eps)%Q (baseline silent_analyzer).
Proof.
  assert (H1 : AudioAnalyzer_init silent_audio WINDOW_MS = Ok silent_analyzer)
    by (vm_compute; reflexivity).
  assert (H2 : Forall (fun v => v = 0) (array_of_samples silent_audio))
    by (apply Forall_replicate; reflexivity).
  split; [exact H1|]. split; [exact H2|].
  exact (proj1 (proj2 (proj2 (silent_track_ratio_zero _ _ _ H1 H2)))).
Defined.

(** ** The two versions of [spawn_logic] *)

Lemma classify_tier_no_streak ratio u :
  classify_tier ratio 0 u
  = match OneFile.classify_tier ratio u with
    | Some t => Some (Some t, if Qgeb ratio HIGH_TH then 1 else 0)
    | None => None
    end.
Proof.
  unfold classify_tier, OneFile.classify_tier.
  destruct (Qgeb ratio HIGH_TH); [reflexivity|].
  destruct (Qgeb ratio MEDIUM_TH); [reflexivity|].
  destruct (Qgeb ratio LOW_TH); [reflexivity|].
  destruct (Qltb u (5 # 100)); reflexivity.
Qed.

Lemma boredom_set_recent_high_count g c ms :
  boredom (set_recent_high_count g c) ms
  = set_recent_high_count (boredom g ms) c.
Proof.
  unfold boredom. cbn [player set_recent_high_count last_obstacle_near_ms].
  destruct (_ && _); reflexivity.
Qed.

(** X25.  With a streak counter of zero the modular [spawn_logic] and the
    one of [one_file_version.py] do the same to the obstacles, the player
    and the timers (and raise together), except in one case: when the gate
    is open, the ratio is below [LOW_TH] and the 5% draw fails, the modular
    version returns at once while the one-file version still runs the
    boredom block. *)
Theorem one_file_version_agrees (g : Game) (ms : Z) (rng : Rng) (ratio : Q) :
  recent_high_count g = 0 ->
  energy_ratio (analyzer g) ms = Ok ratio ->
  (MIN_SPAWN_INTERVAL_MS <= ms - last_spawn_ms (ob_manager g) ->
   (ratio < LOW_TH)%Q -> (5 # 100 <= rand rng)%Q ->
   spawn_logic g ms rng = Ok g
   /\ OneFile.spawn_logic g ms rng = Ok (boredom g ms))
  /\ (~ (MIN_SPAWN_INTERVAL_MS <= ms - last_spawn_ms (ob_manager g)
         /\ (ratio < LOW_TH)%Q /\ (5 # 100 <= rand rng)%Q) ->
      OneFile.spawn_logic g ms rng
      = g' ← spawn_logic g ms rng; Ok (set_recent_high_count g' 0)).
Proof.
  intros Hc Hr.
  assert (Hg : set_recent_high_count g 0 = g).
  { destruct g. cbn in Hc. subst. reflexivity. }
  unfold spawn_logic, OneFile.spawn_logic. rewrite Hr.
  cbn [mbind result_bind]. unfold audio_driven, OneFile.audio_driven.
  rewrite Hc, classify_tier_no_streak.
  split.
  - intros Hgate Hq Hu.
    destruct (ms - last_spawn_ms (ob_manager g) >=? MIN_SPAWN_INTERVAL_MS) eqn:E;
      [|zbool; zbool; lia].
    pose proof (classify_tier_quiet ratio 0 (rand rng) Hq Hu) as Hn.
    rewrite classify_tier_no_streak in Hn.
    destruct (OneFile.classify_tier ratio (rand rng)); [discriminate|].
    cbn. split; reflexivity.
  - intros Hnq.
    destruct (ms - last_spawn_ms (ob_manager g) >=? MIN_SPAWN_INTERVAL_MS) eqn:E.
    + destruct (OneFile.classify_tier ratio (rand rng)) as [t|] eqn:Et.
      * cbv zeta. cbn [set_recent_high_count ob_manager].
        destruct (heavy_cooldown (Some t) ms (last_heavy_ms (ob_manager g)))
          as [t'|]; cbn [mbind result_bind].
        -- destruct (choose_lane_count t' (choice rng)) as [lc|];
             cbn [mbind result_bind]; [|reflexivity].
           destruct (placement_search (obstacles (ob_manager g)) lc rng)
             as [[start|]|]; cbn [mbind result_bind]; [| |reflexivity].
           ++ f_equal. destruct g; cbn in *; subst.
              unfold boredom; cbn. destruct (_ && _); reflexivity.
           ++ f_equal. rewrite boredom_set_recent_high_count.
              destruct g; cbn in *; subst.
              unfold boredom; cbn. destruct (_ && _); reflexivity.
        -- f_equal. rewrite boredom_set_recent_high_count.
           destruct g; cbn in *; subst.
           unfold boredom; cbn. destruct (_ && _); reflexivity.
      * exfalso. apply Hnq. zbool. zbool. split; [lia|].
        unfold OneFile.classify_tier in Et.
        destruct (Qgeb ratio HIGH_TH); [discriminate|].
        destruct (Qgeb ratio MEDIUM_TH); [discriminate|].
        destruct (Qgeb ratio LOW_TH) eqn:E3; [discriminate|].
        destruct (Qltb (rand rng) (5 # 100)) eqn:E4; [discriminate|].
        split.
        -- destruct (Qlt_le_dec ratio LOW_TH) as [H | H]; [exact H|].
           apply Qgeb_ge in H. congruence.
        -- destruct (Qlt_le_dec (rand rng) (5 # 100)) as [H | H]; [|exact H].
           apply Qltb_lt in H. congruence.
    + cbn [mbind result_bind]. f_equal.
      destruct g; cbn in *; subst.
      unfold boredom; cbn. destruct (_ && _); reflexivity.
Qed.

(** The call of [cooldown_game] in both versions. *)
Lemma one_file_version_agrees_witness :
  recent_high_count cooldown_game = 0
  /\ energy_ratio (analyzer cooldown_game) 1300 = Ok spike_ratio
  /\ (~ (MIN_SPAWN_INTERVAL_MS <= 1300 - last_spawn_ms (ob_manager cooldown_game)
         /\ (spike_ratio < LOW_TH)%Q
         /\ (5 # 100 <= rand (const_rng (1 # 2) 1 0))%Q) ->
      OneFile.spawn_logic cooldown_game 1300 (const_rng (1 # 2) 1 0)
      = g' ← spawn_logic cooldown_game 1300 (const_rng (1 # 2) 1 0);
        Ok (set_recent_high_count g' 0)).
Proof.
  assert (H1 : recent_high_count cooldown_game = 0) by reflexivity.
  assert (H2 : energy_ratio (analyzer cooldown_game) 1300 = Ok spike_ratio)
    by (vm_compute; reflexivity).
  split; [exact H1|]. split; [exact H2|].
  exact (proj2 (one_file_version_agrees _ _ (const_rng (1 # 2) 1 0) _ H1 H2)).
Defined.

(** ** The gain of a track *)

Lemma Forall2_map_both {A B} (R : B -> B -> Prop) (f g : A -> B) (l : list A) :
  (forall a, R (f a) (g a)) -> Forall2 R (map f l) (map g l).
Proof. intros H. induction l; constructor; auto. Qed.

Lemma Forall2_map_rel {A B} (P : A -> A -> Prop) (R : B -> B -> Prop)
    (f : A -> B) (l l' : list A) :
  (forall a a', P a a' -> R (f a) (f a')) ->
  Forall2 P l l' -> Forall2 R (map f l) (map f l').
Proof. intros H. induction 1; constructor; auto. Qed.

Lemma np_sum_proper (l l' : list Q) :
  Forall2 Qeq l l' -> (np_sum l == np_sum l')%Q.
Proof.
  induction 1 as [|a a' l l' Ha _ IH]; [reflexivity|].
  cbn [np_sum fold_right]. fold (np_sum l) (np_sum l'). now rewrite Ha, IH.
Qed.

Lemma np_sum_louder k (l l' : list Q) :
  Forall2 (louder k) l l' -> (np_sum l' == inject_Z k * np_sum l)%Q.
Proof.
  induction 1 as [|a a' l l' Ha _ IH].
  - cbn. ring.
  - cbn [np_sum fold_right]. fold (np_sum l) (np_sum l').
    unfold louder in Ha. rewrite Ha, IH. ring.
Qed.

Lemma reshape_rows_louder k n c : forall l l',
  Forall2 (louder k) l l' ->
  Forall2 (Forall2 (louder k)) (reshape_rows n c l) (reshape_rows n c l').
Proof.
  induction n as [|n IH]; intros l l' H; [constructor|].
  cbn [reshape_rows]. constructor; [now apply Forall2_take|].
  apply IH. now apply Forall2_drop.
Qed.

Lemma mono_samples_louder k audio audio' s1 :
  frame_rate audio' = frame_rate audio ->
  channels audio' = channels audio ->
  array_of_samples audio' = map (Z.mul k) (array_of_samples audio) ->
  mono_samples audio = Ok s1 ->
  exists s1', mono_samples audio' = Ok s1' /\ Forall2 (louder k) s1 s1'.
Proof.
  intros _ Hch Hs Hm. unfold mono_samples in *. rewrite Hch, Hs.
  assert (Hraw : Forall2 (louder k)
                   (map inject_Z (array_of_samples audio))
                   (map inject_Z (map (Z.mul k) (array_of_samples audio)))).
  { rewrite map_map. apply Forall2_map_both. intros v. unfold louder.
    now rewrite inject_Z_mult. }
  destruct (channels audio >? 1).
  - unfold mono_mix in *. rewrite !length_map in *.
    destruct (negb _); [discriminate|]. injection Hm as <-.
    eexists. split; [reflexivity|].
    apply (Forall2_map_rel (Forall2 (louder k))).
    + intros row row' Hrow. unfold louder.
      rewrite (np_sum_louder k row row' Hrow). unfold Qdiv. ring.
    + now apply reshape_rows_louder.
  - injection Hm as <-. eexists. split; [reflexivity | exact Hraw].
Qed.

Lemma Qmax_louder k (a a' b b' : Q) :
  0 < k -> louder k a a' -> louder k b b' -> louder k (Qmax a b) (Qmax a' b').
Proof.
  intros Hk Ha Hb. unfold louder in *.
  assert (Hkq : (0 < inject_Z k)%Q)
    by (change 0%Q with (inject_Z 0); now rewrite <- Zlt_Qlt).
  destruct (Qlt_le_dec a b) as [Hlt | Hle].
  - rewrite (Q.max_r a b) by lra.
    rewrite (Q.max_r a' b'); [exact Hb|]. rewrite Ha, Hb. nra.
  - rewrite (Q.max_l a b) by lra.
    rewrite (Q.max_l a' b'); [exact Ha|]. rewrite Ha, Hb. nra.
Qed.

Lemma fold_max_louder k (t t' : list Q) :
  0 < k -> Forall2 (louder k) t t' -> forall h h',
  louder k h h' -> louder k (fold_left Qmax t h) (fold_left Qmax t' h').
Proof.
  intros Hk. induction 1 as [|a a' t t' Ha _ IH]; intros h h' Hh; [exact Hh|].
  cbn [fold_left]. apply IH. now apply Qmax_louder.
Qed.

Lemma Qabs_louder k (s s' : Q) :
  0 < k -> louder k s s' -> louder k (Qabs s) (Qabs s').
Proof.
  intros Hk H. unfold louder in *. rewrite H, Qabs_Qmult.
  rewrite (Qabs_pos (inject_Z k)); [reflexivity|].
  change 0%Q with (inject_Z 0). rewrite <- Zle_Qle. lia.
Qed.

Lemma np_max_louder k (l l' : list Q) m m' :
  0 < k -> Forall2 (louder k) l l' ->
  np_max (map Qabs l) = Ok m -> np_max (map Qabs l') = Ok m' ->
  louder k m m'.
Proof.
  intros Hk H Hm Hm'. destruct H as [|a a' l l' Ha Hl]; [discriminate|].
  cbn [map np_max] in Hm, Hm'. injection Hm as <-. injection Hm' as <-.
  apply fold_max_louder; [exact Hk | | now apply Qabs_louder].
  apply (Forall2_map_rel (louder k)); [|exact Hl].
  intros s s'. now apply Qabs_louder.
Qed.

Lemma normalised_louder k (l l' : list Q) m m' :
  0 < k -> Forall2 (louder k) l l' ->
  np_max (map Qabs l) = Ok m -> np_max (map Qabs l') = Ok m' ->
  Forall2 Qeq (map (fun s => s / (if Qeq_bool m 0 then 1 else m))%Q l)
              (map (fun s => s / (if Qeq_bool m' 0 then 1 else m'))%Q l').
Proof.
  intros Hk H Hm Hm'.
  pose proof (np_max_louder k l l' m m' Hk H Hm Hm') as Hmm.
  assert (Hkq : (0 < inject_Z k)%Q)
    by (change 0%Q with (inject_Z 0); now rewrite <- Zlt_Qlt).
  destruct (np_max_spec _ _ Hm) as [Hle _].
  rewrite List.Forall_forall in Hle.
  unfold louder in Hmm.
  destruct (Qeq_bool m 0) eqn:E.
  - apply Qeq_bool_iff in E.
    assert (E' : Qeq_bool m' 0 = true).
    { apply Qeq_bool_iff. rewrite Hmm, E. ring. }
    rewrite E'.
    assert (Hz : forall s, In s l -> (s == 0)%Q).
    { intros s Hs. assert (Ha : (Qabs s <= m)%Q) by (apply Hle, in_map, Hs).
      apply Qabs_Qle_condition in Ha. lra. }
    clear -H Hz. induction H as [|a a' l l' Ha Hl IH]; [constructor|].
    cbn [map]. constructor.
    + unfold louder in Ha. rewrite Ha, (Hz a ltac:(now left)).
      unfold Qdiv. ring.
    + apply IH. intros s Hs. apply Hz. now right.
  - apply Qeq_bool_neq in E.
    assert (E' : Qeq_bool m' 0 = false).
    { destruct (Qeq_bool m' 0) eqn:E2; [|reflexivity].
      apply Qeq_bool_iff in E2. exfalso. apply E.
      rewrite Hmm in E2. nra. }
    rewrite E'.
    assert (Hm'0 : ~ (m' == 0)%Q) by (rewrite Hmm; nra).
    clear -H Hmm E Hm'0 Hkq. induction H as [|a a' l l' Ha Hl IH]; [constructor|].
    cbn [map]. constructor; [|exact IH].
    unfold louder in Ha. rewrite Ha, Hmm. field. split; lra.
Qed.

Lemma window_energy_proper (s s' : list Q) spw i :
  Forall2 Qeq s s' -> (window_energy s spw i == window_energy s' spw i)%Q.
Proof.
  intros H. unfold window_energy.
  pose proof (Forall2_length _ _ _ H) as Hlen.
  assert (Hw : Forall2 Qeq
                 (py_slice s (Z.of_nat i * spw) (Z.of_nat i * spw + spw))
                 (py_slice s' (Z.of_nat i * spw) (Z.of_nat i * spw + spw))).
  { unfold py_slice. rewrite <- Hlen. now apply Forall2_take, Forall2_drop. }
  assert (Hsq : Forall2 Qeq
                  (map (fun v => v * v)%Q
                     (py_slice s (Z.of_nat i * spw) (Z.of_nat i * spw + spw)))
                  (map (fun v => v * v)%Q
                     (py_slice s' (Z.of_nat i * spw) (Z.of_nat i * spw + spw)))).
  { apply (Forall2_map_rel Qeq); [|exact Hw].
    intros a a' Ha. cbv beta. now rewrite Ha. }
  rewrite (Forall2_length _ _ _ Hw), (np_sum_proper _ _ Hsq). reflexivity.
Qed.

Lemma compute_energy_proper (s s' : list Q) spw nw :
  Forall2 Qeq s s' ->
  Forall2 Qeq (_compute_energy s spw nw (replicate (Z.to_nat nw) 0%Q))
              (_compute_energy s' spw nw (replicate (Z.to_nat nw) 0%Q)).
Proof.
  intros H.
  destruct (compute_energy_spec s spw nw) as [Hl Hg].
  destruct (compute_energy_spec s' spw nw) as [Hl' Hg'].
  cbv zeta in *.
  apply Forall2_same_length_lookup_2; [congruence|].
  intros i e e' He He'.
  assert (Hi : (i < Z.to_nat nw)%nat).
  { rewrite <- Hl. eapply lookup_lt_Some, He. }
  rewrite (Hg i Hi) in He. rewrite (Hg' i Hi) in He'.
  injection He as <-. injection He' as <-. now apply window_energy_proper.
Qed.

Lemma running_baseline_proper (en en' : list Q) :
  Forall2 Qeq en en' ->
  Forall2 Qeq (_compute_running_baseline en) (_compute_running_baseline en').
Proof.
  intros H. unfold _compute_running_baseline.
  pose proof (Forall2_length _ _ _ H) as Hlen.
  apply Forall2_same_length_lookup_2.
  - rewrite !running_baseline_length by apply buffer_ge_1. exact Hlen.
  - intros i b b' Hb Hb'.
    assert (Hi : (i < length en)%nat).
    { pose proof (lookup_lt_Some _ _ _ Hb) as Hl.
      now rewrite running_baseline_length in Hl by apply buffer_ge_1. }
    destruct (running_baseline_spec ENERGY_BASELINE_BUFFER buffer_ge_1 en i Hi)
      as (v & Hv & Hvm).
    destruct (running_baseline_spec ENERGY_BASELINE_BUFFER buffer_ge_1 en' i
                ltac:(now rewrite <- Hlen)) as (v' & Hv' & Hvm').
    rewrite Hv in Hb. rewrite Hv' in Hb'. injection Hb as <-. injection Hb' as <-.
    rewrite Hvm, Hvm'. unfold mean.
    assert (Hw : Forall2 Qeq (trailing_window ENERGY_BASELINE_BUFFER en i)
                             (trailing_window ENERGY_BASELINE_BUFFER en' i)).
    { rewrite !trailing_window_eq. now apply Forall2_drop, Forall2_take. }
    rewrite (Forall2_length _ _ _ Hw), (np_sum_proper _ _ Hw). reflexivity.
Qed.

Lemma analysis_louder (audio audio' : AudioSegment) (window_ms k : Z)
    (a : AudioAnalyzer) (s1 s1' : list Q) :
  0 < k ->
  frame_rate audio' = frame_rate audio ->
  mono_samples audio = Ok s1 ->
  mono_samples audio' = Ok s1' ->
  Forall2 (louder k) s1 s1' ->
  AudioAnalyzer_init audio window_ms = Ok a ->
  exists a',
    AudioAnalyzer_init audio' window_ms = Ok a'
    /\ samples_per_window a' = samples_per_window a
    /\ num_windows a' = num_windows a
    /\ Forall2 Qeq (samples a) (samples a')
    /\ Forall2 Qeq (energy a) (energy a')
    /\ Forall2 Qeq (baseline a) (baseline a')
    /\ forall ms r, energy_ratio a ms = Ok r ->
         exists r', energy_ratio a' ms = Ok r' /\ (r == r')%Q.
Proof.
  intros Hk Hfr Hmono0 Hmono' Hrel Hinit.
  pose proof (AudioAnalyzer_init_ok _ _ _ Hinit) as Hok.
  pose proof (AudioAnalyzer_init_inv _ _ _ Hinit)
    as (s0 & m & Hmono & Hmax & Hspw & _ & Hsa & Hms & Hspwa & Hnw & He & Hb).
  rewrite Hmono0 in Hmono. injection Hmono as <-.
  assert (Hspw' : spw_of audio' window_ms = spw_of audio window_ms)
    by (unfold spw_of; now rewrite Hfr).
  assert (Hne : s1' <> []).
  { intros ->. apply Forall2_nil_inv_r in Hrel. subst s1. discriminate. }
  destruct (AudioAnalyzer_init_total audio' window_ms s1' Hmono' Hne
              ltac:(now rewrite Hspw')) as (a' & Hinit').
  pose proof (AudioAnalyzer_init_ok _ _ _ Hinit') as Hok'.
  pose proof (AudioAnalyzer_init_inv _ _ _ Hinit')
    as (s1'' & m' & Hmono'' & Hmax' & _ & _ & Hsa' & Hms' & Hspwa' & Hnw' & He' & Hb').
  rewrite Hmono' in Hmono''. injection Hmono'' as <-.
  assert (Hsamples : Forall2 Qeq (samples a) (samples a')).
  { rewrite Hsa, Hsa'. now apply (normalised_louder k). }
  assert (Hspw_eq : samples_per_window a' = samples_per_window a) by congruence.
  assert (Hnw_eq : num_windows a' = num_windows a).
  { rewrite Hnw, Hnw', Hspw_eq, (Forall2_length _ _ _ Hsamples). reflexivity. }
  assert (Hen : Forall2 Qeq (energy a) (energy a')).
  { rewrite He, He', Hspw_eq, Hnw_eq. now apply compute_energy_proper. }
  assert (Hba : Forall2 Qeq (baseline a) (baseline a')).
  { rewrite Hb, Hb'. now apply running_baseline_proper. }
  exists a'. split; [exact Hinit'|]. split; [exact Hspw_eq|].
  split; [exact Hnw_eq|]. split; [exact Hsamples|]. split; [exact Hen|].
  split; [exact Hba|].
  intros ms r Hr.
  destruct (energy_ratio_inv a ms r Hok Hr)
    as (i & e & b & Hidx & Hi & Hle & Hlb & ->).
  destruct (Forall2_lookup_l _ _ _ _ _ Hen Hle) as (e' & Hle' & Hee).
  destruct (Forall2_lookup_l _ _ _ _ _ Hba Hlb) as (b' & Hlb' & Hbb).
  assert (Hidx' : get_window_index_for_ms a' ms = Ok i).
  { destruct Hok as [_ Hms0 _ _ _ _].
    rewrite get_window_index_Ok in Hidx by exact Hms0.
    rewrite get_window_index_Ok by congruence.
    rewrite Hms', Hnw_eq. rewrite Hms in Hidx. exact Hidx. }
  assert (Hbpos : (eps <= b')%Q).
  { destruct Hok' as [_ _ _ _ _ Hbs].
    exact (Forall_lookup_1 _ _ _ _ Hbs Hlb'). }
  exists (e' / b')%Q. split.
  - unfold energy_ratio. rewrite Hidx'. cbn [mbind result_bind].
    rewrite (lookup_py_getitem _ _ _ (proj1 Hi) Hle'). cbn [mbind result_bind].
    rewrite (lookup_py_getitem _ _ _ (proj1 Hi) Hlb'). cbn [mbind result_bind].
    apply py_div_nonzero. unfold eps in Hbpos. lra.
  - rewrite Hee, Hbb. reflexivity.
Qed.

(** X26.  The analysis does not depend on the gain of the track.  When
    every sample value is multiplied by the same [k > 0], the constructor
    returns an analyzer with the same windows, the same samples after
    normalisation, the same energies and the same baseline, and
    [spawn_logic] reads the same ratio at every time. *)
Theorem gain_invariance (audio audio' : AudioSegment) (window_ms k : Z)
    (a : AudioAnalyzer) :
  0 < k ->
  frame_rate audio' = frame_rate audio ->
  channels audio' = channels audio ->
  array_of_samples audio' = map (Z.mul k) (array_of_samples audio) ->
  AudioAnalyzer_init audio window_ms = Ok a ->
  exists a',
    AudioAnalyzer_init audio' window_ms = Ok a'
    /\ samples_per_window a' = samples_per_window a
    /\ num_windows a' = num_windows a
    /\ Forall2 Qeq (samples a) (samples a')
    /\ Forall2 Qeq (energy a) (energy a')
    /\ Forall2 Qeq (baseline a) (baseline a')
    /\ forall ms r, energy_ratio a ms = Ok r ->
         exists r', energy_ratio a' ms = Ok r' /\ (r == r')%Q.
Proof.
  intros Hk Hfr Hch Hs Hinit.
  pose proof (AudioAnalyzer_init_inv _ _ _ Hinit) as (s1 & m & Hmono & _).
  destruct (mono_samples_louder k audio audio' s1 Hfr Hch Hs Hmono)
    as (s1' & Hmono' & Hrel).
  exact (analysis_louder audio audio' window_ms k a s1 s1'
           Hk Hfr Hmono Hmono' Hrel Hinit).
Qed.

(** [wall_audio] at 3 times the gain. *)
Lemma gain_invariance_witness :
  0 < 3
  /\ AudioAnalyzer_init wall_audio WINDOW_MS = Ok wall_analyzer
  /\ exists a',
       AudioAnalyzer_init loud_wall_audio WINDOW_MS = Ok a'
       /\ Forall2 Qeq (energy wall_analyzer) (energy a').
Proof.
  assert (H1 : 0 < 3) by lia.
  assert (H2 : AudioAnalyzer_init wall_audio WINDOW_MS = Ok wall_analyzer)
    by (vm_compute; reflexivity).
  split; [exact H1|]. split; [exact H2|].
  destruct (gain_invariance wall_audio loud_wall_audio WINDOW_MS 3 wall_analyzer
              H1 eq_refl eq_refl eq_refl H2)
    as (a' & Ha' & _ & _ & _ & Hen & _).
  exists a'. split; [exact Ha' | exact Hen].
Defined.

(** ** Two identical channels *)

Lemma reshape_rows_pairs (l : list Z) :
  reshape_rows (length l) 2 (map inject_Z (flat_map (fun v => [v; v]) l))
  = map (fun v => [inject_Z v; inject_Z v]) l.
Proof.
  induction l as [|v l IH]; [reflexivity|].
  cbn [length flat_map app map reshape_rows firstn skipn].
  rewrite take_0, drop_0, IH. reflexivity.
Qed.

Lemma flat_map_pairs_length (l : list Z) :
  length (flat_map (fun v => [v; v]) l) = (2 * length l)%nat.
Proof. induction l as [|v l IH]; [reflexivity|]. cbn in *. lia. Qed.

Lemma mono_samples_as_stereo (audio : AudioSegment) :
  exists s2, mono_samples (as_stereo audio) = Ok s2
    /\ Forall2 (louder 1) (map inject_Z (array_of_samples audio)) s2.
Proof.
  unfold mono_samples, as_stereo, mono_mix. cbn [channels array_of_samples].
  rewrite length_map, flat_map_pairs_length.
  assert (E1 : Z.of_nat (2 * length (array_of_samples audio)) mod 2 = 0).
  { rewrite Nat2Z.inj_mul, Z.mul_comm. apply Z_mod_mult. }
  assert (E2 : Z.to_nat (Z.of_nat (2 * length (array_of_samples audio)) / 2)
               = length (array_of_samples audio)).
  { rewrite Nat2Z.inj_mul, Z.mul_comm, Z_div_mult by lia. lia. }
  change (2 >? 1) with true. cbv iota. rewrite E1, E2. cbn [Z.eqb negb].
  change (Z.to_nat 2) with 2%nat. rewrite reshape_rows_pairs, map_map.
  eexists. split; [reflexivity|].
  apply Forall2_map_both. intros v. unfold louder, np_sum.
  cbn [fold_right]. change (inject_Z 1) with 1%Q. change (inject_Z 2) with 2%Q.
  field.
Qed.

(** X27.  The mix-down to mono averages the channels: a stereo track whose
    two channels are identical is analysed exactly as the mono track, with
    the same windows, samples, energies, baseline and ratios. *)
Theorem identical_channels_as_mono (audio : AudioSegment) (window_ms : Z)
    (a : AudioAnalyzer) :
  channels audio <= 1 ->
  AudioAnalyzer_init audio window_ms = Ok a ->
  exists a',
    AudioAnalyzer_init (as_stereo audio) window_ms = Ok a'
    /\ samples_per_window a' = samples_per_window a
    /\ num_windows a' = num_windows a
    /\ Forall2 Qeq (samples a) (samples a')
    /\ Forall2 Qeq (energy a) (energy a')
    /\ Forall2 Qeq (baseline a) (baseline a')
    /\ forall ms r, energy_ratio a ms = Ok r ->
         exists r', energy_ratio a' ms = Ok r' /\ (r == r')%Q.
Proof.
  intros Hch Hinit.
  assert (Hmono : mono_samples audio
                  = Ok (map inject_Z (array_of_samples audio))).
  { unfold mono_samples. destruct (channels audio >? 1) eqn:E; [lia|].
    reflexivity. }
  destruct (mono_samples_as_stereo audio) as (s2 & Hmono2 & Hrel).
  exact (analysis_louder audio (as_stereo audio) window_ms 1 a _ s2
           ltac:(lia) eq_refl Hmono Hmono2 Hrel Hinit).
Qed.

(** [streak_audio] with two identical channels. *)
Lemma identical_channels_as_mono_witness :
  channels streak_audio <= 1
  /\ AudioAnalyzer_init streak_audio WINDOW_MS = Ok streak_analyzer
  /\ exists a',
       AudioAnalyzer_init (as_stereo streak_audio) WINDOW_MS = Ok a'
       /\ Forall2 Qeq (energy streak_analyzer) (energy a').
Proof.
  assert (H1 : channels streak_audio <= 1) by (vm_compute; discriminate).
  assert (H2 : AudioAnalyzer_init streak_audio WINDOW_MS = Ok streak_analyzer)
    by (vm_compute; reflexivity).
  split; [exact H1|]. split; [exact H2|].
  destruct (identical_channels_as_mono streak_audio WINDOW_MS streak_analyzer
              H1 H2) as (a' & Ha' & _ & _ & _ & Hen & _).
  exists a'. split; [exact Ha' | exact Hen].
Defined.

(** ** Choosing a song *)

(** X28.  [choose_song] takes the entry number [n] of the printed list for
    [1 <= n <= len]; it does not reject 0 or a negative number above
    [-len]: these count from the end of the list, 0 selecting the last
    song.  Every other number, and an input that is not a number, ends in
    [sys.exit(1)], as does an empty song directory. *)
Theorem choose_song_cases {A : Type} (songs : list A) (n : Z) :
  songs <> [] ->
  let len := Z.of_nat (length songs) in
  (1 <= n <= len ->
   exists song, songs !! Z.to_nat (n - 1) = Some song
                /\ choose_song songs (Some n) = Chosen song)
  /\ (- len < n <= 0 ->
      exists song, songs !! Z.to_nat (len + n - 1) = Some song
                   /\ choose_song songs (Some n) = Chosen song)
  /\ (exists song, songs !! (length songs - 1)%nat = Some song
                   /\ choose_song songs (Some 0) = Chosen song)
  /\ (len < n \/ n <= - len -> choose_song songs (Some n) = Exit)
  /\ choose_song songs None = Exit
  /\ choose_song (@nil A) (Some n) = Exit.
Proof.
  intros Hne. cbv zeta.
  assert (Hlen : 1 <= Z.of_nat (length songs)).
  { destruct songs; [congruence | cbn [length]; lia]. }
  assert (Hget : forall i, 0 <= i < Z.of_nat (length songs) ->
            exists song, songs !! Z.to_nat i = Some song).
  { intros i Hi. destruct (songs !! Z.to_nat i) as [song|] eqn:E; [eauto|].
    apply lookup_ge_None in E. lia. }
  assert (Hsome : forall m,
            choose_song songs (Some m)
            = match py_getitem songs (m - 1) with
              | Ok song => Chosen song
              | Raise _ => Exit
              end).
  { intros m. destruct songs; [congruence | reflexivity]. }
  assert (Hneg : forall m, - Z.of_nat (length songs) < m <= 0 ->
            exists song,
              songs !! Z.to_nat (Z.of_nat (length songs) + m - 1) = Some song
              /\ choose_song songs (Some m) = Chosen song).
  { intros m Hm.
    destruct (Hget (Z.of_nat (length songs) + m - 1) ltac:(lia)) as (song & Hs).
    exists song. split; [exact Hs|]. rewrite Hsome. unfold py_getitem.
    destruct (m - 1 <? 0) eqn:E1; [|zbool; lia].
    replace (m - 1 + Z.of_nat (length songs))
      with (Z.of_nat (length songs) + m - 1) by lia.
    destruct ((0 <=? Z.of_nat (length songs) + m - 1)
              && (Z.of_nat (length songs) + m - 1 <? Z.of_nat (length songs)))
      eqn:E2; [now rewrite Hs|].
    apply andb_false_iff in E2. destruct E2; zbool; lia. }
  split_and!.
  - intros Hn. destruct (Hget (n - 1) ltac:(lia)) as (song & Hs).
    exists song. split; [exact Hs|]. rewrite Hsome.
    apply lookup_py_getitem in Hs; [|lia]. now rewrite Hs.
  - exact (Hneg n).
  - destruct (Hneg 0 ltac:(lia)) as (song & Hs & Hc).
    exists song. split; [|exact Hc].
    replace (length songs - 1)%nat
      with (Z.to_nat (Z.of_nat (length songs) + 0 - 1)) by lia. exact Hs.
  - intros Hn. rewrite Hsome. unfold py_getitem.
    destruct (n - 1 <? 0) eqn:E1.
    + destruct ((0 <=? n - 1 + Z.of_nat (length songs))
                && (n - 1 + Z.of_nat (length songs) <? Z.of_nat (length songs)))
        eqn:E2; [|reflexivity].
      exfalso. zbool. lia.
    + destruct ((0 <=? n - 1) && (n - 1 <? Z.of_nat (length songs))) eqn:E2;
        [|reflexivity].
      exfalso. zbool. lia.
  - destruct songs; reflexivity.
  - reflexivity.
Qed.

(** Three songs: 2 is the second, 0 the last, 4 is rejected. *)
Lemma choose_song_cases_witness :
  [10; 20; 30] <> []
  /\ choose_song [10; 20; 30] (Some 2) = Chosen 20
  /\ choose_song [10; 20; 30] (Some 0) = Chosen 30
  /\ choose_song [10; 20; 30] (Some 4) = Exit.
Proof.
  assert (H1 : [10; 20; 30] <> []) by discriminate.
  split; [exact H1|].
  pose proof (choose_song_cases [10; 20; 30] 4 H1) as (_ & _ & _ & H4 & _).
  split; [reflexivity|]. split; [reflexivity|].
  apply H4. left. vm_compute. reflexivity.
Defined.
